(** * KHARMA: divergence-cleaning transport (b_cd.cpp), the HARM driver's
      per-stage task list (harm.cpp) and the rest problem's initialisation
      (prob/rest_conserve.cpp).

    The C++ sources compute in [Real] (= [double]).  The functions below are
    written once over an arithmetic interface [RealArith]; the interface is
    instantiated with IEEE-754 binary64 (the kernel's primitive floats, which
    is what the compiled code computes with) and with the real numbers (the
    exact arithmetic that several sentences of the specification reason in). *)

From Stdlib Require Import Floats ZArith Reals Lra.
From stdpp Require Import base tactics list gmap strings.

Local Open Scope Z_scope.

(** ** Arithmetic of [Real] *)

Class RealArith := {
  Real : Type;
  r0 : Real;                       (* the literal 0. *)
  r1 : Real;                       (* the literal 1. *)
  rhalf : Real;                    (* the literal 0.5 *)
  radd : Real -> Real -> Real;
  rsub : Real -> Real -> Real;
  rmul : Real -> Real -> Real;
  rdiv : Real -> Real -> Real;
  rneg : Real -> Real;             (* unary minus *)
  rsqrt : Real -> Real;            (* Kokkos::sqrt *)
  rlt : Real -> Real -> bool;      (* a < b *)
  rne : Real -> Real -> bool;      (* a != b *)
  rmax_identity : Real             (* Kokkos::reduction_identity<Real>::max() *)
}.

(** [a > b] is [b < a]. *)
Definition rgt `{RealArith} (a b : Real) : bool := rlt b a.

(** binary64: every operation is the correctly rounded IEEE one; [!=] is
    true on NaN; the identity of the max reduction is [-DBL_MAX]. *)
Definition DBL_MAX : float := 0x1.fffffffffffffp+1023%float.

#[export] Instance binary64 : RealArith := {|
  Real := float;
  r0 := 0%float;
  r1 := 1%float;
  rhalf := 0.5%float;
  radd := PrimFloat.add;
  rsub := PrimFloat.sub;
  rmul := PrimFloat.mul;
  rdiv := PrimFloat.div;
  rneg := PrimFloat.opp;
  rsqrt := PrimFloat.sqrt;
  rlt := PrimFloat.ltb;
  rne := fun a b => negb (PrimFloat.eqb a b);
  rmax_identity := PrimFloat.opp DBL_MAX
|}.

(** Exact real arithmetic.  The reals have no least element, so the seed of
    the max reduction is kept at the real number [-DBL_MAX]
    = -(2^1024 - 2^971). *)
Definition Rltb (a b : R) : bool := if Rlt_dec a b then true else false.
Definition Rneb (a b : R) : bool := if Req_dec_T a b then false else true.

Definition exactR : RealArith := {|
  Real := R;
  r0 := 0%R;
  r1 := 1%R;
  rhalf := (1 / 2)%R;
  radd := Rplus;
  rsub := Rminus;
  rmul := Rmult;
  rdiv := Rdiv;
  rneg := Ropp;
  rsqrt := R_sqrt.sqrt;
  rlt := Rltb;
  rne := Rneb;
  rmax_identity := (- (IZR (2 ^ 1024 - 2 ^ 971)))%R
|}.

(** The laws of [<] that the max reduction relies on.  Both hold of IEEE
    comparison (a NaN is never less than anything) and of the reals. *)
Class RealOrder (RA : RealArith) : Prop := {
  rlt_irrefl : forall a : Real, rlt a a = false;
  rlt_trans : forall a b c : Real, rlt a b = true -> rlt b c = true -> rlt a c = true
}.

(** Finite floats of one sign are ordered lexicographically by exponent and
    mantissa; [lexlt] is that order. *)
Definition lexlt (e1 : Z) (m1 : positive) (e2 : Z) (m2 : positive) : Prop :=
  e1 < e2 \/ (e1 = e2 /\ (m1 < m2)%positive).

(** ** The parts of Parthenon and of KHARMA's headers that the sources use *)

(** decs.hpp is not among the sources: the number of vector components and
    the component indices it defines are parameters of the development. *)
Class Decs := {
  NVEC : Z;
  V1 : Z;
  V2 : Z;
  V3 : Z
}.

(** The values KHARMA's decs.hpp gives them; used for the concrete runs. *)
Definition kharma_decs : Decs := {| NVEC := 3; V1 := 0; V2 := 1; V3 := 2 |}.

(** Parthenon's coordinate directions. *)
Definition X1DIR : Z := 1.
Definition X2DIR : Z := 2.
Definition X3DIR : Z := 3.

Inductive TaskStatus := fail | complete | incomplete.

Inductive IndexDomain := interior | entire.

Inductive Loci := face1 | face2 | face3 | center | corner.

(** An [IndexRange] is inclusive at both ends. *)
Record IndexRange := { s : Z; e : Z }.

Record IndexShape := {
  GetBoundsI : IndexDomain -> IndexRange;
  GetBoundsJ : IndexDomain -> IndexRange;
  GetBoundsK : IndexDomain -> IndexRange
}.

Definition irange (r : IndexRange) : list Z := seqZ (s r) (e r - s r + 1).

(** A [for] loop over an inclusive range, threading the state. *)
Definition for_range {St : Type} (r : IndexRange) (body : Z -> St -> St) (st : St) : St :=
  fold_left (fun st n => body n st) (irange r) st.

(** [par_for] over (k, j, i) and over (b, k, j, i).  The bodies below read
    and write only their own cell of the arrays they update, so the result
    does not depend on the order; the model runs the nest in index order. *)
Definition par_for_3D {St : Type} (kb jb ib : IndexRange)
    (body : Z -> Z -> Z -> St -> St) : St -> St :=
  for_range kb (fun k => for_range jb (fun j => for_range ib (fun i => body k j i))).

Definition par_for_MESH_3D {St : Type} (bb kb jb ib : IndexRange)
    (body : Z -> Z -> Z -> Z -> St -> St) : St -> St :=
  for_range bb (fun b => par_for_3D kb jb ib (body b)).

Section Containers.
Context {RA : RealArith}.

(** The geometry of one block: inverse metric [gcon loc j i mu nu], metric
    determinant [gdet loc j i], and the cell widths along the three axes. *)
Record Coords := {
  gcon : Loci -> Z -> Z -> Z -> Z -> Real;
  gdet : Loci -> Z -> Z -> Real;
  dx1v : Z -> Real;
  dx2v : Z -> Real;
  dx3v : Z -> Real
}.

(** The fields of one block by name: [data rc name v k j i] is
    [rc->Get(name).data(v, k, j, i)] and [flux rc name dir v k j i] is
    [rc->Get(name).flux[dir](v, k, j, i)].  [mb_ndim] is
    [rc->GetBlockPointer()->pmy_mesh->ndim]. *)
Record MeshBlockData := {
  mb_ndim : Z;
  coords : Coords;
  cellbounds : IndexShape;
  c_cellbounds : IndexShape;
  data : string -> Z -> Z -> Z -> Z -> Real;
  flux : string -> Z -> Z -> Z -> Z -> Z -> Real
}.

(** [rc->Get(name).data(v, k, j, i) = x] *)
Definition data_set (rc : MeshBlockData) (name : string) (v k j i : Z) (x : Real)
    : MeshBlockData :=
  {| mb_ndim := mb_ndim rc;
     coords := coords rc;
     cellbounds := cellbounds rc;
     c_cellbounds := c_cellbounds rc;
     data := fun n v' k' j' i' =>
       if String.eqb n name && (v' =? v) && (k' =? k) && (j' =? j) && (i' =? i)
       then x else data rc n v' k' j' i';
     flux := flux rc |}.

(** A [MeshData] gathers the blocks of one process; [ndim] is
    [md->GetMeshPointer()->ndim], [nblocks] the fifth dimension of a pack of
    its variables, and [damping] the parameter that B_CD::Initialize stores
    under that name in the package B_CD. *)
Record MeshData := {
  ndim : Z;
  nblocks : Z;
  damping : Real;
  blocks : Z -> MeshBlockData
}.

(** The entry [(b, v, k, j, i)] of a pack of the variable [name] is the
    entry [(v, k, j, i)] of that variable on block [b]: a pack is a view,
    and writing through it writes the block's array. *)
Definition pack (md : MeshData) (name : string) (b v k j i : Z) : Real :=
  data (blocks md b) name v k j i.

Definition pack_flux (md : MeshData) (name : string) (b dir v k j i : Z) : Real :=
  flux (blocks md b) name dir v k j i.

Definition pack_set (md : MeshData) (name : string) (b v k j i : Z) (x : Real) : MeshData :=
  {| ndim := ndim md;
     nblocks := nblocks md;
     damping := damping md;
     blocks := fun b' => if b' =? b then data_set (blocks md b) name v k j i x
                         else blocks md b' |}.

(** The bounds of a [MeshData] are those of its first block. *)
Definition md_GetBoundsI (md : MeshData) (d : IndexDomain) : IndexRange :=
  GetBoundsI (cellbounds (blocks md 0)) d.
Definition md_GetBoundsJ (md : MeshData) (d : IndexDomain) : IndexRange :=
  GetBoundsJ (cellbounds (blocks md 0)) d.
Definition md_GetBoundsK (md : MeshData) (d : IndexDomain) : IndexRange :=
  GetBoundsK (cellbounds (blocks md 0)) d.

End Containers.

(** ** b_cd.cpp *)

Module B_CD.
Section B_CD.
Context {RA : RealArith} {D : Decs}.

(** [VLOOP] is [for (int v = 0; v < NVEC; ++v)]. *)
Definition VLOOP {St : Type} (body : Z -> St -> St) : St -> St :=
  for_range {| s := 0; e := NVEC - 1 |} body.

(** The body of the kernel of [UtoP] at the cell (k, j, i). *)
Definition UtoP_cell (k j i : Z) (rc : MeshBlockData) : MeshBlockData :=
  let G := coords rc in
  let gdet := gdet G center j i in
  let rc := VLOOP (fun v rc =>
              data_set rc "prims.B" v k j i (rdiv (data rc "cons.B" v k j i) gdet)) rc in
  data_set rc "prims.psi_cd" 0 k j i (rdiv (data rc "cons.psi_cd" 0 k j i) gdet).

Definition UtoP (rc : MeshBlockData) (domain : IndexDomain) (coarse : bool) : MeshBlockData :=
  let bounds := if coarse then c_cellbounds rc else cellbounds rc in
  let ib := GetBoundsI bounds domain in
  let jb := GetBoundsJ bounds domain in
  let kb := GetBoundsK bounds domain in
  par_for_3D kb jb ib UtoP_cell rc.

(** The divergence estimate that the kernel of [AddSource] computes. *)
Definition AddSource_divB (nd : Z) (md : MeshData) (b k j i : Z) : Real :=
  let G := coords (blocks md b) in
  let B_U_flux := pack_flux md "cons.B" b in
  let divB :=
    radd (rdiv (rsub (B_U_flux X1DIR V1 k j (i + 1)) (B_U_flux X1DIR V1 k j i)) (dx1v G i))
         (rdiv (rsub (B_U_flux X2DIR V2 k (j + 1) i) (B_U_flux X2DIR V2 k j i)) (dx2v G j)) in
  if nd >? 2
  then radd divB (rdiv (rsub (B_U_flux X3DIR V3 (k + 1) j i) (B_U_flux X3DIR V3 k j i)) (dx3v G k))
  else divB.

(** The body of the kernel of [AddSource] at the cell (k, j, i) of block
    [b].  The state is the pair of the two arguments: [psi_U] and [B_U] are
    packs of [md], [psi_DU] is a pack of [mdudt], and [B_DU] is a pack of
    [md] as well (`md->PackVariables`), so the writes through [B_DU] land in
    the array that [B_U] reads.  The three [+=] on [B_DU(b, v, k, j, i)]
    are accumulated in the local [B_DU] and stored once; [gdet_c] is
    computed by the source and never used. *)
Definition AddSource_cell (nd : Z) (lambda : Real) (b k j i : Z)
    (st : MeshData * MeshData) : MeshData * MeshData :=
  let md := st.1 in
  let mdudt := st.2 in
  let G := coords (blocks md b) in
  let psi_U_flux := pack_flux md "cons.psi_cd" b in
  let alpha_c := rdiv r1 (rsqrt (rneg (gcon G center j i 0 0))) in
  let divB := AddSource_divB nd md b k j i in
  let md := VLOOP (fun v md =>
    let B_DU := pack md "cons.B" b v k j i in
    let B_DU :=
      radd B_DU
        (radd (rdiv (rmul (rmul alpha_c (gcon G center j i (v + 1) 1))
                          (rsub (psi_U_flux X1DIR 0 k j (i + 1)) (psi_U_flux X1DIR 0 k j i)))
                    (dx1v G i))
              (rdiv (rmul (rmul alpha_c (gcon G center j i (v + 1) 2))
                          (rsub (psi_U_flux X2DIR 0 k (j + 1) i) (psi_U_flux X2DIR 0 k j i)))
                    (dx2v G j))) in
    let B_DU :=
      if nd >? 2
      then radd B_DU
             (rdiv (rmul (rmul alpha_c (gcon G center j i (v + 1) 3))
                         (rsub (psi_U_flux X3DIR 0 (k + 1) j i) (psi_U_flux X3DIR 0 k j i)))
                   (dx3v G k))
      else B_DU in
    let B_DU := radd B_DU (rmul (rmul (rmul (gcon G center j i 0 (v + 1)) alpha_c) alpha_c) divB) in
    pack_set md "cons.B" b v k j i B_DU) md in
  let dalpha1 :=
    rdiv (rsub (rdiv (rdiv r1 (rsqrt (rneg (gcon G face1 j (i + 1) 0 0)))) (gdet G face1 j (i + 1)))
               (rdiv (rdiv r1 (rsqrt (rneg (gcon G face1 j i 0 0)))) (gdet G face1 j i)))
         (dx1v G i) in
  let dalpha2 :=
    rdiv (rsub (rdiv (rdiv r1 (rsqrt (rneg (gcon G face2 (j + 1) i 0 0)))) (gdet G face2 (j + 1) i))
               (rdiv (rdiv r1 (rsqrt (rneg (gcon G face2 j i 0 0)))) (gdet G face2 j i)))
         (dx2v G i) in
  let psi_DU :=
    radd (pack mdudt "cons.psi_cd" b 0 k j i)
         (rsub (radd (rmul (pack md "cons.B" b V1 k j i) dalpha1)
                     (rmul (pack md "cons.B" b V2 k j i) dalpha2))
               (rmul (rmul alpha_c lambda) (pack md "cons.psi_cd" b 0 k j i))) in
  (md, pack_set mdudt "cons.psi_cd" b 0 k j i psi_DU).

Definition AddSource (md mdudt : MeshData) : MeshData * MeshData * TaskStatus :=
  let nd := ndim md in
  if nd <? 2 then (md, mdudt, complete) else
  let lambda := damping md in
  let ib := md_GetBoundsI md interior in
  let jb := md_GetBoundsJ md interior in
  let kb := md_GetBoundsK md interior in
  let block := {| s := 0; e := nblocks md - 1 |} in
  (par_for_MESH_3D block kb jb ib (AddSource_cell nd lambda) (md, mdudt), complete).

(** The divergence estimate that the reduction of [MaxDivB] computes. *)
Definition MaxDivB_divb_local (nd : Z) (md : MeshData) (b k j i : Z) : Real :=
  let G := coords (blocks md b) in
  let B_flux := pack_flux md "cons.B" b in
  let divb_local :=
    radd (rdiv (rsub (B_flux 1 V1 k j (i + 1)) (B_flux 1 V1 k j i)) (dx1v G i))
         (rdiv (rsub (B_flux 2 V2 k (j + 1) i) (B_flux 2 V2 k j i)) (dx2v G j)) in
  if nd >? 2
  then radd divb_local (rdiv (rsub (B_flux 3 V3 (k + 1) j i) (B_flux 3 V3 k j i)) (dx3v G k))
  else divb_local.

(** One step of the max reduction:
    [if (divb_local > local_result) local_result = divb_local].  The
    reduction starts from the identity of [Kokkos::Max] and, in the model,
    visits the cells in index order. *)
Definition max_step (divb_local local_result : Real) : Real :=
  if rgt divb_local local_result then divb_local else local_result.

Definition MaxDivB (md : MeshData) : Real :=
  let nd := ndim md in
  if nd <? 2 then r0 else
  let ib := md_GetBoundsI md interior in
  let jb := md_GetBoundsJ md interior in
  let kb := md_GetBoundsK md interior in
  let block := {| s := 0; e := nblocks md - 1 |} in
  let il := {| s := s ib; e := e ib - 1 |} in
  let jl := {| s := s jb; e := e jb - 1 |} in
  let kl := if nd >? 2 then {| s := s kb; e := e kb - 1 |} else kb in
  par_for_MESH_3D block kl jl il
    (fun b k j i local_result => max_step (MaxDivB_divb_local nd md b k j i) local_result)
    rmax_identity.

(** [FillOutput] works on the base container [rc] of the block; the
    input file is not read.  [F1], [F2], [F3] are the flux arrays of cons.B
    ([F3] is assigned and read only with more than 2 dimensions); the
    bounds [is .. ke] that the source computes first are not used. *)
Definition FillOutput (rc : MeshBlockData) : MeshBlockData :=
  let ndim := mb_ndim rc in
  if ndim <? 2 then rc else
  let F1 := flux rc "cons.B" X1DIR in
  let F2 := flux rc "cons.B" X2DIR in
  let F3 := flux rc "cons.B" X3DIR in
  let ib := GetBoundsI (cellbounds rc) interior in
  let jb := GetBoundsJ (cellbounds rc) interior in
  let kb := GetBoundsK (cellbounds rc) interior in
  let il := {| s := s ib; e := e ib - 1 |} in
  let jl := {| s := s jb; e := e jb - 1 |} in
  let kl := if ndim >? 2 then {| s := s kb; e := e kb - 1 |} else kb in
  let G := coords rc in
  par_for_3D kl jl il
    (fun k j i rc' =>
       let divb_local :=
         radd (rdiv (rsub (F1 V1 k j (i + 1)) (F1 V1 k j i)) (dx1v G i))
              (rdiv (rsub (F2 V2 k (j + 1) i) (F2 V2 k j i)) (dx2v G j)) in
       let divb_local :=
         if ndim >? 2
         then radd divb_local (rdiv (rsub (F3 V3 (k + 1) j i) (F3 V3 k j i)) (dx3v G k))
         else divb_local in
       data_set rc' "divB" 0 k j i divb_local)
    rc.

End B_CD.
End B_CD.

(** ** harm.cpp *)

Module HARM.

(** The functions that [MakeTaskList] enrols as tasks.  [NewDt] is the
    lambda that sets the block's timestep from
    [Update::EstimateTimestep]; [ProlongBound] and [TagRefine] are the two
    block lambdas (the second calls [CheckRefinementCondition]). *)
Inductive TaskFn :=
  | StartReceivingTask
  | CalculateFluxes
  | SendFluxCorrectionTask
  | ReceiveFluxCorrectionTask
  | FluxDivergence
  | SourceTerm
  | UpdateContainer
  | SendBoundaryBuffersTask
  | ReceiveBoundaryBuffersTask
  | SetBoundariesTask
  | ClearBoundaryTask
  | ProlongBound
  | ApplyBoundaryConditions
  | ApplyCustomBoundaries
  | FillDerived
  | NewDt
  | TagRefine.

(** What a task is applied to: one container, two containers, the block,
    or the block with the stage (the update task).  Containers are named
    as in the collection [pmb->real_containers]. *)
Inductive TaskArg :=
  | OnContainer (c : string)
  | OnTwoContainers (c1 c2 : string)
  | OnBlock
  | OnUpdate (stage : Z).

(** A task's identifier is its position in the list; [none] is 0. *)
Definition TaskID := nat.
Definition none : TaskID := 0%nat.

Record Task := {
  task_fn : TaskFn;
  task_dep : TaskID;
  task_arg : TaskArg
}.

Definition TaskList := list Task.

Definition AddTask (tl : TaskList) (f : TaskFn) (dep : TaskID) (a : TaskArg)
    : TaskList * TaskID :=
  let tl' := tl ++ [ {| task_fn := f; task_dep := dep; task_arg := a |} ] in
  (tl', length tl').

Definition AddContainerTask (tl : TaskList) (f : TaskFn) (dep : TaskID) (c : string) :=
  AddTask tl f dep (OnContainer c).
Definition AddTwoContainerTask (tl : TaskList) (f : TaskFn) (dep : TaskID) (c1 c2 : string) :=
  AddTask tl f dep (OnTwoContainers c1 c2).
Definition AddUpdateTask (tl : TaskList) (stage : Z) (f : TaskFn) (dep : TaskID) :=
  AddTask tl f dep (OnUpdate stage).
Definition AddBlockTask (tl : TaskList) (f : TaskFn) (dep : TaskID) :=
  AddTask tl f dep OnBlock.

(** The driver: the integrator's number of stages, the names of the stage
    containers, and whether the mesh is adaptive. *)
Record HARMDriver := {
  nstages : Z;
  stage_name : Z -> string;
  adaptive : bool
}.

(** The block, as far as [MakeTaskList] touches it: the names of the
    containers in [real_containers].  [Add] copies the base container
    under a new name. *)
Record MeshBlock := { real_containers : gset string }.

Definition real_containers_Add (pmb : MeshBlock) (name : string) : MeshBlock :=
  {| real_containers := {[ name ]} ∪ real_containers pmb |}.

Definition MakeTaskList (drv : HARMDriver) (pmb : MeshBlock) (stage : Z)
    : MeshBlock * TaskList :=
  let tl : TaskList := [] in
  let pmb :=
    if stage =? 1 then
      let pmb := real_containers_Add pmb "dUdt" in
      for_range {| s := 1; e := nstages drv - 1 |}
        (fun i pmb => real_containers_Add pmb (stage_name drv i)) pmb
    else pmb in
  let sc0 := stage_name drv (stage - 1) in
  let dudt := "dUdt" in
  let sc1 := stage_name drv stage in
  let '(tl, start_recv) := AddContainerTask tl StartReceivingTask none sc1 in
  let '(tl, calculate_flux) := AddContainerTask tl CalculateFluxes start_recv sc0 in
  let '(tl, send_flux) := AddContainerTask tl SendFluxCorrectionTask calculate_flux sc0 in
  let '(tl, recv_flux) := AddContainerTask tl ReceiveFluxCorrectionTask calculate_flux sc0 in
  let '(tl, flux_divergence) := AddTwoContainerTask tl FluxDivergence recv_flux sc0 dudt in
  let '(tl, source_term) := AddTwoContainerTask tl SourceTerm flux_divergence sc0 dudt in
  let '(tl, update_container) := AddUpdateTask tl stage UpdateContainer source_term in
  let '(tl, send) := AddContainerTask tl SendBoundaryBuffersTask update_container sc1 in
  let '(tl, recv) := AddContainerTask tl ReceiveBoundaryBuffersTask send sc1 in
  let '(tl, fill_from_bufs) := AddContainerTask tl SetBoundariesTask recv sc1 in
  let '(tl, clear_comm_flags) := AddContainerTask tl ClearBoundaryTask fill_from_bufs sc1 in
  let '(tl, prolong_bound) := AddBlockTask tl ProlongBound fill_from_bufs in
  let '(tl, set_parthenon_bc) := AddContainerTask tl ApplyBoundaryConditions prolong_bound sc1 in
  let '(tl, set_custom_bc) := AddContainerTask tl ApplyCustomBoundaries set_parthenon_bc sc1 in
  let '(tl, fill_derived) := AddContainerTask tl FillDerived set_custom_bc sc1 in
  let tl :=
    if stage =? nstages drv then
      let '(tl, new_dt) := AddContainerTask tl NewDt set_custom_bc sc1 in
      if adaptive drv then
        let '(tl, tag_refine) := AddBlockTask tl TagRefine set_custom_bc in tl
      else tl
    else tl in
  (pmb, tl).

(** Whether a task list holds a task that runs [f]. *)
Definition has_task (f : TaskFn) (tl : TaskList) : Prop :=
  exists t, In t tl /\ task_fn t = f.

(** *** ProcessPackages *)

Section ProcessPackages.

(** The conversions of Parthenon's [ParameterInput] between text and
    booleans, the type of a package, and [GRMHD::Initialize], which is not
    among the sources: it receives the input file, may add to it, and
    returns the package. *)
Variable parse_bool : string -> bool.
Variable show_bool : bool -> string.
Variable Package : Type.
Variable GRMHD_Initialize :
  gmap (string * string) string -> gmap (string * string) string * Package.

Definition GetOrAddBoolean (pin : gmap (string * string) string)
    (block name : string) (def : bool) : gmap (string * string) string * bool :=
  match pin !! (block, name) with
  | Some v => (pin, parse_bool v)
  | None => (<[(block, name) := show_bool def]> pin, def)
  end.

Definition ProcessPackages (pin : gmap (string * string) string)
    : gmap (string * string) string * gmap string Package :=
  let packages : gmap string Package := ∅ in
  let '(pin, do_hydro) := GetOrAddBoolean pin "Physics" "GRMHD" true in
  let '(pin, do_electrons) := GetOrAddBoolean pin "Physics" "howes_electrons" false in
  let '(pin, do_scalars) := GetOrAddBoolean pin "Physics" "scalars" false in
  if do_hydro then
    let '(pin, pkg) := GRMHD_Initialize pin in
    (pin, <["GRMHD" := pkg]> packages)
  else (pin, packages).

End ProcessPackages.

End HARM.

(** ** prob/rest_conserve.cpp *)

Module Rest.
Section Rest.
Context {RA : RealArith}.

(** Parthenon's [ParameterInput] keeps every value as text under a block
    and a name; the conversions between text and values are its own and
    are parameters here. *)
Variable parse_real : string -> Real.
Variable parse_bool : string -> bool.
Variable show_real : Real -> string.
Variable show_bool : bool -> string.

(** [pow] of the C library, whichever overload of [abs] the call in
    [InitializeRest] resolves to, and the default arguments that
    rest_conserve.hpp declares for [SetRest] (the header is not among the
    sources). *)
Variable pow : Real -> Real -> Real.
Variable abs : Real -> Real.
Variable SetRest_default_domain : IndexDomain.
Variable SetRest_default_coarse : bool.

Abbreviation ParameterInput := (gmap (string * string) string).

(** A package's parameter table holds typed values under names. *)
Inductive ParamValue :=
  | PReal (r : Real)
  | PBool (b : bool)
  | PInt (n : Z).

Abbreviation Params := (gmap string ParamValue).

(** What [InitializeRest] and [SetRest] work on: the input file, the
    block's packages with their parameter tables, and the block's
    fields. *)
Record State := {
  pin : ParameterInput;
  packages : gmap string Params;
  rc : MeshBlockData
}.

Definition set_pin (st : State) (p : ParameterInput) : State :=
  {| pin := p; packages := packages st; rc := rc st |}.
Definition set_packages (st : State) (p : gmap string Params) : State :=
  {| pin := pin st; packages := p; rc := rc st |}.
Definition set_rc (st : State) (r : MeshBlockData) : State :=
  {| pin := pin st; packages := packages st; rc := r |}.

(** A computation changes the state and either returns a value or throws
    ([None]); what it changed before it threw stays changed. *)
Definition M (A : Type) : Type := State -> State * option A.

Definition ret {A : Type} (a : A) : M A := fun st => (st, Some a).
Definition throw {A : Type} : M A := fun st => (st, None).
Definition bind {A B : Type} (m : M A) (k : A -> M B) : M B :=
  fun st => match m st with
            | (st', Some a) => k a st'
            | (st', None) => (st', None)
            end.

Notation "x <- m ;; k" := (bind m (fun x => k))
  (at level 100, m at next level, right associativity).
Notation "m ;;; k" := (bind m (fun _ => k))
  (at level 100, right associativity).

(** *** ParameterInput *)

Definition GetOrAddReal (block name : string) (def : Real) : M Real :=
  fun st => match pin st !! (block, name) with
            | Some v => (st, Some (parse_real v))
            | None => (set_pin st (<[(block, name) := show_real def]> (pin st)), Some def)
            end.

Definition GetOrAddBoolean (block name : string) (def : bool) : M bool :=
  fun st => match pin st !! (block, name) with
            | Some v => (st, Some (parse_bool v))
            | None => (set_pin st (<[(block, name) := show_bool def]> (pin st)), Some def)
            end.

Definition DoesParameterExist (block name : string) : M bool :=
  fun st => (st, Some (bool_decide (is_Some (pin st !! (block, name))))).

Definition GetReal (block name : string) : M Real :=
  fun st => match pin st !! (block, name) with
            | Some v => (st, Some (parse_real v))
            | None => (st, None)
            end.

Definition SetReal (block name : string) (x : Real) : M unit :=
  fun st => (set_pin st (<[(block, name) := show_real x]> (pin st)), Some ()).

(** *** Packages and their parameter tables *)

(** [pmb->packages.AllPackages().count(pkg)] *)
Definition has_package (pkg : string) : M bool :=
  fun st => (st, Some (bool_decide (is_Some (packages st !! pkg)))).

(** [pmb->packages.Get(pkg)->AllParams()]: throws when there is no such
    package. *)
Definition AllParams (pkg : string) : M Params :=
  fun st => (st, packages st !! pkg).

Definition hasKey (pkg key : string) : M bool :=
  p <- AllParams pkg ;; ret (bool_decide (is_Some (p !! key))).

(** [Params::Add] throws when the key is there already. *)
Definition Add (pkg key : string) (v : ParamValue) : M unit :=
  p <- AllParams pkg ;;
  match p !! key with
  | Some _ => throw
  | None => fun st => (set_packages st (<[pkg := <[key := v]> p]> (packages st)), Some ())
  end.

(** [Param<Real>(key)] and [Param<bool>(key)] throw when the key is
    missing or holds a value of another type. *)
Definition Param_Real (pkg key : string) : M Real :=
  p <- AllParams pkg ;;
  match p !! key with
  | Some (PReal r) => ret r
  | _ => throw
  end.

Definition Param_bool (pkg key : string) : M bool :=
  p <- AllParams pkg ;;
  match p !! key with
  | Some (PBool b) => ret b
  | _ => throw
  end.

(** [if (!g_params.hasKey(key)) g_params.Add(key, v);] *)
Definition Add_if_absent (pkg key : string) (v : ParamValue) : M unit :=
  has <- hasKey pkg key ;;
  if negb has then Add pkg key v else ret ().

Definition modify_rc (f : MeshBlockData -> MeshBlockData) : M unit :=
  fun st => (set_rc st (f (rc st)), Some ()).

Definition get_rc : M MeshBlockData := fun st => (st, Some (rc st)).

(** *** SetRest *)

Definition SetRest (domain : IndexDomain) (coarse : bool) : M TaskStatus :=
  u0 <- Param_Real "GRMHD" "u0" ;;
  v0 <- Param_Real "GRMHD" "v0" ;;
  rho0 <- Param_Real "GRMHD" "rho0" ;;
  q <- Param_Real "GRMHD" "q" ;;
  context_boundaries <- Param_bool "GRMHD" "context_boundaries" ;;
  tt <- Param_Real "Globals" "time" ;;
  dt <- Param_Real "Globals" "dt_last" ;;
  pmb <- get_rc ;;
  let ib := GetBoundsI (cellbounds pmb) domain in
  let jb := GetBoundsJ (cellbounds pmb) domain in
  let kb := GetBoundsK (cellbounds pmb) domain in
  modify_rc (par_for_3D kb jb ib (fun k j i rc =>
    let rc := data_set rc "prims.rho" 0 k j i rho0 in
    let rc := data_set rc "prims.u" 0 k j i u0 in
    let rc := data_set rc "prims.uvec" 0 k j i v0 in
    let rc := data_set rc "prims.uvec" 1 k j i r0 in
    data_set rc "prims.uvec" 2 k j i r0)) ;;;
  electrons <- has_package "Electrons" ;;
  (if electrons then
     game <- Param_Real "Electrons" "gamma_e" ;;
     ke0 <- Param_Real "GRMHD" "ke0" ;;
     modify_rc (par_for_3D kb jb ib (fun k j i rc =>
       let rc := data_set rc "prims.Ktot" 0 k j i ke0 in
       data_set rc "prims.Kel_Constant" 0 k j i ke0))
   else ret ()) ;;;
  ret complete.

(** *** InitializeRest *)

(** The time limit that [InitializeRest] writes, when it writes one: the
    division by [abs(q)] sits under the guard. *)
Definition tlim_override (set_tlim : bool) (q dyntimes u0 : Real) : option Real :=
  if set_tlim && rne q r0 && negb (rlt q r0 && rgt dyntimes r1)
  then Some (rdiv (rmul dyntimes u0) (abs q))
  else None.

Definition InitializeRest : M TaskStatus :=
  set_tlim <- GetOrAddBoolean "rest" "set_tlim" false ;;
  u0 <- GetOrAddReal "rest" "u0" r1 ;;
  rho0 <- GetOrAddReal "rest" "rho0" r1 ;;
  v0 <- GetOrAddReal "rest" "v0" r1 ;;
  has_q <- DoesParameterExist "rest" "q" ;;
  q <- (if has_q then GetReal "rest" "q" else ret r0) ;;
  context_boundaries <- GetOrAddBoolean "rest" "context_boundaries" false ;;
  dyntimes <- GetOrAddReal "rest" "dyntimes" rhalf ;;
  AllParams "GRMHD" ;;;
  Add_if_absent "GRMHD" "rho0" (PReal rho0) ;;;
  Add_if_absent "GRMHD" "v0" (PReal v0) ;;;
  Add_if_absent "GRMHD" "u0" (PReal u0) ;;;
  Add_if_absent "GRMHD" "q" (PReal q) ;;;
  Add_if_absent "GRMHD" "context_boundaries" (PBool context_boundaries) ;;;
  electrons <- has_package "Electrons" ;;
  (if electrons then
     fel0 <- Param_Real "Electrons" "fel_0" ;;
     game <- Param_Real "Electrons" "gamma_e" ;;
     Add_if_absent "GRMHD" "ke0"
       (PReal (rmul (rmul (rmul (rsub game r1) fel0) u0) (pow rho0 (rneg game))))
   else ret ()) ;;;
  match tlim_override set_tlim q dyntimes u0 with
  | Some tlim => SetReal "parthenon/time" "tlim" tlim
  | None => ret ()
  end ;;;
  SetRest SetRest_default_domain SetRest_default_coarse ;;;
  ret complete.

(** *** What the statements about InitializeRest are written with *)

(** The value and the input file that a [GetOrAdd] leaves. *)
Definition pin_real (p : ParameterInput) (block name : string) (def : Real) : Real :=
  match p !! (block, name) with Some v => parse_real v | None => def end.
Definition pin_bool (p : ParameterInput) (block name : string) (def : bool) : bool :=
  match p !! (block, name) with Some v => parse_bool v | None => def end.
Definition pin_add (p : ParameterInput) (block name : string) (v : string) : ParameterInput :=
  match p !! (block, name) with Some _ => p | None => <[(block, name) := v]> p end.

(** The heating exponent that [InitializeRest] works with: the parameter
    rest/q when the input file has it, and 0 otherwise. *)
Definition rest_q (p : ParameterInput) : Real :=
  match p !! ("rest", "q") with Some v => parse_real v | None => r0 end.

(** The value that [InitializeRest] offers for each of the five keys. *)
Definition rest_default (p : ParameterInput) (key : string) : ParamValue :=
  if String.eqb key "rho0" then PReal (pin_real p "rest" "rho0" r1)
  else if String.eqb key "v0" then PReal (pin_real p "rest" "v0" r1)
  else if String.eqb key "u0" then PReal (pin_real p "rest" "u0" r1)
  else if String.eqb key "q" then PReal (rest_q p)
  else PBool (pin_bool p "rest" "context_boundaries" false).

Definition rest_keys : list string := ["rho0"; "v0"; "u0"; "q"; "context_boundaries"].

(** A parameter table after [if (!hasKey(key)) Add(key, v)]. *)
Definition params_add_if_absent (p : Params) (key : string) (v : ParamValue) : Params :=
  match p !! key with Some _ => p | None => <[key := v]> p end.

(** The input file after the seven [GetOrAdd] calls of [InitializeRest],
    and the table of GRMHD after its five guarded [Add] calls. *)
Definition pin_after_GetOrAdds (p : ParameterInput) : ParameterInput :=
  let p := pin_add p "rest" "set_tlim" (show_bool false) in
  let p := pin_add p "rest" "u0" (show_real r1) in
  let p := pin_add p "rest" "rho0" (show_real r1) in
  let p := pin_add p "rest" "v0" (show_real r1) in
  let p := pin_add p "rest" "context_boundaries" (show_bool false) in
  pin_add p "rest" "dyntimes" (show_real rhalf).

(** What the six [GetOrAdd] calls of [InitializeRest] write under a key
    that the input file lacks. *)
Definition rest_file_default (key : string * string) : option string :=
  if decide (key = ("rest", "set_tlim")) then Some (show_bool false)
  else if decide (key = ("rest", "u0")) then Some (show_real r1)
  else if decide (key = ("rest", "rho0")) then Some (show_real r1)
  else if decide (key = ("rest", "v0")) then Some (show_real r1)
  else if decide (key = ("rest", "context_boundaries")) then Some (show_bool false)
  else if decide (key = ("rest", "dyntimes")) then Some (show_real rhalf)
  else None.

Definition params_after_Adds (p : ParameterInput) (gp : Params) : Params :=
  let gp := params_add_if_absent gp "rho0" (rest_default p "rho0") in
  let gp := params_add_if_absent gp "v0" (rest_default p "v0") in
  let gp := params_add_if_absent gp "u0" (rest_default p "u0") in
  let gp := params_add_if_absent gp "q" (rest_default p "q") in
  params_add_if_absent gp "context_boundaries" (rest_default p "context_boundaries").

Definition real_or_absent (o : option ParamValue) : bool :=
  match o with None | Some (PReal _) => true | _ => false end.
Definition bool_or_absent (o : option ParamValue) : bool :=
  match o with None | Some (PBool _) => true | _ => false end.
Definition is_real (o : option ParamValue) : bool :=
  match o with Some (PReal _) => true | _ => false end.
Definition is_bool (o : option ParamValue) : bool :=
  match o with Some (PBool _) => true | _ => false end.

(** The packages as [InitializeRest] and [SetRest] need them in order not
    to throw: GRMHD is there, and what it already holds under the keys
    that are read back as reals or as a boolean has that type; Globals is
    there with the reals time and dt_last; and Electrons, when it is
    there, has the reals fel_0 and gamma_e. *)
Definition rest_env_ok (st : State) : Prop :=
  exists gp glob,
    packages st !! "GRMHD" = Some gp /\
    packages st !! "Globals" = Some glob /\
    real_or_absent (gp !! "rho0") = true /\
    real_or_absent (gp !! "v0") = true /\
    real_or_absent (gp !! "u0") = true /\
    real_or_absent (gp !! "q") = true /\
    bool_or_absent (gp !! "context_boundaries") = true /\
    is_real (glob !! "time") = true /\
    is_real (glob !! "dt_last") = true /\
    (packages st !! "Electrons" = None \/
     exists ep, packages st !! "Electrons" = Some ep /\
                is_real (ep !! "fel_0") = true /\
                is_real (ep !! "gamma_e") = true /\
                real_or_absent (gp !! "ke0") = true).

(** The real under a key of a parameter table (0 when there is none). *)
Definition param_real (o : option ParamValue) : Real :=
  match o with Some (PReal r) => r | _ => r0 end.

(** The two loops of [SetRest], with the values that it has read. *)
Definition SetRest_fluid (rho0 u0 v0 : Real) (kb jb ib : IndexRange)
    : MeshBlockData -> MeshBlockData :=
  par_for_3D kb jb ib (fun k j i rc =>
    let rc := data_set rc "prims.rho" 0 k j i rho0 in
    let rc := data_set rc "prims.u" 0 k j i u0 in
    let rc := data_set rc "prims.uvec" 0 k j i v0 in
    let rc := data_set rc "prims.uvec" 1 k j i r0 in
    data_set rc "prims.uvec" 2 k j i r0).

Definition SetRest_electrons (ke0 : Real) (kb jb ib : IndexRange)
    : MeshBlockData -> MeshBlockData :=
  par_for_3D kb jb ib (fun k j i rc =>
    let rc := data_set rc "prims.Ktot" 0 k j i ke0 in
    data_set rc "prims.Kel_Constant" 0 k j i ke0).

(** The fields that [SetRest] leaves when no lookup throws: [gp] is the
    table of GRMHD and [electrons] tells whether there is a package
    Electrons. *)
Definition SetRest_fields (gp : Params) (electrons : bool) (domain : IndexDomain)
    (rc : MeshBlockData) : MeshBlockData :=
  let ib := GetBoundsI (cellbounds rc) domain in
  let jb := GetBoundsJ (cellbounds rc) domain in
  let kb := GetBoundsK (cellbounds rc) domain in
  let rc1 := SetRest_fluid (param_real (gp !! "rho0")) (param_real (gp !! "u0"))
               (param_real (gp !! "v0")) kb jb ib rc in
  if electrons then SetRest_electrons (param_real (gp !! "ke0")) kb jb ib rc1 else rc1.

(** Whether the seven parameters that [SetRest] reads first are there with
    their types. *)
Definition SetRest_reads_ok (st : State) : bool :=
  match packages st !! "GRMHD", packages st !! "Globals" with
  | Some gp, Some glob =>
      is_real (gp !! "u0") && is_real (gp !! "v0") && is_real (gp !! "rho0") &&
      is_real (gp !! "q") && is_bool (gp !! "context_boundaries") &&
      is_real (glob !! "time") && is_real (glob !! "dt_last")
  | _, _ => false
  end.

(** Whether the two parameters that [SetRest] reads for the electrons are
    there with their types, when there is a package Electrons. *)
Definition SetRest_electrons_ok (st : State) : bool :=
  match packages st !! "Electrons" with
  | None => true
  | Some ep =>
      is_real (ep !! "gamma_e") &&
      match packages st !! "GRMHD" with
      | Some gp => is_real (gp !! "ke0")
      | None => false
      end
  end.

(** The initial thermal constant of the electrons that [InitializeRest]
    offers for ke0, from the parameters of the package Electrons and the
    input file. *)
Definition rest_ke0 (p : ParameterInput) (ep : Params) : Real :=
  let fel0 := param_real (ep !! "fel_0") in
  let game := param_real (ep !! "gamma_e") in
  rmul (rmul (rmul (rsub game r1) fel0) (pin_real p "rest" "u0" r1))
       (pow (pin_real p "rest" "rho0" r1) (rneg game)).

(** The table of GRMHD and the input file when [InitializeRest] calls
    [SetRest]. *)
Definition rest_final_params (p : ParameterInput) (pk : gmap string Params) (gp : Params)
    : Params :=
  match pk !! "Electrons" with
  | Some ep => params_add_if_absent (params_after_Adds p gp) "ke0" (PReal (rest_ke0 p ep))
  | None => params_after_Adds p gp
  end.

Definition rest_tlim (p : ParameterInput) : option Real :=
  tlim_override (pin_bool p "rest" "set_tlim" false) (rest_q p)
    (pin_real p "rest" "dyntimes" rhalf) (pin_real p "rest" "u0" r1).

Definition rest_final_pin (p : ParameterInput) : ParameterInput :=
  match rest_tlim p with
  | Some x => <[("parthenon/time", "tlim") := show_real x]> (pin_after_GetOrAdds p)
  | None => pin_after_GetOrAdds p
  end.

(** [wp m Q st]: running [m] from [st] ends in a state and an outcome that
    satisfy [Q]. *)
Definition wp {A : Type} (m : M A) (Q : State -> option A -> Prop) (st : State) : Prop :=
  Q (m st).1 (m st).2.

End Rest.
End Rest.

(** ** Concrete runs in binary64 *)

Module Runs.
Import B_CD.

#[local] Existing Instance kharma_decs.

(** A flat geometry: inverse metric diag(-1, 1, 1, 1), a constant
    determinant [g], and cell widths given per axis. *)
Definition flat_coords (g : float) (d1 d2 d3 : Z -> float) : @Coords binary64 :=
  {| gcon := fun _ _ _ mu nu =>
       if mu =? nu then (if mu =? 0 then (-1)%float else 1%float) else 0%float;
     gdet := fun _ _ _ => g;
     dx1v := d1; dx2v := d2; dx3v := d3 |}.

Definition unit_width : Z -> float := fun _ => 1%float.

(** A block or mesh whose index ranges are the same for every domain. *)
Definition shape (ib jb kb : IndexRange) : IndexShape :=
  {| GetBoundsI := fun _ => ib; GetBoundsJ := fun _ => jb; GetBoundsK := fun _ => kb |}.

Definition block (nd : Z) (G : @Coords binary64) (sh : IndexShape)
    (dat : string -> Z -> Z -> Z -> Z -> float)
    (flx : string -> Z -> Z -> Z -> Z -> Z -> float) : @MeshBlockData binary64 :=
  {| mb_ndim := nd; coords := G; cellbounds := sh; c_cellbounds := sh;
     data := dat; flux := flx |}.

Definition mesh1 (nd : Z) (lambda : float) (rc : @MeshBlockData binary64) : @MeshData binary64 :=
  {| ndim := nd; nblocks := 1; damping := lambda; blocks := fun _ => rc |}.

Definition one_cell : IndexShape := shape {| s := 0; e := 0 |} {| s := 0; e := 0 |} {| s := 0; e := 0 |}.

Definition zero_data : string -> Z -> Z -> Z -> Z -> float := fun _ _ _ _ _ => 0%float.
Definition zero_flux : string -> Z -> Z -> Z -> Z -> Z -> float := fun _ _ _ _ _ _ => 0%float.

(** The state of the run for C2: one interior cell in two dimensions,
    cons.B = (5, 0, 0) there, and a flux of psi along axis 1 that is 0 on
    the left face and 2 on the right face. *)
Definition c2_md : @MeshData binary64 :=
  mesh1 2 0%float
    (block 2 (flat_coords 1 unit_width unit_width unit_width) one_cell
       (fun n v k j i => if String.eqb n "cons.B" && (v =? 0) then 5%float else 0%float)
       (fun n dir v k j i =>
          if String.eqb n "cons.psi_cd" && (dir =? 1) && (i =? 1) then 2%float else 0%float)).

Definition c2_mdudt : @MeshData binary64 :=
  mesh1 2 0%float
    (block 2 (flat_coords 1 unit_width unit_width unit_width) one_cell zero_data zero_flux).


(** The block of the run for C3: one cell of a one-dimensional mesh with
    cons.B = (2, 0, 0), cons.psi_cd = 4 and all primitives 0. *)
Definition c3_rc : @MeshBlockData binary64 :=
  block 1 (flat_coords 1 unit_width unit_width unit_width) one_cell
    (fun n v k j i =>
       if String.eqb n "cons.B" && (v =? 0) then 2%float
       else if String.eqb n "cons.psi_cd" then 4%float else 0%float)
    zero_flux.

(** The run for C5: the primitive value 0.1 (the binary64 number nearest to
    it), the determinant 3, and the conserved state built as their
    product. *)
Definition c5_P : float := 0x1.999999999999ap-4%float.
Definition c5_gdet : float := 3%float.

Definition c5_rc : @MeshBlockData binary64 :=
  block 2 (flat_coords c5_gdet unit_width unit_width unit_width) one_cell
    (fun n v k j i =>
       if String.eqb n "cons.B" || String.eqb n "cons.psi_cd"
       then PrimFloat.mul c5_P c5_gdet else 0%float)
    zero_flux.

(** The same state over the reals. *)
Definition c5_coordsR : @Coords exactR :=
  @Build_Coords exactR (fun _ _ _ _ _ => 0%R) (fun _ _ _ => 3%R)
    (fun _ => 1%R) (fun _ => 1%R) (fun _ => 1%R).

Definition c5_rcR : @MeshBlockData exactR :=
  @Build_MeshBlockData exactR 2 c5_coordsR one_cell one_cell
    (fun n v k j i => (1 / 10 * 3)%R) (fun _ _ _ _ _ _ => 0%R).


Definition c3_md : @MeshData binary64 := mesh1 1 0%float c3_rc.

(** The run for C1: two dimensions, 2 x 2 interior cells of width 3 along
    axis 1, and a flux of B along axis 1 that grows by k * 3 from face to
    face, with k the binary64 number nearest to 0.1; no flux along
    axis 2. *)
Definition two_by_two : IndexShape :=
  shape {| s := 0; e := 1 |} {| s := 0; e := 1 |} {| s := 0; e := 0 |}.

Definition c1_k : float := 0x1.999999999999ap-4%float.
Definition c1_step : float := PrimFloat.mul c1_k 3%float.

Definition c1_md : @MeshData binary64 :=
  mesh1 2 0%float
    (block 2 (flat_coords 1 (fun _ => 3%float) unit_width unit_width) two_by_two zero_data
       (fun n dir v k j i =>
          if String.eqb n "cons.B" && (dir =? 1) then
            (if i =? 1 then c1_step
             else if i =? 2 then PrimFloat.add c1_step c1_step else 0%float)
          else 0%float)).

(** The same flux field over the reals. *)
Definition c1_mdR : @MeshData exactR :=
  @Build_MeshData exactR 2 1 0%R
    (fun _ => @Build_MeshBlockData exactR 2
       (@Build_Coords exactR (fun _ _ _ _ _ => 0%R) (fun _ _ _ => 1%R)
          (fun _ => 3%R) (fun _ => 1%R) (fun _ => 1%R))
       two_by_two two_by_two (fun _ _ _ _ _ => 0%R)
       (fun n dir v k j i =>
          if String.eqb n "cons.B" && (dir =? 1) && (i =? 1) then (1 / 10 * 3)%R else 0%R)).


(** The run for C10: two dimensions, 3 x 2 interior cells of unit width,
    and a flux of B along axis 1 equal to 0, -5, -6 on the faces 0, 1, 2:
    the two cells that MaxDivB visits have the estimates -5 and -1. *)
Definition three_by_two : IndexShape :=
  shape {| s := 0; e := 2 |} {| s := 0; e := 1 |} {| s := 0; e := 0 |}.

Definition c10_md : @MeshData binary64 :=
  mesh1 2 0%float
    (block 2 (flat_coords 1 unit_width unit_width unit_width) three_by_two zero_data
       (fun n dir v k j i =>
          if String.eqb n "cons.B" && (dir =? 1) then
            (if i =? 1 then (-5)%float else if i =? 2 then (-6)%float else 0%float)
          else 0%float)).


(** A run in which no estimate exceeds the seed of the reduction: two
    dimensions, 2 x 2 interior cells of unit width, so that MaxDivB visits
    the one cell (0, 0, 0), and a flux of B along axis 1 equal to DBL_MAX
    on the face 0 and to -DBL_MAX on the face 1: the flux difference
    overflows, and the estimate of that cell is minus infinity. *)
Definition c4_md : @MeshData binary64 :=
  mesh1 2 0%float
    (block 2 (flat_coords 1 unit_width unit_width unit_width) two_by_two zero_data
       (fun n dir v k j i =>
          if String.eqb n "cons.B" && (dir =? 1) then
            (if i =? 0 then DBL_MAX else if i =? 1 then PrimFloat.opp DBL_MAX else 0%float)
          else 0%float)).

(** The run for C6: two dimensions, 2 x 1 interior cells; the cells are 1
    wide along axis 1, and along axis 2 the width at index 0 is 1 and the
    width at index 1 is 2; the inverse metric is flat except that its
    time-time component is -1/4 on the axis-2 faces of row 1, so that the
    lapse there is 2; cons.B = (0, 1, 0), psi = 0 and every flux is 0. *)
Definition two_by_one : IndexShape :=
  shape {| s := 0; e := 1 |} {| s := 0; e := 0 |} {| s := 0; e := 0 |}.

Definition c6_coords : @Coords binary64 :=
  {| gcon := fun loc j i mu nu =>
       if (mu =? 0) && (nu =? 0) then
         match loc with
         | face2 => if j =? 1 then (-0.25)%float else (-1)%float
         | _ => (-1)%float
         end
       else if mu =? nu then 1%float else 0%float;
     gdet := fun _ _ _ => 1%float;
     dx1v := unit_width;
     dx2v := fun n => if n =? 1 then 2%float else 1%float;
     dx3v := unit_width |}.

Definition c6_md : @MeshData binary64 :=
  mesh1 2 0%float
    (block 2 c6_coords two_by_one
       (fun n v k j i => if String.eqb n "cons.B" && (v =? 1) then 1%float else 0%float)
       zero_flux).

Definition c6_mdudt : @MeshData binary64 :=
  mesh1 2 0%float (block 2 c6_coords two_by_one zero_data zero_flux).

(** A second run for C6, on a uniform grid: the state of the run for C2,
    with the time-time component of the inverse metric equal to -1/4 on
    the axis-1 face of index 1, so that the lapse grows from 1 to 2 across
    the cell. *)
Definition c6b_coords : @Coords binary64 :=
  {| gcon := fun loc j i mu nu =>
       if (mu =? 0) && (nu =? 0) then
         match loc with
         | face1 => if i =? 1 then (-0.25)%float else (-1)%float
         | _ => (-1)%float
         end
       else if mu =? nu then 1%float else 0%float;
     gdet := fun _ _ _ => 1%float;
     dx1v := unit_width; dx2v := unit_width; dx3v := unit_width |}.

Definition c6b_md : @MeshData binary64 :=
  mesh1 2 0%float
    (block 2 c6b_coords one_cell
       (fun n v k j i => if String.eqb n "cons.B" && (v =? 0) then 5%float else 0%float)
       (fun n dir v k j i =>
          if String.eqb n "cons.psi_cd" && (dir =? 1) && (i =? 1) then 2%float else 0%float)).

Definition c6b_mdudt : @MeshData binary64 :=
  mesh1 2 0%float (block 2 c6b_coords one_cell zero_data zero_flux).


(** The run for C8 and C9.  The input file asks for a time limit
    (rest/set_tlim) and gives no heating exponent; the package GRMHD
    already holds rho0 = 2; Globals holds time and dt_last; there is no
    package Electrons.  The conversions between text and values stand in
    for Parthenon's: the only text that the run converts is the word
    true. *)
Definition run_parse_real : string -> float := fun _ => 1%float.
Definition run_parse_bool : string -> bool := String.eqb "true".
Definition run_show_real : float -> string := fun _ => "real".
Definition run_show_bool : bool -> string := fun b => if b then "true" else "false".
Definition run_pow : float -> float -> float := fun x _ => x.

Definition c8_gp : gmap string (@Rest.ParamValue binary64) :=
  {[ "rho0" := Rest.PReal 2%float ]}.

Definition c8_globals : gmap string (@Rest.ParamValue binary64) :=
  {[ "time" := Rest.PReal 0%float; "dt_last" := Rest.PReal 0%float ]}.

Definition c8_st : @Rest.State binary64 :=
  {| Rest.pin := {[ ("rest", "set_tlim") := "true" ]};
     Rest.packages := {[ "GRMHD" := c8_gp; "Globals" := c8_globals ]};
     Rest.rc := c3_rc |}.

(** States for runs of [SetRest]: a block of two by two interior cells,
    a table of GRMHD that holds what [SetRest] reads, and a package
    Electrons; then the same without the heating exponent q, and the same
    without ke0. *)
Definition rest_gp : gmap string (@Rest.ParamValue binary64) :=
  {[ "u0" := Rest.PReal 3%float; "v0" := Rest.PReal 5%float;
     "rho0" := Rest.PReal 2%float; "q" := Rest.PReal 0%float;
     "context_boundaries" := Rest.PBool false; "ke0" := Rest.PReal 7%float ]}.

Definition rest_ep : gmap string (@Rest.ParamValue binary64) :=
  {[ "gamma_e" := Rest.PReal 2%float; "fel_0" := Rest.PReal 4%float ]}.

Definition rest_rc : @MeshBlockData binary64 :=
  block 2 (flat_coords 1 unit_width unit_width unit_width) two_by_two zero_data zero_flux.

Definition rest_st : @Rest.State binary64 :=
  {| Rest.pin := ∅;
     Rest.packages := {[ "GRMHD" := rest_gp; "Globals" := c8_globals; "Electrons" := rest_ep ]};
     Rest.rc := rest_rc |}.

Definition rest_st_no_q : @Rest.State binary64 :=
  {| Rest.pin := ∅;
     Rest.packages := {[ "GRMHD" := delete "q" rest_gp; "Globals" := c8_globals ]};
     Rest.rc := rest_rc |}.

Definition rest_st_no_ke0 : @Rest.State binary64 :=
  {| Rest.pin := ∅;
     Rest.packages := {[ "GRMHD" := delete "ke0" rest_gp; "Globals" := c8_globals;
                         "Electrons" := rest_ep ]};
     Rest.rc := rest_rc |}.

(** A state for a run of [InitializeRest] with electrons and a time
    limit: the input file asks for the limit and gives q = 1 (every real
    of the file reads as 1 in these runs). *)
Definition init_st : @Rest.State binary64 :=
  {| Rest.pin := {[ ("rest", "set_tlim") := "true"; ("rest", "q") := "1" ]};
     Rest.packages := {[ "GRMHD" := c8_gp; "Globals" := c8_globals; "Electrons" := rest_ep ]};
     Rest.rc := rest_rc |}.

Definition run_InitializeRest : @Rest.M binary64 TaskStatus :=
  Rest.InitializeRest run_parse_real run_parse_bool run_show_real run_show_bool
    run_pow PrimFloat.abs interior false.

End Runs.

(** ** Predicates used in the statements *)

Section Predicates.
Context {RA : RealArith} {D : Decs}.
Implicit Types (rc : MeshBlockData) (md : MeshData).

(** What [UtoP] never touches: the geometry, the bounds, the fluxes, and
    every field other than prims.B and prims.psi_cd. *)
Definition UtoP_frame rc0 rc : Prop :=
  mb_ndim rc = mb_ndim rc0 /\ coords rc = coords rc0 /\
  cellbounds rc = cellbounds rc0 /\ c_cellbounds rc = c_cellbounds rc0 /\
  flux rc = flux rc0 /\
  forall name v k j i, name <> "prims.B" -> name <> "prims.psi_cd" ->
    data rc name v k j i = data rc0 name v k j i.

(** The cell (k, j, i) holds the recovered primitives of the state [rc0]. *)
Definition recovered rc0 (k j i : Z) rc : Prop :=
  (forall v, 0 <= v < NVEC ->
     data rc "prims.B" v k j i
     = rdiv (data rc0 "cons.B" v k j i) (gdet (coords rc0) center j i)) /\
  data rc "prims.psi_cd" 0 k j i
  = rdiv (data rc0 "cons.psi_cd" 0 k j i) (gdet (coords rc0) center j i).

(** The bounds that [UtoP] loops over. *)
Definition UtoP_bounds rc (coarse : bool) : IndexShape :=
  if coarse then c_cellbounds rc else cellbounds rc.

Definition in_domain (sh : IndexShape) (domain : IndexDomain) (k j i : Z) : Prop :=
  s (GetBoundsK sh domain) <= k <= e (GetBoundsK sh domain) /\
  s (GetBoundsJ sh domain) <= j <= e (GetBoundsJ sh domain) /\
  s (GetBoundsI sh domain) <= i <= e (GetBoundsI sh domain).

(** The divergence estimate in the words of the specification: the sum,
    over the active axes 1..ndim, of the flux at the right face minus the
    flux at the left face, divided by the local grid spacing along that
    axis.  The face flux along axis [a] is that of the component [a] of B. *)
Definition flux_difference md (b a k j i : Z) : Real :=
  let F := pack_flux md "cons.B" b in
  if a =? 1 then rsub (F 1 V1 k j (i + 1)) (F 1 V1 k j i)
  else if a =? 2 then rsub (F 2 V2 k (j + 1) i) (F 2 V2 k j i)
  else rsub (F 3 V3 (k + 1) j i) (F 3 V3 k j i).

Definition spacing md (b a k j i : Z) : Real :=
  let G := coords (blocks md b) in
  if a =? 1 then dx1v G i else if a =? 2 then dx2v G j else dx3v G k.

Definition sum_terms (l : list Real) : Real :=
  match l with
  | [] => r0
  | t :: ts => fold_left radd ts t
  end.

Definition spec_divergence md (b k j i : Z) : Real :=
  sum_terms (map (fun a => rdiv (flux_difference md b a k j i) (spacing md b a k j i))
                 (seqZ 1 (ndim md))).

(** The cells that MaxDivB takes the maximum over: every block of the
    mesh data and every interior cell, without the last layer along axis 1
    and along axis 2, and without the last layer along axis 3 when there
    are more than 2 dimensions. *)
Definition MaxDivB_included md (b k j i : Z) : Prop :=
  let ib := md_GetBoundsI md interior in
  let jb := md_GetBoundsJ md interior in
  let kb := md_GetBoundsK md interior in
  0 <= b <= nblocks md - 1 /\
  s kb <= k <= (if ndim md >? 2 then e kb - 1 else e kb) /\
  s jb <= j <= e jb - 1 /\
  s ib <= i <= e ib - 1.

(** What AddSource adds to the rate of change of psi at a cell, in the
    words of the specification: B component 1 times the axis-1 difference
    of the lapse quantity over the axis-1 spacing at the first-axis index,
    plus B component 2 times the axis-2 difference of the lapse quantity
    over the axis-2 spacing at the second-axis index, minus the damping
    rate times alpha times psi.  B and psi are those of the state [md]. *)
Definition lapse_quantity (G : Coords) (loc : Loci) (j i : Z) : Real :=
  rdiv (rdiv r1 (rsqrt (rneg (gcon G loc j i 0 0)))) (gdet G loc j i).

Definition spec_psi_source md (b k j i : Z) : Real :=
  let G := coords (blocks md b) in
  let alpha_c := rdiv r1 (rsqrt (rneg (gcon G center j i 0 0))) in
  rsub (radd (rmul (pack md "cons.B" b V1 k j i)
                   (rdiv (rsub (lapse_quantity G face1 j (i + 1)) (lapse_quantity G face1 j i))
                         (dx1v G i)))
             (rmul (pack md "cons.B" b V2 k j i)
                   (rdiv (rsub (lapse_quantity G face2 (j + 1) i) (lapse_quantity G face2 j i))
                         (dx2v G j))))
       (rmul (rmul alpha_c (damping md)) (pack md "cons.psi_cd" b 0 k j i)).

(** What AddSource may change: cons.B of the state and cons.psi_cd of the
    rate of change; the two packs agree everywhere else, fluxes
    included. *)
Definition AddSource_frame (st0 st : MeshData * MeshData) : Prop :=
  (forall name b v k j i, name <> "cons.B" ->
     pack st.1 name b v k j i = pack st0.1 name b v k j i) /\
  (forall name b dir v k j i,
     pack_flux st.1 name b dir v k j i = pack_flux st0.1 name b dir v k j i) /\
  (forall name b v k j i, name <> "cons.psi_cd" ->
     pack st.2 name b v k j i = pack st0.2 name b v k j i) /\
  (forall name b dir v k j i,
     pack_flux st.2 name b dir v k j i = pack_flux st0.2 name b dir v k j i).

(** The geometry and the fluxes of two mesh data are the same. *)
Definition same_mesh (md md' : MeshData) : Prop :=
  ndim md' = ndim md /\ nblocks md' = nblocks md /\ damping md' = damping md /\
  forall b, mb_ndim (blocks md' b) = mb_ndim (blocks md b) /\
            coords (blocks md' b) = coords (blocks md b) /\
            cellbounds (blocks md' b) = cellbounds (blocks md b) /\
            c_cellbounds (blocks md' b) = c_cellbounds (blocks md b) /\
            flux (blocks md' b) = flux (blocks md b).

(** The cells that the kernel of AddSource visits. *)
Definition AddSource_interior md (b k j i : Z) : Prop :=
  0 <= b <= nblocks md - 1 /\
  s (md_GetBoundsK md interior) <= k <= e (md_GetBoundsK md interior) /\
  s (md_GetBoundsJ md interior) <= j <= e (md_GetBoundsJ md interior) /\
  s (md_GetBoundsI md interior) <= i <= e (md_GetBoundsI md interior).

(** The value that the kernel of AddSource leaves in the component [v] of
    cons.B of the state at a cell, from the value [B_DU] that it finds
    there, and the two lapse differences of its psi source, as the source
    computes them. *)
Definition AddSource_B_step (md : MeshData) (b k j i v : Z) (B_DU : Real) : Real :=
  let nd := ndim md in
  let G := coords (blocks md b) in
  let psi_U_flux := pack_flux md "cons.psi_cd" b in
  let alpha_c := rdiv r1 (rsqrt (rneg (gcon G center j i 0 0))) in
  let B_DU :=
    radd B_DU
      (radd (rdiv (rmul (rmul alpha_c (gcon G center j i (v + 1) 1))
                        (rsub (psi_U_flux X1DIR 0 k j (i + 1)) (psi_U_flux X1DIR 0 k j i)))
                  (dx1v G i))
            (rdiv (rmul (rmul alpha_c (gcon G center j i (v + 1) 2))
                        (rsub (psi_U_flux X2DIR 0 k (j + 1) i) (psi_U_flux X2DIR 0 k j i)))
                  (dx2v G j))) in
  let B_DU :=
    if nd >? 2
    then radd B_DU
           (rdiv (rmul (rmul alpha_c (gcon G center j i (v + 1) 3))
                       (rsub (psi_U_flux X3DIR 0 (k + 1) j i) (psi_U_flux X3DIR 0 k j i)))
                 (dx3v G k))
    else B_DU in
  radd B_DU (rmul (rmul (rmul (gcon G center j i 0 (v + 1)) alpha_c) alpha_c)
                  (B_CD.AddSource_divB nd md b k j i)).

Definition AddSource_B_new (md : MeshData) (b v k j i : Z) : Real :=
  AddSource_B_step md b k j i v (pack md "cons.B" b v k j i).

Definition AddSource_dalpha1 (G : Coords) (j i : Z) : Real :=
  rdiv (rsub (rdiv (rdiv r1 (rsqrt (rneg (gcon G face1 j (i + 1) 0 0)))) (gdet G face1 j (i + 1)))
             (rdiv (rdiv r1 (rsqrt (rneg (gcon G face1 j i 0 0)))) (gdet G face1 j i)))
       (dx1v G i).

Definition AddSource_dalpha2 (G : Coords) (j i : Z) : Real :=
  rdiv (rsub (rdiv (rdiv r1 (rsqrt (rneg (gcon G face2 (j + 1) i 0 0)))) (gdet G face2 (j + 1) i))
             (rdiv (rdiv r1 (rsqrt (rneg (gcon G face2 j i 0 0)))) (gdet G face2 j i)))
       (dx2v G i).

(** The cells that FillOutput writes. *)
Definition FillOutput_included rc (k j i : Z) : Prop :=
  let ib := GetBoundsI (cellbounds rc) interior in
  let jb := GetBoundsJ (cellbounds rc) interior in
  let kb := GetBoundsK (cellbounds rc) interior in
  s kb <= k <= (if mb_ndim rc >? 2 then e kb - 1 else e kb) /\
  s jb <= j <= e jb - 1 /\
  s ib <= i <= e ib - 1.

(** The mesh data that hold the one block [rc]. *)
Definition mesh_of_block rc (lambda : Real) : MeshData :=
  {| ndim := mb_ndim rc; nblocks := 1; damping := lambda; blocks := fun _ => rc |}.

End Predicates.

(** The cells of a loop nest, in the order in which the nest visits them. *)
Definition cells3 (kb jb ib : IndexRange) : list (Z * Z * Z) :=
  k ← irange kb; j ← irange jb; i ← irange ib; [(k, j, i)].

Definition cells4 (bb kb jb ib : IndexRange) : list (Z * Z * Z * Z) :=
  b ← irange bb; c ← cells3 kb jb ib; [(b, c.1.1, c.1.2, c.2)].

(** * Properties *)

(** ** The order laws of the two arithmetics *)

Lemma SFltb_irrefl (a : spec_float) : SFltb a a = false.
Proof.
  unfold SFltb, SFcompare.
  destruct a as [[]|[]| |[] m e]; try reflexivity;
    rewrite Z.compare_refl, Pos.compare_cont_refl; reflexivity.
Qed.

Lemma Pos_cc_lt (m n : positive) :
  Pos.compare_cont Eq m n = Lt <-> (m < n)%positive.
Proof. reflexivity. Qed.

Lemma Pos_cc_gt (m n : positive) :
  Pos.compare_cont Eq m n = Gt <-> (n < m)%positive.
Proof. fold (Pos.compare m n). rewrite Pos.compare_gt_iff. reflexivity. Qed.

Lemma CompOpp_lt (c : comparison) : CompOpp c = Lt <-> c = Gt.
Proof. destruct c; simpl; split; congruence. Qed.

Lemma lexlt_trans e1 m1 e2 m2 e3 m3 :
  lexlt e1 m1 e2 m2 -> lexlt e2 m2 e3 m3 -> lexlt e1 m1 e3 m3.
Proof. unfold lexlt. intros [?|[? ?]] [?|[? ?]]; try (left; lia). right. split; lia. Qed.

Lemma cmp_pos_lt e1 m1 e2 m2 :
  match e1 ?= e2 with
  | Eq => Pos.compare_cont Eq m1 m2
  | Lt => Lt
  | Gt => Gt
  end = Lt <-> lexlt e1 m1 e2 m2.
Proof.
  unfold lexlt. destruct (Z.compare_spec e1 e2).
  - rewrite Pos_cc_lt. split; [intros; right; split; assumption | intros [?|[_ ?]]; [lia | assumption]].
  - split; [intros; left; assumption | reflexivity].
  - split; [discriminate | intros [?|[? _]]; lia].
Qed.

Lemma cmp_neg_lt e1 m1 e2 m2 :
  match e1 ?= e2 with
  | Eq => CompOpp (Pos.compare_cont Eq m1 m2)
  | Lt => Gt
  | Gt => Lt
  end = Lt <-> lexlt e2 m2 e1 m1.
Proof.
  unfold lexlt. destruct (Z.compare_spec e1 e2).
  - rewrite CompOpp_lt, Pos_cc_gt.
    split; [intros; right; split; [symmetry|]; assumption | intros [?|[_ ?]]; [lia | assumption]].
  - split; [discriminate | intros [?|[? _]]; lia].
  - split; [intros; left; assumption | reflexivity].
Qed.

Lemma SFltb_finite s1 m1 e1 s2 m2 e2 :
  SFltb (S754_finite s1 m1 e1) (S754_finite s2 m2 e2) = true <->
  match s1, s2 with
  | true, false => True
  | false, true => False
  | false, false => lexlt e1 m1 e2 m2
  | true, true => lexlt e2 m2 e1 m1
  end.
Proof.
  unfold SFltb, SFcompare. destruct s1, s2.
  - rewrite <- cmp_neg_lt.
    destruct (e1 ?= e2); [destruct (CompOpp _)| |]; split; congruence.
  - split; [trivial | reflexivity].
  - split; [discriminate | contradiction].
  - rewrite <- cmp_pos_lt.
    destruct (e1 ?= e2); [destruct (Pos.compare_cont _ _ _)| |]; split; congruence.
Qed.

Lemma SFltb_trans (a b c : spec_float) :
  SFltb a b = true -> SFltb b c = true -> SFltb a c = true.
Proof.
  destruct a as [sa|sa| |sa ma ea], b as [sb|sb| |sb mb eb], c as [sc|sc| |sc mc ec];
    try (destruct sa); try (destruct sb); try (destruct sc);
    try (cbn; congruence);
    rewrite !SFltb_finite; try tauto; apply lexlt_trans || (intros; eapply lexlt_trans; eassumption).
Qed.

#[export] Instance binary64_order : RealOrder binary64.
Proof.
  split; cbn.
  - intros a. rewrite ltb_spec. apply SFltb_irrefl.
  - intros a b c. rewrite !ltb_spec. apply SFltb_trans.
Qed.

Lemma Rltb_true (a b : R) : Rltb a b = true <-> (a < b)%R.
Proof. unfold Rltb. destruct (Rlt_dec a b); split; intros; congruence || assumption || contradiction. Qed.

#[export] Instance exactR_order : RealOrder exactR.
Proof.
  split; cbn.
  - intros a. unfold Rltb. destruct (Rlt_dec a a) as [H|]; [|reflexivity].
    exfalso. revert H. apply Rlt_irrefl.
  - intros a b c. rewrite !Rltb_true. apply Rlt_trans.
Qed.


(** ** Loops *)

Lemma elem_of_irange (r : IndexRange) (n : Z) : n ∈ irange r <-> s r <= n <= e r.
Proof. unfold irange. rewrite elem_of_seqZ. lia. Qed.

Section Loops.
Context {St : Type}.
Implicit Types (body : Z -> St -> St) (st : St) (l : list Z).

(** A property that every iteration keeps holds after the loop. *)
Lemma fold_invariant (P : St -> Prop) body l st :
  (forall n st, n ∈ l -> P st -> P (body n st)) ->
  P st -> P (fold_left (fun st n => body n st) l st).
Proof.
  revert st. induction l as [|a l IH]; intros st Hbody HP; [exact HP|].
  cbn. apply IH.
  - intros n st' Hn. apply Hbody. right. exact Hn.
  - apply Hbody; [left|exact HP].
Qed.

(** If iteration [n] establishes [Q n] and no iteration destroys a [Q m],
    then every [Q m] of the range holds after the loop.  [I] is an
    invariant that the iterations may rely on. *)
Lemma fold_establish (I : St -> Prop) (Q : Z -> St -> Prop) body l st :
  (forall n st, n ∈ l -> I st -> I (body n st)) ->
  (forall n st, n ∈ l -> I st -> Q n (body n st)) ->
  (forall n m st, n ∈ l -> I st -> Q m st -> Q m (body n st)) ->
  I st ->
  forall m, m ∈ l -> Q m (fold_left (fun st n => body n st) l st).
Proof.
  revert st. induction l as [|a l IH]; intros st HI HQ Hstab Hst m Hm.
  - inversion Hm.
  - cbn. apply elem_of_cons in Hm as [->|Hm].
    + enough (I (fold_left (fun st n => body n st) l (body a st)) /\
              Q a (fold_left (fun st n => body n st) l (body a st))) as [_ H] by exact H.
      apply (fold_invariant (fun st => I st /\ Q a st)).
      * intros n st' Hn [? ?]. split; [apply HI|apply Hstab]; try assumption; right; exact Hn.
      * split; [apply HI|apply HQ]; try assumption; left.
    + apply IH; try assumption.
      * intros n st' Hn. apply HI. right. exact Hn.
      * intros n st' Hn. apply HQ. right. exact Hn.
      * intros n m' st' Hn. apply Hstab. right. exact Hn.
      * apply HI; [left|exact Hst].
Qed.

Lemma for_range_invariant (P : St -> Prop) (r : IndexRange) body st :
  (forall n st, s r <= n <= e r -> P st -> P (body n st)) ->
  P st -> P (for_range r body st).
Proof.
  intros Hbody. apply fold_invariant. intros n st' Hn. apply Hbody, elem_of_irange, Hn.
Qed.

Lemma for_range_establish (I : St -> Prop) (Q : Z -> St -> Prop) (r : IndexRange) body st :
  (forall n st, s r <= n <= e r -> I st -> I (body n st)) ->
  (forall n st, s r <= n <= e r -> I st -> Q n (body n st)) ->
  (forall n m st, s r <= n <= e r -> I st -> Q m st -> Q m (body n st)) ->
  I st ->
  forall m, s r <= m <= e r -> Q m (for_range r body st).
Proof.
  intros HI HQ Hstab Hst m Hm. unfold for_range.
  apply (fold_establish I Q); try assumption.
  - intros n st' Hn. apply HI, elem_of_irange, Hn.
  - intros n st' Hn. apply HQ, elem_of_irange, Hn.
  - intros n m' st' Hn. apply Hstab, elem_of_irange, Hn.
  - apply elem_of_irange, Hm.
Qed.

Lemma par_for_3D_invariant (P : St -> Prop) (kb jb ib : IndexRange)
    (body : Z -> Z -> Z -> St -> St) st :
  (forall k j i st, s kb <= k <= e kb -> s jb <= j <= e jb -> s ib <= i <= e ib ->
                    P st -> P (body k j i st)) ->
  P st -> P (par_for_3D kb jb ib body st).
Proof.
  intros Hbody. unfold par_for_3D.
  apply for_range_invariant. intros k st1 Hk.
  apply for_range_invariant. intros j st2 Hj.
  apply for_range_invariant. intros i st3 Hi.
  apply Hbody; assumption.
Qed.

(** The three-deep nest: every cell's [Q] holds at the end. *)
Lemma par_for_3D_establish (I : St -> Prop) (Q : Z -> Z -> Z -> St -> Prop)
    (kb jb ib : IndexRange) (body : Z -> Z -> Z -> St -> St) st :
  (forall k j i st, I st -> I (body k j i st)) ->
  (forall k j i st, I st -> Q k j i (body k j i st)) ->
  (forall k j i k' j' i' st, I st -> Q k' j' i' st -> Q k' j' i' (body k j i st)) ->
  I st ->
  forall k j i, s kb <= k <= e kb -> s jb <= j <= e jb -> s ib <= i <= e ib ->
                Q k j i (par_for_3D kb jb ib body st).
Proof.
  intros HI HQ Hstab Hst k j i Hk Hj Hi. unfold par_for_3D.
  assert (Hi_inv : forall k j st, I st -> I (for_range ib (fun i => body k j i) st)).
  { intros k0 j0 st0. apply for_range_invariant. intros; apply HI; assumption. }
  assert (Hj_inv : forall k st, I st ->
            I (for_range jb (fun j => for_range ib (fun i => body k j i)) st)).
  { intros k0 st0. apply for_range_invariant. intros; apply Hi_inv; assumption. }
  assert (Hi_stab : forall k j k' j' i' st, I st -> Q k' j' i' st ->
            Q k' j' i' (for_range ib (fun i => body k j i) st)).
  { intros k0 j0 k' j' i' st0 H0 HQ0.
    enough (I (for_range ib (fun i => body k0 j0 i) st0) /\
            Q k' j' i' (for_range ib (fun i => body k0 j0 i) st0)) as [_ H] by exact H.
    apply (for_range_invariant (fun st => I st /\ Q k' j' i' st)); [|split; assumption].
    intros n st' _ [? ?]. split; [apply HI|apply Hstab]; assumption. }
  assert (Hj_stab : forall k k' j' i' st, I st -> Q k' j' i' st ->
            Q k' j' i' (for_range jb (fun j => for_range ib (fun i => body k j i)) st)).
  { intros k0 k' j' i' st0 H0 HQ0.
    enough (I (for_range jb (fun j => for_range ib (fun i => body k0 j i)) st0) /\
            Q k' j' i' (for_range jb (fun j => for_range ib (fun i => body k0 j i)) st0))
      as [_ H] by exact H.
    apply (for_range_invariant (fun st => I st /\ Q k' j' i' st)); [|split; assumption].
    intros n st' _ [? ?]. split; [apply Hi_inv|apply Hi_stab]; assumption. }
  apply (for_range_establish I (fun k st => Q k j i st)); try assumption.
  - intros; apply Hj_inv; assumption.
  - intros k0 st0 _ H0.
    apply (for_range_establish I (fun j st => Q k0 j i st)); try assumption.
    + intros; apply Hi_inv; assumption.
    + intros j0 st1 _ H1.
      apply (for_range_establish I (fun i st => Q k0 j0 i st)); try assumption.
      * intros; apply HI; assumption.
      * intros; apply HQ; assumption.
      * intros; apply Hstab; assumption.
    + intros; apply Hi_stab; assumption.
  - intros; apply Hj_stab; assumption.
Qed.

End Loops.

(** ** Writing one entry of a field *)

Section DataSet.
Context {RA : RealArith}.
Implicit Types (rc : MeshBlockData) (md : MeshData).

Lemma data_set_eq rc name v k j i x :
  data (data_set rc name v k j i x) name v k j i = x.
Proof. cbn. rewrite String.eqb_refl, !Z.eqb_refl. reflexivity. Qed.

Lemma data_set_name_ne rc name v k j i x name' v' k' j' i' :
  name' <> name ->
  data (data_set rc name v k j i x) name' v' k' j' i' = data rc name' v' k' j' i'.
Proof.
  intros Hne. cbn. destruct (String.eqb_spec name' name) as [->|_]; [contradiction|reflexivity].
Qed.

Lemma data_set_index_ne rc name v k j i x name' v' k' j' i' :
  (v', k', j', i') <> (v, k, j, i) ->
  data (data_set rc name v k j i x) name' v' k' j' i' = data rc name' v' k' j' i'.
Proof.
  intros Hne. cbn.
  destruct (Z.eqb_spec v' v), (Z.eqb_spec k' k), (Z.eqb_spec j' j), (Z.eqb_spec i' i);
    rewrite ?andb_false_r; try reflexivity.
  subst. contradiction.
Qed.

Lemma pack_set_eq md name b v k j i x :
  pack (pack_set md name b v k j i x) name b v k j i = x.
Proof. unfold pack, pack_set. cbn [blocks]. rewrite Z.eqb_refl. apply data_set_eq. Qed.

Lemma pack_set_name_ne md name b v k j i x name' b' v' k' j' i' :
  name' <> name ->
  pack (pack_set md name b v k j i x) name' b' v' k' j' i' = pack md name' b' v' k' j' i'.
Proof.
  intros Hne. unfold pack, pack_set. cbn [blocks].
  destruct (Z.eqb_spec b' b) as [->|_]; [|reflexivity].
  apply data_set_name_ne, Hne.
Qed.

Lemma pack_flux_pack_set md name b v k j i x name' b' dir v' k' j' i' :
  pack_flux (pack_set md name b v k j i x) name' b' dir v' k' j' i'
  = pack_flux md name' b' dir v' k' j' i'.
Proof.
  unfold pack_flux, pack_set. cbn [blocks].
  destruct (Z.eqb_spec b' b) as [->|_]; reflexivity.
Qed.

End DataSet.

(** ** UtoP *)

Section UtoP_facts.
Context {RA : RealArith} {D : Decs}.
Import B_CD.
Implicit Types (rc : MeshBlockData).


Lemma UtoP_frame_refl rc : UtoP_frame rc rc.
Proof. repeat split. Qed.

Lemma UtoP_frame_set_B rc0 rc v k j i x :
  UtoP_frame rc0 rc -> UtoP_frame rc0 (data_set rc "prims.B" v k j i x).
Proof.
  intros (?&?&?&?&?&Hd). repeat split; try assumption.
  intros name v' k' j' i' Hn1 Hn2. rewrite data_set_name_ne by exact Hn1. apply Hd; assumption.
Qed.

Lemma UtoP_frame_set_psi rc0 rc v k j i x :
  UtoP_frame rc0 rc -> UtoP_frame rc0 (data_set rc "prims.psi_cd" v k j i x).
Proof.
  intros (?&?&?&?&?&Hd). repeat split; try assumption.
  intros name v' k' j' i' Hn1 Hn2. rewrite data_set_name_ne by exact Hn2. apply Hd; assumption.
Qed.

Lemma UtoP_cell_frame rc0 k j i rc :
  UtoP_frame rc0 rc -> UtoP_frame rc0 (UtoP_cell k j i rc).
Proof.
  intros H. unfold UtoP_cell. apply UtoP_frame_set_psi. unfold VLOOP.
  apply for_range_invariant; [|exact H].
  intros v st _ Hst. apply UtoP_frame_set_B, Hst.
Qed.


Lemma UtoP_cell_recovered rc0 k j i rc :
  UtoP_frame rc0 rc -> recovered rc0 k j i (UtoP_cell k j i rc).
Proof.
  intros Hfr. unfold UtoP_cell, VLOOP.
  set (g := gdet (coords rc) center j i).
  set (loop := for_range _ _ rc).
  assert (Hloop : UtoP_frame rc0 loop).
  { apply for_range_invariant; [|exact Hfr]. intros v st _ Hst. apply UtoP_frame_set_B, Hst. }
  assert (Hg : g = gdet (coords rc0) center j i).
  { unfold g. destruct Hfr as (_&->&_). reflexivity. }
  split.
  - intros v Hv. rewrite data_set_name_ne by discriminate.
    apply (for_range_establish (UtoP_frame rc0)
             (fun v st => data st "prims.B" v k j i
                          = rdiv (data rc0 "cons.B" v k j i) (gdet (coords rc0) center j i)));
      try assumption.
    + intros n st _ Hst. apply UtoP_frame_set_B, Hst.
    + intros n st _ Hst. rewrite data_set_eq, Hg. f_equal.
      destruct Hst as (_&_&_&_&_&Hd). apply Hd; discriminate.
    + intros n m st _ Hst HQ. destruct (decide (m = n)) as [->|Hne].
      * rewrite data_set_eq, Hg. f_equal.
        destruct Hst as (_&_&_&_&_&Hd). apply Hd; discriminate.
      * rewrite data_set_index_ne by congruence. exact HQ.
    + cbn. lia.
  - rewrite data_set_eq, Hg. f_equal.
    destruct Hloop as (_&_&_&_&_&Hd). apply Hd; discriminate.
Qed.

Lemma UtoP_cell_stable rc0 k j i k' j' i' rc :
  UtoP_frame rc0 rc -> recovered rc0 k' j' i' rc -> recovered rc0 k' j' i' (UtoP_cell k j i rc).
Proof.
  intros Hfr HQ. destruct (decide ((k', j', i') = (k, j, i))) as [Heq|Hne].
  - inversion Heq; subst. apply UtoP_cell_recovered, Hfr.
  - destruct HQ as [HB Hpsi]. unfold UtoP_cell, VLOOP. split.
    + intros v Hv. rewrite data_set_name_ne by discriminate.
      apply (for_range_invariant
               (fun st => data st "prims.B" v k' j' i'
                          = rdiv (data rc0 "cons.B" v k' j' i') (gdet (coords rc0) center j' i'))).
      * intros n st _ Hst. rewrite data_set_index_ne by congruence. exact Hst.
      * apply HB, Hv.
    + rewrite data_set_index_ne by congruence.
      apply (for_range_invariant
               (fun st => data st "prims.psi_cd" 0 k' j' i'
                          = rdiv (data rc0 "cons.psi_cd" 0 k' j' i') (gdet (coords rc0) center j' i'))).
      * intros n st _ Hst. rewrite data_set_name_ne by discriminate. exact Hst.
      * exact Hpsi.
Qed.


Lemma UtoP_keeps_frame rc domain coarse : UtoP_frame rc (UtoP rc domain coarse).
Proof.
  unfold UtoP. apply par_for_3D_invariant; [|apply UtoP_frame_refl].
  intros. apply UtoP_cell_frame. assumption.
Qed.

Lemma UtoP_recovers rc domain coarse k j i :
  in_domain (UtoP_bounds rc coarse) domain k j i ->
  recovered rc k j i (UtoP rc domain coarse).
Proof.
  intros (Hk&Hj&Hi). unfold UtoP.
  apply (par_for_3D_establish (UtoP_frame rc) (recovered rc)); try assumption.
  - intros. apply UtoP_cell_frame. assumption.
  - intros. apply UtoP_cell_recovered. assumption.
  - intros. apply UtoP_cell_stable; assumption.
  - apply UtoP_frame_refl.
Qed.

End UtoP_facts.

(** Over the reals, recovery undoes the multiplication by a nonzero
    determinant. *)
Lemma UtoP_roundtrip_exact {D : Decs} (rc : @MeshBlockData exactR) domain coarse
    (P : Z -> Z -> Z -> Z -> R) (Ppsi : Z -> Z -> Z -> R) :
  (forall k j i, in_domain (UtoP_bounds rc coarse) domain k j i ->
     gdet (coords rc) center j i <> 0%R) ->
  (forall v k j i, in_domain (UtoP_bounds rc coarse) domain k j i -> 0 <= v < NVEC ->
     data rc "cons.B" v k j i = (P v k j i * gdet (coords rc) center j i)%R) ->
  (forall k j i, in_domain (UtoP_bounds rc coarse) domain k j i ->
     data rc "cons.psi_cd" 0 k j i = (Ppsi k j i * gdet (coords rc) center j i)%R) ->
  forall k j i, in_domain (UtoP_bounds rc coarse) domain k j i ->
    (forall v, 0 <= v < NVEC ->
       data (B_CD.UtoP rc domain coarse) "prims.B" v k j i = P v k j i) /\
    data (B_CD.UtoP rc domain coarse) "prims.psi_cd" 0 k j i = Ppsi k j i.
Proof.
  intros Hg HB Hpsi k j i Hin.
  destruct (UtoP_recovers rc domain coarse k j i Hin) as [HrB Hrpsi].
  specialize (Hg k j i Hin). split.
  - intros v Hv. rewrite (HrB v Hv), (HB v k j i Hin Hv). cbn. field. exact Hg.
  - rewrite Hrpsi, (Hpsi k j i Hin). cbn. field. exact Hg.
Qed.

(** Two binary64 numbers that [==] tells apart are different. *)
Lemma float_neq (x y : float) :
  PrimFloat.eqb x y = false -> PrimFloat.eqb y y = true -> x <> y.
Proof. intros Hxy Hyy ->. congruence. Qed.

(** ** Primitive recovery and the number of dimensions *)

(** C5 (as amended).  For every cell of the requested domain UtoP sets each
    primitive B component to the conserved component divided by the metric
    determinant at the cell centre, and primitive psi to conserved psi
    divided by the same determinant, and it changes nothing else.  Over
    the real numbers, for a nonzero determinant, applying it to a conserved
    state built as primitive times determinant gives back the primitive
    state. *)
Theorem C5_UtoP_recovery :
  (forall (RA : RealArith) (D : Decs) (rc : MeshBlockData) domain coarse,
     UtoP_frame rc (B_CD.UtoP rc domain coarse) /\
     forall k j i, in_domain (UtoP_bounds rc coarse) domain k j i ->
       recovered rc k j i (B_CD.UtoP rc domain coarse)) /\
  (forall (D : Decs) (rc : @MeshBlockData exactR) domain coarse
          (P : Z -> Z -> Z -> Z -> R) (Ppsi : Z -> Z -> Z -> R),
     (forall k j i, in_domain (UtoP_bounds rc coarse) domain k j i ->
        gdet (coords rc) center j i <> 0%R) ->
     (forall v k j i, in_domain (UtoP_bounds rc coarse) domain k j i -> 0 <= v < NVEC ->
        data rc "cons.B" v k j i = (P v k j i * gdet (coords rc) center j i)%R) ->
     (forall k j i, in_domain (UtoP_bounds rc coarse) domain k j i ->
        data rc "cons.psi_cd" 0 k j i = (Ppsi k j i * gdet (coords rc) center j i)%R) ->
     forall k j i, in_domain (UtoP_bounds rc coarse) domain k j i ->
       (forall v, 0 <= v < NVEC ->
          data (B_CD.UtoP rc domain coarse) "prims.B" v k j i = P v k j i) /\
       data (B_CD.UtoP rc domain coarse) "prims.psi_cd" 0 k j i = Ppsi k j i).
Proof.
  split.
  - intros RA D rc domain coarse. split.
    + apply UtoP_keeps_frame.
    + intros k j i. apply UtoP_recovers.
  - intros D. apply UtoP_roundtrip_exact.
Qed.

Lemma C5_UtoP_recovery_witness :
  @recovered binary64 kharma_decs Runs.c5_rc 0 0 0 (@B_CD.UtoP binary64 kharma_decs Runs.c5_rc interior false) /\
  data (@B_CD.UtoP exactR kharma_decs Runs.c5_rcR interior false) "prims.B" 0 0 0 0
  = (1 / 10)%R.
Proof.
  split.
  - apply (proj1 C5_UtoP_recovery binary64 kharma_decs Runs.c5_rc interior false).
    unfold in_domain. cbn. lia.
  - refine (proj1 (proj2 C5_UtoP_recovery kharma_decs Runs.c5_rcR interior false
              (fun _ _ _ _ => (1 / 10)%R) (fun _ _ _ => (1 / 10)%R) _ _ _ 0 0 0 _) 0 _).
    + intros k j i _. cbn. lra.
    + intros v k j i _ _. reflexivity.
    + intros k j i _. reflexivity.
    + unfold in_domain. cbn. lia.
    + cbn. lia.
Defined.

(** C5, the counterexample in binary64: the primitive value 0.1 times the
    determinant 3 is rounded to 0.30000000000000004, and that divided by 3
    is rounded to 0.10000000000000002, not to 0.1. *)
Lemma C5_roundtrip_counterexample :
  rne Runs.c5_gdet r0 = true /\
  data Runs.c5_rc "cons.B" 0 0 0 0 = rmul Runs.c5_P Runs.c5_gdet /\
  data (@B_CD.UtoP binary64 kharma_decs Runs.c5_rc interior false) "prims.B" 0 0 0 0
  = 0x1.999999999999bp-4%float /\
  data (@B_CD.UtoP binary64 kharma_decs Runs.c5_rc interior false) "prims.B" 0 0 0 0
  <> Runs.c5_P.
Proof.
  split; [reflexivity|]. split; [reflexivity|].
  split; [vm_compute; reflexivity|].
  apply float_neq; vm_compute; reflexivity.
Qed.

(** C3 (as amended).  With fewer than 2 spatial dimensions AddSource
    returns at once with both arguments unchanged.  UtoP has no such guard:
    in any number of dimensions, and so also below 2, it overwrites
    prims.B and prims.psi_cd on the requested domain with the conserved
    values divided by the determinant, and leaves everything else as it
    was. *)
Theorem C3_fewer_than_two_dimensions (RA : RealArith) (D : Decs) :
  (forall md mdudt : MeshData,
     ndim md < 2 -> B_CD.AddSource md mdudt = (md, mdudt, complete)) /\
  (forall (rc : MeshBlockData) domain coarse,
     mb_ndim rc < 2 ->
     UtoP_frame rc (B_CD.UtoP rc domain coarse) /\
     forall k j i, in_domain (UtoP_bounds rc coarse) domain k j i ->
       recovered rc k j i (B_CD.UtoP rc domain coarse)).
Proof.
  split.
  - intros md mdudt Hnd. unfold B_CD.AddSource.
    destruct (Z.ltb_spec (ndim md) 2) as [_|Hge]; [reflexivity|lia].
  - intros rc domain coarse _. split.
    + apply UtoP_keeps_frame.
    + intros k j i. apply UtoP_recovers.
Qed.

Lemma C3_fewer_than_two_dimensions_witness :
  @B_CD.AddSource binary64 kharma_decs Runs.c3_md Runs.c3_md
  = (Runs.c3_md, Runs.c3_md, complete) /\
  @recovered binary64 kharma_decs Runs.c3_rc 0 0 0
    (@B_CD.UtoP binary64 kharma_decs Runs.c3_rc interior false).
Proof.
  split.
  - apply (proj1 (C3_fewer_than_two_dimensions binary64 kharma_decs)). cbn. lia.
  - apply (proj2 (C3_fewer_than_two_dimensions binary64 kharma_decs)
             Runs.c3_rc interior false).
    + cbn. lia.
    + unfold in_domain. cbn. lia.
Defined.

(** C3, the counterexample: on a one-dimensional block with cons.B = 2,
    determinant 1 and prims.B = 0, UtoP stores 2 in prims.B. *)
Lemma C3_UtoP_not_noop_counterexample :
  mb_ndim Runs.c3_rc < 2 /\
  data (@B_CD.UtoP binary64 kharma_decs Runs.c3_rc interior false) "prims.B" 0 0 0 0
  <> data Runs.c3_rc "prims.B" 0 0 0 0.
Proof.
  split; [cbn; lia|]. apply float_neq; vm_compute; reflexivity.
Qed.

(** ** The divergence estimate *)

Section Divergence_facts.
Context {RA : RealArith} {D : Decs}.
Implicit Types (md : MeshData).

Lemma spec_divergence_2 md b k j i :
  ndim md = 2 ->
  spec_divergence md b k j i
  = radd (rdiv (flux_difference md b 1 k j i) (spacing md b 1 k j i))
         (rdiv (flux_difference md b 2 k j i) (spacing md b 2 k j i)).
Proof. intros E. unfold spec_divergence. rewrite E. reflexivity. Qed.

Lemma spec_divergence_3 md b k j i :
  ndim md = 3 ->
  spec_divergence md b k j i
  = radd (radd (rdiv (flux_difference md b 1 k j i) (spacing md b 1 k j i))
               (rdiv (flux_difference md b 2 k j i) (spacing md b 2 k j i)))
         (rdiv (flux_difference md b 3 k j i) (spacing md b 3 k j i)).
Proof. intros E. unfold spec_divergence. rewrite E. reflexivity. Qed.

Lemma AddSource_divB_spec md b k j i :
  2 <= ndim md <= 3 ->
  B_CD.AddSource_divB (ndim md) md b k j i = spec_divergence md b k j i.
Proof.
  intros Hnd. assert (ndim md = 2 \/ ndim md = 3) as [E|E] by lia.
  - rewrite (spec_divergence_2 _ _ _ _ _ E). unfold B_CD.AddSource_divB. rewrite E. reflexivity.
  - rewrite (spec_divergence_3 _ _ _ _ _ E). unfold B_CD.AddSource_divB. rewrite E. reflexivity.
Qed.

Lemma MaxDivB_divb_local_spec md b k j i :
  2 <= ndim md <= 3 ->
  B_CD.MaxDivB_divb_local (ndim md) md b k j i = spec_divergence md b k j i.
Proof.
  intros Hnd. assert (ndim md = 2 \/ ndim md = 3) as [E|E] by lia.
  - rewrite (spec_divergence_2 _ _ _ _ _ E). unfold B_CD.MaxDivB_divb_local. rewrite E. reflexivity.
  - rewrite (spec_divergence_3 _ _ _ _ _ E). unfold B_CD.MaxDivB_divb_local. rewrite E. reflexivity.
Qed.

End Divergence_facts.

(** Over the reals the manufactured flux field gives the estimate [kk]. *)
Lemma spec_divergence_manufactured {D : Decs} (md : @MeshData exactR) b k j i (kk : R) :
  2 <= ndim md <= 3 ->
  spacing md b 1 k j i <> 0%R ->
  flux_difference md b 1 k j i = (kk * spacing md b 1 k j i)%R ->
  (forall a, 2 <= a <= ndim md -> flux_difference md b a k j i = 0%R) ->
  spec_divergence md b k j i = kk.
Proof.
  intros Hnd Hdx H1 Hrest. assert (ndim md = 2 \/ ndim md = 3) as [E|E] by lia.
  - rewrite (spec_divergence_2 _ _ _ _ _ E), H1, (Hrest 2) by lia.
    cbn [radd rdiv exactR]. unfold Rdiv.
    rewrite Rmult_0_l, Rplus_0_r, Rmult_assoc, Rinv_r by exact Hdx. apply Rmult_1_r.
  - rewrite (spec_divergence_3 _ _ _ _ _ E), H1, (Hrest 2), (Hrest 3) by lia.
    cbn [radd rdiv exactR]. unfold Rdiv.
    rewrite !Rmult_0_l, !Rplus_0_r, Rmult_assoc, Rinv_r by exact Hdx. apply Rmult_1_r.
Qed.

(** C1 (as amended).  With 2 or 3 dimensions, the divergence estimate of
    AddSource and that of MaxDivB both equal the sum over the axes 1..ndim
    of the right-face flux minus the left-face flux, divided by the grid
    spacing along the axis.  Over the real numbers, where the spacing along
    axis 1 is nonzero, a flux field whose difference along axis 1 is
    k times that spacing and whose differences along the other axes are
    zero gives the estimate k. *)
Theorem C1_divergence_estimate :
  (forall (RA : RealArith) (D : Decs) (md : MeshData) b k j i,
     2 <= ndim md <= 3 ->
     B_CD.AddSource_divB (ndim md) md b k j i = spec_divergence md b k j i /\
     B_CD.MaxDivB_divb_local (ndim md) md b k j i = spec_divergence md b k j i) /\
  (forall (D : Decs) (md : @MeshData exactR) b k j i (kk : R),
     2 <= ndim md <= 3 ->
     spacing md b 1 k j i <> 0%R ->
     flux_difference md b 1 k j i = (kk * spacing md b 1 k j i)%R ->
     (forall a, 2 <= a <= ndim md -> flux_difference md b a k j i = 0%R) ->
     B_CD.AddSource_divB (ndim md) md b k j i = kk /\
     B_CD.MaxDivB_divb_local (ndim md) md b k j i = kk).
Proof.
  split.
  - intros RA D md b k j i Hnd. split.
    + apply AddSource_divB_spec, Hnd.
    + apply MaxDivB_divb_local_spec, Hnd.
  - intros D md b k j i kk Hnd Hdx H1 Hrest.
    rewrite AddSource_divB_spec, MaxDivB_divb_local_spec by exact Hnd.
    split; apply spec_divergence_manufactured; assumption.
Qed.

Lemma C1_divergence_estimate_witness :
  @B_CD.AddSource_divB binary64 kharma_decs 2 Runs.c1_md 0 0 0 0
  = @spec_divergence binary64 kharma_decs Runs.c1_md 0 0 0 0 /\
  @B_CD.MaxDivB_divb_local exactR kharma_decs 2 Runs.c1_mdR 0 0 0 0 = (1 / 10)%R.
Proof.
  split.
  - apply (proj1 C1_divergence_estimate binary64 kharma_decs Runs.c1_md 0 0 0 0). cbn. lia.
  - apply (proj2 C1_divergence_estimate kharma_decs Runs.c1_mdR 0 0 0 0 (1 / 10)%R).
    + cbn. lia.
    + unfold spacing. cbn. lra.
    + unfold flux_difference, spacing, pack_flux. cbn. change (0 + 1) with 1. cbn. lra.
    + intros a Ha. cbn in Ha. assert (a = 2) as -> by lia.
      unfold flux_difference, pack_flux. cbn. lra.
Defined.

(** C1, the counterexample in binary64: with k = 0.1, spacing 3 along
    axis 1 and no flux along axis 2, every interior cell has the flux
    difference k * 3 along axis 1 and 0 along axis 2, and the estimate at
    the cell (0, 0, 0) is (k * 3) / 3 + 0 = 0.10000000000000002 (the next
    binary64 number above k), not k. *)
Lemma C1_manufactured_counterexample :
  (forall j i, 0 <= j <= 1 -> 0 <= i <= 1 ->
     @flux_difference binary64 kharma_decs Runs.c1_md 0 1 0 j i
     = rmul Runs.c1_k (@spacing binary64 Runs.c1_md 0 1 0 j i) /\
     @flux_difference binary64 kharma_decs Runs.c1_md 0 2 0 j i = r0) /\
  @B_CD.AddSource_divB binary64 kharma_decs 2 Runs.c1_md 0 0 0 0
  = 0x1.999999999999bp-4%float /\
  @B_CD.MaxDivB_divb_local binary64 kharma_decs 2 Runs.c1_md 0 0 0 0
  = 0x1.999999999999bp-4%float /\
  @B_CD.AddSource_divB binary64 kharma_decs 2 Runs.c1_md 0 0 0 0 <> Runs.c1_k /\
  @B_CD.MaxDivB_divb_local binary64 kharma_decs 2 Runs.c1_md 0 0 0 0 <> Runs.c1_k.
Proof.
  split.
  - intros j i Hj Hi. assert (i = 0 \/ i = 1) as [->| ->] by lia; split; vm_compute; reflexivity.
  - split; [vm_compute; reflexivity|]. split; [vm_compute; reflexivity|].
    split; apply float_neq; vm_compute; reflexivity.
Qed.

(** ** The max reduction of MaxDivB *)

Section Reduction.
Context {St : Type}.

Lemma par_for_MESH_3D_invariant (P : St -> Prop) (bb kb jb ib : IndexRange)
    (body : Z -> Z -> Z -> Z -> St -> St) st :
  (forall b k j i st, s bb <= b <= e bb -> s kb <= k <= e kb -> s jb <= j <= e jb ->
                      s ib <= i <= e ib -> P st -> P (body b k j i st)) ->
  P st -> P (par_for_MESH_3D bb kb jb ib body st).
Proof.
  intros Hbody. unfold par_for_MESH_3D.
  apply for_range_invariant. intros b st' Hb.
  apply par_for_3D_invariant. intros. apply Hbody; assumption.
Qed.

Lemma par_for_MESH_3D_establish (Q : Z -> Z -> Z -> Z -> St -> Prop)
    (bb kb jb ib : IndexRange) (body : Z -> Z -> Z -> Z -> St -> St) st :
  (forall b k j i st, Q b k j i (body b k j i st)) ->
  (forall b k j i b' k' j' i' st, Q b' k' j' i' st -> Q b' k' j' i' (body b k j i st)) ->
  forall b k j i, s bb <= b <= e bb -> s kb <= k <= e kb -> s jb <= j <= e jb ->
                  s ib <= i <= e ib ->
                  Q b k j i (par_for_MESH_3D bb kb jb ib body st).
Proof.
  intros HQ Hstab b k j i Hb Hk Hj Hi. unfold par_for_MESH_3D.
  refine (for_range_establish (fun _ => True) (fun b st => Q b k j i st) bb _ st
            (fun _ _ _ _ => Logic.I) _ _ Logic.I b Hb).
  - intros b0 st0 _ _.
    refine (par_for_3D_establish (fun _ => True) (Q b0) kb jb ib (body b0) st0
              (fun _ _ _ _ _ => Logic.I) _ _ Logic.I k j i Hk Hj Hi).
    + intros. apply HQ.
    + intros. apply Hstab. assumption.
  - intros b0 b' st0 _ _ H0.
    apply (par_for_3D_invariant (fun st => Q b' k j i st)); [|exact H0].
    intros. apply Hstab. assumption.
Qed.

End Reduction.

Section MaxDivB_facts.
Context {RA : RealArith} {RO : RealOrder RA} {D : Decs}.
Implicit Types (md : MeshData).

Lemma rgt_irrefl (a : Real) : rgt a a = false.
Proof. apply rlt_irrefl. Qed.

(** A value that does not exceed the running maximum does not exceed the
    next one either. *)
Lemma max_step_bound (d d' acc : Real) :
  rgt d' acc = false -> rgt d' (B_CD.max_step d acc) = false.
Proof.
  intros H. unfold B_CD.max_step. destruct (rgt d acc) eqn:Hd; [|exact H].
  destruct (rgt d' d) eqn:Hd'; [|reflexivity].
  unfold rgt in *. rewrite (rlt_trans _ _ _ Hd Hd') in H. discriminate.
Qed.

Lemma max_step_self (d acc : Real) : rgt d (B_CD.max_step d acc) = false.
Proof.
  unfold B_CD.max_step. destruct (rgt d acc) eqn:Hd; [apply rgt_irrefl|exact Hd].
Qed.

Lemma MaxDivB_lt_2 md : ndim md < 2 -> B_CD.MaxDivB md = r0.
Proof.
  intros H. unfold B_CD.MaxDivB. destruct (Z.ltb_spec (ndim md) 2); [reflexivity|lia].
Qed.

(** The bounds of the reduction are those of [MaxDivB_included]. *)
Lemma MaxDivB_upper_bound md b k j i :
  2 <= ndim md -> MaxDivB_included md b k j i ->
  rgt (B_CD.MaxDivB_divb_local (ndim md) md b k j i) (B_CD.MaxDivB md) = false.
Proof.
  intros Hnd (Hb&Hk&Hj&Hi). unfold B_CD.MaxDivB.
  destruct (Z.ltb_spec (ndim md) 2); [lia|].
  apply (par_for_MESH_3D_establish
           (fun b k j i acc => rgt (B_CD.MaxDivB_divb_local (ndim md) md b k j i) acc = false)).
  - intros. apply max_step_self.
  - intros. apply max_step_bound. assumption.
  - exact Hb.
  - destruct (ndim md >? 2); exact Hk.
  - exact Hj.
  - exact Hi.
Qed.

(** Whatever holds of the seed and of every visited cell's estimate holds
    of the result. *)
Lemma MaxDivB_ind md (P : Real -> Prop) :
  2 <= ndim md ->
  P rmax_identity ->
  (forall b k j i, MaxDivB_included md b k j i ->
                   P (B_CD.MaxDivB_divb_local (ndim md) md b k j i)) ->
  P (B_CD.MaxDivB md).
Proof.
  intros Hnd Hid Hcells. unfold B_CD.MaxDivB.
  destruct (Z.ltb_spec (ndim md) 2); [lia|].
  apply par_for_MESH_3D_invariant; [|exact Hid].
  intros b k j i acc Hb Hk Hj Hi Hacc. unfold B_CD.max_step.
  destruct (rgt _ acc); [|exact Hacc].
  apply Hcells. repeat split; try apply Hb; try apply Hj; try apply Hi;
    destruct (ndim md >? 2); apply Hk.
Qed.

Lemma MaxDivB_attained md :
  2 <= ndim md ->
  B_CD.MaxDivB md = rmax_identity \/
  exists b k j i, MaxDivB_included md b k j i /\
                  B_CD.MaxDivB md = B_CD.MaxDivB_divb_local (ndim md) md b k j i.
Proof.
  intros Hnd.
  apply (MaxDivB_ind md (fun r => r = rmax_identity \/
           exists b k j i, MaxDivB_included md b k j i /\
                           r = B_CD.MaxDivB_divb_local (ndim md) md b k j i)); try assumption.
  - left. reflexivity.
  - intros b k j i Hin. right. exists b, k, j, i. split; [exact Hin|reflexivity].
Qed.

(** When no visited cell's estimate exceeds the seed, the seed is what
    the reduction returns. *)
Lemma MaxDivB_seed md :
  2 <= ndim md ->
  (forall b k j i, MaxDivB_included md b k j i ->
     rgt (B_CD.MaxDivB_divb_local (ndim md) md b k j i) rmax_identity = false) ->
  B_CD.MaxDivB md = rmax_identity.
Proof.
  intros Hnd Hle. unfold B_CD.MaxDivB.
  destruct (Z.ltb_spec (ndim md) 2); [lia|].
  apply (par_for_MESH_3D_invariant (fun acc => acc = rmax_identity)); [|reflexivity].
  intros b k j i acc Hb Hk Hj Hi ->. unfold B_CD.max_step.
  rewrite Hle; [reflexivity|].
  repeat split; try apply Hb; try apply Hj; try apply Hi;
    destruct (ndim md >? 2); apply Hk.
Qed.

End MaxDivB_facts.

(** C4 (as amended).  With fewer than 2 dimensions MaxDivB returns 0.
    With 2 or 3 dimensions it returns the result of a max reduction, seeded
    with the identity of the reduction, over the flux-difference divergence
    estimates of every block and every interior cell, the last layer left
    out along axes 1 and 2, and along axis 3 when ndim > 2: no estimate of
    such a cell exceeds the returned value; the returned value is the seed
    or the estimate of such a cell; it is the estimate of such a cell as
    soon as one of them exceeds the seed; and, with at least one block, it
    is the seed when none of them exceeds the seed. *)
Theorem C4_MaxDivB_is_maximum (RA : RealArith) (RO : RealOrder RA) (D : Decs)
    (md : MeshData) :
  (ndim md < 2 -> B_CD.MaxDivB md = r0) /\
  (2 <= ndim md <= 3 ->
   (forall b k j i, MaxDivB_included md b k j i ->
      rgt (spec_divergence md b k j i) (B_CD.MaxDivB md) = false) /\
   (B_CD.MaxDivB md = rmax_identity \/
    exists b k j i, MaxDivB_included md b k j i /\
                    B_CD.MaxDivB md = spec_divergence md b k j i) /\
   ((exists b k j i, MaxDivB_included md b k j i /\
                     rgt (spec_divergence md b k j i) rmax_identity = true) ->
    exists b k j i, MaxDivB_included md b k j i /\
                    B_CD.MaxDivB md = spec_divergence md b k j i) /\
   (1 <= nblocks md ->
    (forall b k j i, MaxDivB_included md b k j i ->
       rgt (spec_divergence md b k j i) rmax_identity = false) ->
    B_CD.MaxDivB md = rmax_identity)).
Proof.
  split; [apply MaxDivB_lt_2|].
  intros Hnd.
  assert (Hub : forall b k j i, MaxDivB_included md b k j i ->
                  rgt (spec_divergence md b k j i) (B_CD.MaxDivB md) = false).
  { intros b k j i Hin. rewrite <- MaxDivB_divb_local_spec by exact Hnd.
    apply MaxDivB_upper_bound; [lia|exact Hin]. }
  assert (Hatt : B_CD.MaxDivB md = rmax_identity \/
                 exists b k j i, MaxDivB_included md b k j i /\
                                 B_CD.MaxDivB md = spec_divergence md b k j i).
  { destruct (MaxDivB_attained md) as [Hid|(b&k&j&i&Hin&Heq)]; [lia|left; exact Hid|].
    right. exists b, k, j, i. split; [exact Hin|].
    rewrite <- MaxDivB_divb_local_spec by exact Hnd. exact Heq. }
  split; [exact Hub|]. split; [exact Hatt|]. split.
  - intros (b&k&j&i&Hin&Hgt). destruct Hatt as [Hid|Hex]; [|exact Hex].
    specialize (Hub b k j i Hin). rewrite Hid in Hub. congruence.
  - intros _ Hle. apply MaxDivB_seed; [lia|].
    intros b k j i Hin. rewrite MaxDivB_divb_local_spec by exact Hnd.
    apply Hle, Hin.
Qed.

Lemma C4_MaxDivB_is_maximum_witness :
  @B_CD.MaxDivB binary64 kharma_decs Runs.c3_md = r0 /\
  exists b k j i, @MaxDivB_included binary64 Runs.c10_md b k j i /\
    @B_CD.MaxDivB binary64 kharma_decs Runs.c10_md
    = @spec_divergence binary64 kharma_decs Runs.c10_md b k j i.
Proof.
  split.
  - apply (proj1 (C4_MaxDivB_is_maximum binary64 _ kharma_decs Runs.c3_md)). cbn. lia.
  - apply (proj2 (C4_MaxDivB_is_maximum binary64 _ kharma_decs Runs.c10_md)).
    + cbn. lia.
    + exists 0, 0, 0, 0. split; [unfold MaxDivB_included; cbn; lia|].
      vm_compute. reflexivity.
Defined.

(** C4, the counterexample in binary64: on the run whose one visited cell
    has the flux difference -DBL_MAX - DBL_MAX, the estimate of that cell is
    minus infinity, and MaxDivB returns the seed -DBL_MAX of the reduction,
    which is the estimate of no visited cell: it is not their maximum. *)
Lemma C4_MaxDivB_seed_counterexample :
  @MaxDivB_included binary64 Runs.c4_md 0 0 0 0 /\
  @spec_divergence binary64 kharma_decs Runs.c4_md 0 0 0 0 = neg_infinity /\
  @B_CD.MaxDivB binary64 kharma_decs Runs.c4_md = PrimFloat.opp DBL_MAX /\
  (forall b k j i, @MaxDivB_included binary64 Runs.c4_md b k j i ->
     @B_CD.MaxDivB binary64 kharma_decs Runs.c4_md
     <> @spec_divergence binary64 kharma_decs Runs.c4_md b k j i).
Proof.
  split; [unfold MaxDivB_included; cbn; lia|].
  split; [vm_compute; reflexivity|].
  split; [vm_compute; reflexivity|].
  intros b k j i (Hb&Hk&Hj&Hi). cbn in Hb, Hk, Hj, Hi.
  assert (b = 0) as -> by lia. assert (k = 0) as -> by lia.
  assert (j = 0) as -> by lia. assert (i = 0) as -> by lia.
  apply float_neq; vm_compute; reflexivity.
Qed.

(** C10 (as amended).  MaxDivB takes no absolute value.  When the signed
    estimate is negative at every cell it visits, the value it returns is
    not positive, whatever the size of those estimates (the seed of the
    reduction being not positive: it is -DBL_MAX).  With at least 2
    dimensions no signed estimate of a visited cell exceeds the returned
    value; as soon as one of them exceeds the seed, the returned value is
    the signed estimate of a visited cell, and it is negative when they all
    are; and, with at least one block, when none of them exceeds the seed
    the returned value is the seed. *)
Theorem C10_MaxDivB_signed (RA : RealArith) (RO : RealOrder RA) (D : Decs)
    (md : MeshData) :
  (rgt rmax_identity r0 = false ->
   (forall b k j i, MaxDivB_included md b k j i ->
      rlt (B_CD.MaxDivB_divb_local (ndim md) md b k j i) r0 = true) ->
   rgt (B_CD.MaxDivB md) r0 = false) /\
  (2 <= ndim md ->
   (forall b k j i, MaxDivB_included md b k j i ->
      rgt (B_CD.MaxDivB_divb_local (ndim md) md b k j i) (B_CD.MaxDivB md) = false) /\
   ((exists b k j i, MaxDivB_included md b k j i /\
       rgt (B_CD.MaxDivB_divb_local (ndim md) md b k j i) rmax_identity = true) ->
    (exists b k j i, MaxDivB_included md b k j i /\
       B_CD.MaxDivB md = B_CD.MaxDivB_divb_local (ndim md) md b k j i) /\
    ((forall b k j i, MaxDivB_included md b k j i ->
        rlt (B_CD.MaxDivB_divb_local (ndim md) md b k j i) r0 = true) ->
     rlt (B_CD.MaxDivB md) r0 = true)) /\
   (1 <= nblocks md ->
    (forall b k j i, MaxDivB_included md b k j i ->
       rgt (B_CD.MaxDivB_divb_local (ndim md) md b k j i) rmax_identity = false) ->
    B_CD.MaxDivB md = rmax_identity)).
Proof.
  split.
  - intros Hid Hneg. destruct (Z.lt_ge_cases (ndim md) 2) as [Hlt|Hge].
    + rewrite MaxDivB_lt_2 by exact Hlt. apply rgt_irrefl.
    + apply (MaxDivB_ind md (fun r => rgt r r0 = false)); try assumption.
      intros b k j i Hin. specialize (Hneg b k j i Hin).
      destruct (rgt (B_CD.MaxDivB_divb_local (ndim md) md b k j i) r0) eqn:Hgt; [|reflexivity].
      unfold rgt in Hgt. pose proof (rlt_trans _ _ _ Hneg Hgt) as Hbad.
      rewrite rlt_irrefl in Hbad. discriminate.
  - intros Hnd.
    assert (Hub : forall b k j i, MaxDivB_included md b k j i ->
              rgt (B_CD.MaxDivB_divb_local (ndim md) md b k j i) (B_CD.MaxDivB md) = false)
      by (intros b k j i Hin; apply MaxDivB_upper_bound; assumption).
    split; [exact Hub|]. split.
    + intros (b&k&j&i&Hin&Hgt).
      assert (Hex : exists b k j i, MaxDivB_included md b k j i /\
                      B_CD.MaxDivB md = B_CD.MaxDivB_divb_local (ndim md) md b k j i).
      { destruct (MaxDivB_attained md Hnd) as [Hid|Hex]; [|exact Hex].
        specialize (Hub b k j i Hin). rewrite Hid in Hub. congruence. }
      split; [exact Hex|].
      intros Hneg. destruct Hex as (b'&k'&j'&i'&Hin'&Heq). rewrite Heq.
      apply Hneg, Hin'.
    + intros _ Hle. apply MaxDivB_seed; assumption.
Qed.

Lemma C10_MaxDivB_signed_witness :
  rgt (@B_CD.MaxDivB binary64 kharma_decs Runs.c10_md) r0 = false /\
  (exists b k j i, @MaxDivB_included binary64 Runs.c10_md b k j i /\
     @B_CD.MaxDivB binary64 kharma_decs Runs.c10_md
     = @B_CD.MaxDivB_divb_local binary64 kharma_decs 2 Runs.c10_md b k j i) /\
  rlt (@B_CD.MaxDivB binary64 kharma_decs Runs.c10_md) r0 = true.
Proof.
  assert (Hneg : forall b k j i, @MaxDivB_included binary64 Runs.c10_md b k j i ->
            rlt (@B_CD.MaxDivB_divb_local binary64 kharma_decs (ndim Runs.c10_md)
                   Runs.c10_md b k j i) r0 = true).
  { intros b k j i (Hb&Hk&Hj&Hi). cbn in Hb, Hk, Hj, Hi.
    assert (b = 0) as -> by lia. assert (k = 0) as -> by lia.
    assert (j = 0) as -> by lia. assert (i = 0 \/ i = 1) as [->| ->] by lia;
      vm_compute; reflexivity. }
  destruct (C10_MaxDivB_signed binary64 _ kharma_decs Runs.c10_md) as [Hsign Hmax].
  split; [apply Hsign; [vm_compute; reflexivity|exact Hneg]|].
  destruct Hmax as (_&Hatt&_); [cbn; lia|].
  destruct Hatt as [Hex Hlt].
  { exists 0, 0, 0, 0. split; [unfold MaxDivB_included; cbn; lia|vm_compute; reflexivity]. }
  split; [exact Hex|apply Hlt, Hneg].
Defined.

(** C10, the counterexample in binary64: on the run whose one visited cell
    has the estimate minus infinity, every visited estimate is negative,
    and the value that MaxDivB returns, the seed -DBL_MAX, is greater than
    every one of them: it is not the maximum of the signed estimates. *)
Lemma C10_MaxDivB_not_maximum_counterexample :
  @MaxDivB_included binary64 Runs.c4_md 0 0 0 0 /\
  (forall b k j i, @MaxDivB_included binary64 Runs.c4_md b k j i ->
     rlt (@B_CD.MaxDivB_divb_local binary64 kharma_decs 2 Runs.c4_md b k j i) r0 = true /\
     rlt (@B_CD.MaxDivB_divb_local binary64 kharma_decs 2 Runs.c4_md b k j i)
         (@B_CD.MaxDivB binary64 kharma_decs Runs.c4_md) = true).
Proof.
  split; [unfold MaxDivB_included; cbn; lia|].
  intros b k j i (Hb&Hk&Hj&Hi). cbn in Hb, Hk, Hj, Hi.
  assert (b = 0) as -> by lia. assert (k = 0) as -> by lia.
  assert (j = 0) as -> by lia. assert (i = 0) as -> by lia.
  split; vm_compute; reflexivity.
Qed.

(** ** AddSource *)

Section AddSource_facts.
Context {RA : RealArith} {D : Decs}.

Lemma AddSource_frame_refl st : AddSource_frame st st.
Proof. repeat split. Qed.

Lemma AddSource_cell_frame st0 nd lambda b k j i st :
  AddSource_frame st0 st -> AddSource_frame st0 (B_CD.AddSource_cell nd lambda b k j i st).
Proof.
  intros (Hd1&Hf1&Hd2&Hf2). unfold B_CD.AddSource_cell. cbv zeta. cbn [fst snd].
  set (body := fun (v : Z) (md : MeshData) => pack_set md "cons.B" b v k j i _).
  assert (Hloop : (forall name b' v' k' j' i', name <> "cons.B" ->
                     pack (B_CD.VLOOP body st.1) name b' v' k' j' i'
                     = pack st0.1 name b' v' k' j' i') /\
                  (forall name b' dir v' k' j' i',
                     pack_flux (B_CD.VLOOP body st.1) name b' dir v' k' j' i'
                     = pack_flux st0.1 name b' dir v' k' j' i')).
  { unfold B_CD.VLOOP.
    apply (for_range_invariant (fun md : MeshData =>
             (forall name b' v' k' j' i', name <> "cons.B" ->
                pack md name b' v' k' j' i' = pack st0.1 name b' v' k' j' i') /\
             (forall name b' dir v' k' j' i',
                pack_flux md name b' dir v' k' j' i'
                = pack_flux st0.1 name b' dir v' k' j' i'))); [|split; assumption].
    intros v md _ [Hd Hf]. unfold body. split.
    - intros name b' v' k' j' i' Hne. rewrite pack_set_name_ne by exact Hne. apply Hd, Hne.
    - intros. rewrite pack_flux_pack_set. apply Hf. }
  destruct Hloop as [Hl1 Hl2]. repeat split.
  - exact Hl1.
  - exact Hl2.
  - intros name b' v' k' j' i' Hne. cbn [snd].
    rewrite pack_set_name_ne by exact Hne. apply Hd2, Hne.
  - intros. cbn [snd]. rewrite pack_flux_pack_set. apply Hf2.
Qed.

(** AddSource writes nothing but cons.B of the state and cons.psi_cd of
    the rate of change. *)
Lemma AddSource_keeps_frame (md mdudt : MeshData) :
  AddSource_frame (md, mdudt) (B_CD.AddSource md mdudt).1.
Proof.
  unfold B_CD.AddSource. destruct (ndim md <? 2); [apply AddSource_frame_refl|].
  cbn [fst]. apply par_for_MESH_3D_invariant; [|apply AddSource_frame_refl].
  intros. apply AddSource_cell_frame. assumption.
Qed.

End AddSource_facts.

(** C2: the run that shows the defect.  On the state [c2_md] (one cell,
    cons.B = (5, 0, 0), a psi flux difference of 2 along axis 1) AddSource
    changes cons.B of the state from 5 to 7 and leaves cons.B of the rate
    of change at 0: the source of B is added to the state, not to the rate
    of change.  Whatever the arguments, cons.B of the rate of change is
    never written. *)
Theorem C2_AddSource_writes_state_B :
  (forall (RA : RealArith) (D : Decs) (md mdudt : MeshData) b v k j i,
     pack (B_CD.AddSource md mdudt).1.2 "cons.B" b v k j i = pack mdudt "cons.B" b v k j i) /\
  pack Runs.c2_md "cons.B" 0 0 0 0 0 = 5%float /\
  pack (@B_CD.AddSource binary64 kharma_decs Runs.c2_md Runs.c2_mdudt).1.1
       "cons.B" 0 0 0 0 0 = 7%float /\
  pack Runs.c2_mdudt "cons.B" 0 0 0 0 0 = 0%float /\
  pack (@B_CD.AddSource binary64 kharma_decs Runs.c2_md Runs.c2_mdudt).1.2
       "cons.B" 0 0 0 0 0 = 0%float /\
  (@B_CD.AddSource binary64 kharma_decs Runs.c2_md Runs.c2_mdudt).2 = complete.
Proof.
  split.
  - intros RA D md mdudt b v k j i.
    destruct (AddSource_keeps_frame md mdudt) as (_&_&H&_). apply H. discriminate.
  - repeat split; vm_compute; reflexivity.
Qed.

(** C6: the runs that show the defect.  On [c6_md], at the cell
    (k, j, i) = (0, 0, 1), the lapse quantity grows by 1 along axis 2; the
    axis-2 spacing is 1 at the second-axis index 0 and 2 at index 1.
    AddSource adds 0.5 to the rate of change of psi: it divides by the
    axis-2 spacing taken at the first-axis index 1, where the specification's
    formula, with the spacing at the second-axis index, gives 1.
    On [c6b_md] (uniform grid) the B that enters the psi source is the
    one that the same kernel has just overwritten (7, not the state's 5),
    so AddSource adds 7 where the formula gives 5. *)
Theorem C6_psi_source_runs :
  pack (@B_CD.AddSource binary64 kharma_decs Runs.c6_md Runs.c6_mdudt).1.2
       "cons.psi_cd" 0 0 0 0 1 = 0.5%float /\
  radd (pack Runs.c6_mdudt "cons.psi_cd" 0 0 0 0 1)
       (@spec_psi_source binary64 kharma_decs Runs.c6_md 0 0 0 1) = 1%float /\
  pack (@B_CD.AddSource binary64 kharma_decs Runs.c6b_md Runs.c6b_mdudt).1.2
       "cons.psi_cd" 0 0 0 0 0 = 7%float /\
  radd (pack Runs.c6b_mdudt "cons.psi_cd" 0 0 0 0 0)
       (@spec_psi_source binary64 kharma_decs Runs.c6b_md 0 0 0 0) = 5%float.
Proof. repeat split; vm_compute; reflexivity. Qed.

(** ** The task list of the driver *)

Lemma has_task_map (f : HARM.TaskFn) (tl : HARM.TaskList) :
  HARM.has_task f tl <-> In f (map HARM.task_fn tl).
Proof.
  unfold HARM.has_task. rewrite in_map_iff. split; intros (t&H1&H2); exists t; tauto.
Qed.

(** C7.  The task list of a stage holds the task that estimates the next
    timestep exactly when the stage is the integrator's last one, and the
    task that checks the refinement condition exactly when, in addition,
    the mesh is adaptive; on any other stage it holds neither. *)
Theorem C7_final_stage_tasks (drv : HARM.HARMDriver) (pmb : HARM.MeshBlock) (stage : Z) :
  (HARM.has_task HARM.NewDt (HARM.MakeTaskList drv pmb stage).2
   <-> stage = HARM.nstages drv) /\
  (HARM.has_task HARM.TagRefine (HARM.MakeTaskList drv pmb stage).2
   <-> stage = HARM.nstages drv /\ HARM.adaptive drv = true).
Proof.
  rewrite !has_task_map. unfold HARM.MakeTaskList. cbn.
  destruct (Z.eqb_spec stage (HARM.nstages drv)) as [Heq|Hne];
    destruct (HARM.adaptive drv); cbn;
    intuition (discriminate || congruence).
Qed.

(** ** InitializeRest *)

(** Membership in a list given in full. *)
Ltac in_list := repeat first [apply list_elem_of_here | apply list_elem_of_further].

Section Rest_facts.
Context {RA : RealArith}.
Variable parse_real : string -> Real.
Variable parse_bool : string -> bool.
Variable show_real : Real -> string.
Variable show_bool : bool -> string.
Variable pow : Real -> Real -> Real.
Variable abs : Real -> Real.
Variable default_domain : IndexDomain.
Variable default_coarse : bool.
Import Rest.

Local Abbreviation InitializeRest :=
  (Rest.InitializeRest parse_real parse_bool show_real show_bool pow abs
     default_domain default_coarse).
Local Abbreviation GetOrAddReal := (Rest.GetOrAddReal parse_real show_real).
Local Abbreviation GetOrAddBoolean := (Rest.GetOrAddBoolean parse_bool show_bool).
Local Abbreviation pin_real := (Rest.pin_real parse_real).
Local Abbreviation pin_bool := (Rest.pin_bool parse_bool).
Local Abbreviation rest_q := (Rest.rest_q parse_real).
Local Abbreviation rest_default := (Rest.rest_default parse_real parse_bool).

Implicit Types (st : State) (p : gmap (string * string) string)
  (gp : gmap string ParamValue).

(** *** Running a computation step by step *)

Lemma wp_bind {A B : Type} (m : M A) (k : A -> M B) Q st :
  wp m (fun st' oa => match oa with
                      | Some a => wp (k a) Q st'
                      | None => Q st' None
                      end) st ->
  wp (bind m k) Q st.
Proof. unfold wp, bind. destruct (m st) as [st' [a|]]; cbn; trivial. Qed.

Lemma wp_ret {A : Type} (a : A) Q st : Q st (Some a) -> wp (ret a) Q st.
Proof. trivial. Qed.

Lemma wp_GetOrAddReal block name def Q st :
  Q (set_pin st (pin_add (pin st) block name (show_real def)))
    (Some (pin_real (pin st) block name def)) ->
  wp (GetOrAddReal block name def) Q st.
Proof.
  unfold wp, Rest.GetOrAddReal, Rest.pin_add, Rest.pin_real. destruct st as [p pk r]. cbn.
  destruct (p !! (block, name)); trivial.
Qed.

Lemma wp_GetOrAddBoolean block name def Q st :
  Q (set_pin st (pin_add (pin st) block name (show_bool def)))
    (Some (pin_bool (pin st) block name def)) ->
  wp (GetOrAddBoolean block name def) Q st.
Proof.
  unfold wp, Rest.GetOrAddBoolean, Rest.pin_add, Rest.pin_bool. destruct st as [p pk r]. cbn.
  destruct (p !! (block, name)); trivial.
Qed.

(** The two lines that read the heating exponent. *)
Lemma wp_read_q {B : Type} (k : Real -> M B) Q st :
  wp (k (rest_q (pin st))) Q st ->
  wp (bind (DoesParameterExist "rest" "q")
        (fun has_q => bind (if has_q then GetReal parse_real "rest" "q" else ret r0) k)) Q st.
Proof.
  unfold wp, bind, DoesParameterExist, GetReal, ret, Rest.rest_q. cbn.
  destruct (pin st !! ("rest", "q")) as [v|] eqn:E; cbn; [rewrite E|]; trivial.
Qed.

Lemma wp_AllParams pkg Q st : Q st (packages st !! pkg) -> wp (AllParams pkg) Q st.
Proof. trivial. Qed.

Lemma wp_Add_if_absent pkg key v gp Q st :
  packages st !! pkg = Some gp ->
  Q (set_packages st (<[pkg := params_add_if_absent gp key v]> (packages st))) (Some ()) ->
  wp (Add_if_absent pkg key v) Q st.
Proof.
  intros Hpk. unfold wp, Add_if_absent, hasKey, Add, AllParams, bind, ret, throw,
    params_add_if_absent.
  destruct st as [p pk r]. cbn in *. rewrite Hpk. cbn.
  destruct (gp !! key) as [x|] eqn:E; cbn.
  - unfold set_packages. cbn. rewrite insert_id by exact Hpk. trivial.
  - rewrite ?Hpk. cbn. rewrite ?E. trivial.
Qed.

Lemma wp_has_package pkg Q st :
  Q st (Some (bool_decide (is_Some (packages st !! pkg)))) -> wp (has_package pkg) Q st.
Proof. trivial. Qed.

Lemma wp_SetReal block name x Q st :
  Q (set_pin st (<[(block, name) := show_real x]> (pin st))) (Some ()) ->
  wp (SetReal show_real block name x) Q st.
Proof. trivial. Qed.

(** *** Lookups after [GetOrAdd] and after [if (!hasKey) Add] *)

Lemma pin_add_lookup_ne p block name v key :
  key <> (block, name) -> pin_add p block name v !! key = p !! key.
Proof.
  intros Hne. unfold Rest.pin_add. destruct (p !! (block, name)); [reflexivity|].
  apply lookup_insert_ne. congruence.
Qed.

Lemma pin_real_pin_add_ne p block name v block' name' def :
  (block', name') <> (block, name) ->
  pin_real (pin_add p block name v) block' name' def = pin_real p block' name' def.
Proof. intros Hne. unfold Rest.pin_real. rewrite pin_add_lookup_ne by exact Hne. reflexivity. Qed.

Lemma pin_bool_pin_add_ne p block name v block' name' def :
  (block', name') <> (block, name) ->
  pin_bool (pin_add p block name v) block' name' def = pin_bool p block' name' def.
Proof. intros Hne. unfold Rest.pin_bool. rewrite pin_add_lookup_ne by exact Hne. reflexivity. Qed.

Lemma rest_q_pin_add_ne p block name v :
  ("rest", "q") <> (block, name) -> rest_q (pin_add p block name v) = rest_q p.
Proof. intros Hne. unfold Rest.rest_q. rewrite pin_add_lookup_ne by exact Hne. reflexivity. Qed.

Lemma params_add_if_absent_eq gp key v :
  params_add_if_absent gp key v !! key
  = Some (match gp !! key with Some x => x | None => v end).
Proof.
  unfold params_add_if_absent.
  destruct (gp !! key) eqn:E; [exact E|apply lookup_insert_eq].
Qed.

Lemma params_add_if_absent_ne gp key v key' :
  key' <> key -> params_add_if_absent gp key v !! key' = gp !! key'.
Proof.
  intros Hne. unfold params_add_if_absent.
  destruct (gp !! key); [reflexivity|].
  apply lookup_insert_ne. congruence.
Qed.

(** *** The part of InitializeRest up to the five guarded [Add] calls *)

(** What follows them, with the values read so far. *)
Local Abbreviation rest_tail set_tlim u0 rho0 q dyntimes :=
  (bind (has_package "Electrons") (fun electrons =>
   bind (if electrons then
           bind (Param_Real "Electrons" "fel_0") (fun fel0 =>
           bind (Param_Real "Electrons" "gamma_e") (fun game =>
           Add_if_absent "GRMHD" "ke0"
             (PReal (rmul (rmul (rmul (rsub game r1) fel0) u0) (pow rho0 (rneg game))))))
         else ret ()) (fun _ =>
   bind (match tlim_override abs set_tlim q dyntimes u0 with
         | Some tlim => SetReal show_real "parthenon/time" "tlim" tlim
         | None => ret ()
         end) (fun _ =>
   bind (SetRest default_domain default_coarse) (fun _ => ret complete))))).

Lemma InitializeRest_head st gp Q :
  packages st !! "GRMHD" = Some gp ->
  wp (rest_tail (pin_bool (pin st) "rest" "set_tlim" false)
                (pin_real (pin st) "rest" "u0" r1)
                (pin_real (pin st) "rest" "rho0" r1)
                (rest_q (pin st))
                (pin_real (pin st) "rest" "dyntimes" rhalf)) Q
     (set_packages (set_pin st (pin_after_GetOrAdds show_real show_bool (pin st)))
        (<["GRMHD" := params_after_Adds parse_real parse_bool (pin st) gp]> (packages st))) ->
  wp InitializeRest Q st.
Proof.
  intros HG Htail. unfold Rest.InitializeRest.
  apply wp_bind, wp_GetOrAddBoolean.
  apply wp_bind, wp_GetOrAddReal.
  apply wp_bind, wp_GetOrAddReal.
  apply wp_bind, wp_GetOrAddReal.
  apply wp_read_q.
  apply wp_bind, wp_GetOrAddBoolean.
  apply wp_bind, wp_GetOrAddReal.
  apply wp_bind, wp_AllParams. cbn [packages set_pin pin]. rewrite HG.
  apply wp_bind. eapply wp_Add_if_absent; [cbn; exact HG|].
  apply wp_bind. eapply wp_Add_if_absent; [cbn; apply lookup_insert_eq|].
  apply wp_bind. eapply wp_Add_if_absent; [cbn; apply lookup_insert_eq|].
  apply wp_bind. eapply wp_Add_if_absent; [cbn; apply lookup_insert_eq|].
  apply wp_bind. eapply wp_Add_if_absent; [cbn; apply lookup_insert_eq|].
  cbn [packages set_pin set_packages pin rc].
  rewrite !insert_insert_eq.
  rewrite !pin_real_pin_add_ne, !rest_q_pin_add_ne, !pin_bool_pin_add_ne by congruence.
  exact Htail.
Qed.

(** *** What the rest of InitializeRest keeps *)

Section Keeps.
Variable K : State -> Prop.
Hypothesis K_rc : forall st r, K st -> K (set_rc st r).
Hypothesis K_ke0 : forall st gp v,
  packages st !! "GRMHD" = Some gp -> K st ->
  K (set_packages st (<["GRMHD" := params_add_if_absent gp "ke0" v]> (packages st))).

Local Abbreviation keepsK := (fun (st' : State) (_ : option _) => K st').

Lemma keeps_bind {A B : Type} (m : M A) (k : A -> M B) st :
  wp m keepsK st -> (forall a st', K st' -> wp (k a) keepsK st') ->
  wp (bind m k) keepsK st.
Proof.
  intros Hm Hk. apply wp_bind. unfold wp in *.
  destruct (m st) as [st' [a|]]; cbn in *; [apply Hk|]; exact Hm.
Qed.

Lemma keeps_Param_Real pkg key st : K st -> wp (Param_Real pkg key) keepsK st.
Proof.
  intros H. unfold wp, Param_Real, bind, AllParams, ret, throw.
  destruct (packages st !! pkg) as [p|]; cbn; [|exact H].
  destruct (p !! key) as [[]|]; exact H.
Qed.

Lemma keeps_Param_bool pkg key st : K st -> wp (Param_bool pkg key) keepsK st.
Proof.
  intros H. unfold wp, Param_bool, bind, AllParams, ret, throw.
  destruct (packages st !! pkg) as [p|]; cbn; [|exact H].
  destruct (p !! key) as [[]|]; exact H.
Qed.

Lemma keeps_modify_rc f st : K st -> wp (modify_rc f) keepsK st.
Proof. intros H. apply K_rc, H. Qed.

Lemma keeps_SetRest domain coarse st : K st -> wp (SetRest domain coarse) keepsK st.
Proof.
  intros H. unfold SetRest.
  repeat (apply keeps_bind;
          [first [apply keeps_Param_Real | apply keeps_Param_bool]; assumption
          |intros ? ? ?]).
  apply keeps_bind; [assumption|intros pmb st8 H8].
  apply keeps_bind; [apply keeps_modify_rc, H8|intros _ st9 H9].
  apply keeps_bind; [exact H9|intros electrons st10 H10].
  apply keeps_bind; [|intros; assumption].
  destruct electrons; [|exact H10].
  apply keeps_bind; [apply keeps_Param_Real, H10|intros game st11 H11].
  apply keeps_bind; [apply keeps_Param_Real, H11|intros ke0 st12 H12].
  apply keeps_modify_rc, H12.
Qed.

Lemma keeps_Add_ke0 v st : K st -> wp (Add_if_absent "GRMHD" "ke0" v) keepsK st.
Proof.
  intros H. destruct (packages st !! "GRMHD") as [gp|] eqn:HG.
  - eapply wp_Add_if_absent; [exact HG|]. apply K_ke0; assumption.
  - unfold wp, Add_if_absent, hasKey, bind, AllParams. rewrite HG. exact H.
Qed.

Lemma keeps_rest_tail set_tlim u0 rho0 q dyntimes st :
  (forall st x, tlim_override abs set_tlim q dyntimes u0 = Some x -> K st ->
                K (set_pin st (<[("parthenon/time", "tlim") := show_real x]> (pin st)))) ->
  K st ->
  wp (rest_tail set_tlim u0 rho0 q dyntimes) keepsK st.
Proof.
  intros K_tlim H.
  apply keeps_bind; [exact H|intros electrons st1 H1].
  apply keeps_bind.
  { destruct electrons; [|exact H1].
    apply keeps_bind; [apply keeps_Param_Real, H1|intros fel0 st2 H2].
    apply keeps_bind; [apply keeps_Param_Real, H2|intros game st3 H3].
    apply keeps_Add_ke0, H3. }
  intros _ st4 H4. apply keeps_bind.
  { destruct (tlim_override abs set_tlim q dyntimes u0) as [x|] eqn:E; [|exact H4].
    apply wp_SetReal, (K_tlim _ _ eq_refl), H4. }
  intros _ st5 H5. apply keeps_bind; [apply keeps_SetRest, H5|intros; assumption].
Qed.

End Keeps.

Lemma params_after_Adds_lookup p gp key :
  key ∈ rest_keys ->
  params_after_Adds parse_real parse_bool p gp !! key
  = Some (match gp !! key with Some v => v | None => rest_default p key end).
Proof.
  intros Hin. unfold rest_keys in Hin. unfold params_after_Adds.
  repeat (apply elem_of_cons in Hin as [->|Hin]);
    [| | | | |apply elem_of_nil in Hin; contradiction];
    rewrite ?params_add_if_absent_ne by discriminate;
    rewrite params_add_if_absent_eq;
    rewrite ?params_add_if_absent_ne by discriminate; reflexivity.
Qed.

(** C8.  When the block has the package GRMHD, InitializeRest leaves its
    parameter table with each of the keys rho0, v0, u0, q and
    context_boundaries holding the value it held before the call when the
    key was there, and the value read from the input file (the default
    when the input file has none) when the key was absent. *)
Theorem C8_InitializeRest_adds_only_absent_keys st gp :
  packages st !! "GRMHD" = Some gp ->
  exists gp',
    packages (InitializeRest st).1 !! "GRMHD" = Some gp' /\
    forall key, key ∈ rest_keys ->
      gp' !! key = Some (match gp !! key with
                         | Some v => v
                         | None => rest_default (pin st) key
                         end).
Proof.
  intros HG.
  set (K := fun st' : State => exists gp',
              packages st' !! "GRMHD" = Some gp' /\
              forall key, key ∈ rest_keys ->
                gp' !! key = Some (match gp !! key with
                                   | Some v => v
                                   | None => rest_default (pin st) key
                                   end)).
  change (wp InitializeRest (fun st' _ => K st') st).
  apply (InitializeRest_head st gp _ HG).
  apply keeps_rest_tail.
  - intros st' r H. exact H.
  - intros st' gp' v HG' (gp''&H1&H2). exists (params_add_if_absent gp' "ke0" v).
    split; [apply lookup_insert_eq|].
    intros key Hin. rewrite params_add_if_absent_ne.
    + rewrite H1 in HG'. injection HG' as <-. apply H2, Hin.
    + intros ->. unfold rest_keys in Hin.
      repeat (apply elem_of_cons in Hin as [Hin|Hin]; [discriminate|]).
      apply elem_of_nil in Hin. contradiction.
  - intros st' x _ H. exact H.
  - exists (params_after_Adds parse_real parse_bool (pin st) gp).
    split; [apply lookup_insert_eq|]. apply params_after_Adds_lookup.
Qed.

(** *** The time limit *)

Lemma tlim_override_guard set_tlim q dyntimes u0 x :
  tlim_override abs set_tlim q dyntimes u0 = Some x -> rne q r0 = true.
Proof.
  unfold tlim_override. destruct set_tlim; cbn; [|discriminate].
  destruct (rne q r0); [reflexivity|discriminate].
Qed.

Lemma pin_after_GetOrAdds_lookup p key :
  key.1 <> "rest" ->
  pin_after_GetOrAdds show_real show_bool p !! key = p !! key.
Proof.
  intros Hne. unfold pin_after_GetOrAdds.
  rewrite !pin_add_lookup_ne; [reflexivity|..]; intros ->; apply Hne; reflexivity.
Qed.

(** Without the package GRMHD, InitializeRest throws after the seven
    [GetOrAdd] calls. *)
Lemma InitializeRest_no_GRMHD st :
  packages st !! "GRMHD" = None ->
  InitializeRest st = (set_pin st (pin_after_GetOrAdds show_real show_bool (pin st)), None).
Proof.
  intros HG.
  enough (wp InitializeRest
            (fun st' oa => (st', oa)
               = (set_pin st (pin_after_GetOrAdds show_real show_bool (pin st)), None)) st)
    as H by (unfold wp in H; destruct (InitializeRest st); exact H).
  unfold Rest.InitializeRest.
  apply wp_bind, wp_GetOrAddBoolean.
  apply wp_bind, wp_GetOrAddReal.
  apply wp_bind, wp_GetOrAddReal.
  apply wp_bind, wp_GetOrAddReal.
  apply wp_read_q.
  apply wp_bind, wp_GetOrAddBoolean.
  apply wp_bind, wp_GetOrAddReal.
  apply wp_bind, wp_AllParams. cbn [packages set_pin pin]. rewrite HG.
  reflexivity.
Qed.

Lemma InitializeRest_keeps_tlim st :
  rne (rest_q (pin st)) r0 = false ->
  pin (InitializeRest st).1 !! ("parthenon/time", "tlim")
  = pin st !! ("parthenon/time", "tlim").
Proof.
  intros Hq. destruct (packages st !! "GRMHD") as [gp|] eqn:HG.
  - set (K := fun st' : State =>
                pin st' !! ("parthenon/time", "tlim") = pin st !! ("parthenon/time", "tlim")).
    change (wp InitializeRest (fun st' _ => K st') st).
    apply (InitializeRest_head st gp _ HG).
    apply keeps_rest_tail.
    + intros st' r H. exact H.
    + intros st' gp' v _ H. exact H.
    + intros st' x Hx _. apply tlim_override_guard in Hx. congruence.
    + unfold K. cbn [pin set_packages set_pin].
      apply pin_after_GetOrAdds_lookup. discriminate.
  - rewrite (InitializeRest_no_GRMHD st HG). cbn [fst pin set_pin].
    apply pin_after_GetOrAdds_lookup. discriminate.
Qed.

(** *** InitializeRest returns *)

Lemma wp_Param_Real pkg key (pp : gmap string ParamValue) Q st :
  packages st !! pkg = Some pp -> is_real (pp !! key) = true ->
  (forall r, pp !! key = Some (PReal r) -> Q st (Some r)) ->
  wp (Param_Real pkg key) Q st.
Proof.
  intros Hpk Hreal HQ. unfold wp, Param_Real, bind, AllParams. cbn. rewrite Hpk.
  destruct (pp !! key) as [[r| |]|] eqn:E; try discriminate. apply HQ. reflexivity.
Qed.

Lemma wp_Param_bool pkg key (pp : gmap string ParamValue) Q st :
  packages st !! pkg = Some pp -> is_bool (pp !! key) = true ->
  (forall b, pp !! key = Some (PBool b) -> Q st (Some b)) ->
  wp (Param_bool pkg key) Q st.
Proof.
  intros Hpk Hbool HQ. unfold wp, Param_bool, bind, AllParams. cbn. rewrite Hpk.
  destruct (pp !! key) as [[| b|]|] eqn:E; try discriminate. apply HQ. reflexivity.
Qed.

Local Abbreviation returns_complete := (fun (_ : State) (oa : option TaskStatus) => oa = Some complete).

Lemma SetRest_returns domain coarse st (gp glob : gmap string ParamValue) :
  packages st !! "GRMHD" = Some gp ->
  packages st !! "Globals" = Some glob ->
  is_real (gp !! "u0") = true -> is_real (gp !! "v0") = true ->
  is_real (gp !! "rho0") = true -> is_real (gp !! "q") = true ->
  is_bool (gp !! "context_boundaries") = true ->
  is_real (glob !! "time") = true -> is_real (glob !! "dt_last") = true ->
  (packages st !! "Electrons" = None \/
   exists ep, packages st !! "Electrons" = Some ep /\
              is_real (ep !! "gamma_e") = true /\ is_real (gp !! "ke0") = true) ->
  wp (SetRest domain coarse) returns_complete st.
Proof.
  intros HG HGl Hu0 Hv0 Hrho0 Hq Hcb Htime Hdt He. unfold SetRest.
  apply wp_bind. apply (wp_Param_Real _ _ gp); [assumption..|intros u0 _].
  apply wp_bind. apply (wp_Param_Real _ _ gp); [assumption..|intros v0 _].
  apply wp_bind. apply (wp_Param_Real _ _ gp); [assumption..|intros rho0 _].
  apply wp_bind. apply (wp_Param_Real _ _ gp); [assumption..|intros q _].
  apply wp_bind. apply (wp_Param_bool _ _ gp); [assumption..|intros cb _].
  apply wp_bind. apply (wp_Param_Real _ _ glob); [assumption..|intros tt _].
  apply wp_bind. apply (wp_Param_Real _ _ glob); [assumption..|intros dt _].
  apply wp_bind. unfold wp at 1, get_rc. cbn [fst snd].
  apply wp_bind. unfold wp at 1, modify_rc. cbn [fst snd].
  apply wp_bind, wp_has_package. cbn [packages set_rc].
  destruct He as [He|(ep&He&Hgame&Hke0)]; rewrite He.
  - rewrite bool_decide_eq_false_2 by (intros [? ?]; discriminate).
    apply wp_bind, wp_ret. reflexivity.
  - rewrite bool_decide_eq_true_2 by (eexists; reflexivity).
    apply wp_bind. apply wp_bind.
    apply (wp_Param_Real _ _ ep); [assumption..|intros game _].
    apply wp_bind. apply (wp_Param_Real _ _ gp); [assumption..|intros ke0 _].
    unfold wp at 1, modify_rc. cbn [fst snd]. reflexivity.
Qed.

Lemma wp_mono {A : Type} (m : M A) (Q Q' : State -> option A -> Prop) st :
  wp m Q st -> (forall st' oa, Q st' oa -> Q' st' oa) -> wp m Q' st.
Proof. unfold wp. intros H HQ. apply HQ, H. Qed.

Lemma params_after_Adds_real p gp key :
  key ∈ ["rho0"; "v0"; "u0"; "q"] ->
  real_or_absent (gp !! key) = true ->
  is_real (params_after_Adds parse_real parse_bool p gp !! key) = true.
Proof.
  intros Hin Hok. rewrite params_after_Adds_lookup.
  - destruct (gp !! key) as [[]|]; try discriminate; try reflexivity.
    repeat (apply elem_of_cons in Hin as [->|Hin]); try reflexivity.
    apply elem_of_nil in Hin. contradiction.
  - unfold rest_keys. repeat (apply elem_of_cons in Hin as [->|Hin]); try in_list.
    apply elem_of_nil in Hin. contradiction.
Qed.

Lemma params_after_Adds_bool p gp :
  bool_or_absent (gp !! "context_boundaries") = true ->
  is_bool (params_after_Adds parse_real parse_bool p gp !! "context_boundaries") = true.
Proof.
  intros Hok. rewrite params_after_Adds_lookup by (unfold rest_keys; in_list).
  destruct (gp !! "context_boundaries") as [[]|]; try discriminate; reflexivity.
Qed.

Lemma params_after_Adds_other p gp key :
  key ∉ rest_keys -> params_after_Adds parse_real parse_bool p gp !! key = gp !! key.
Proof.
  intros Hnotin. unfold params_after_Adds.
  rewrite !params_add_if_absent_ne; [reflexivity|..];
    intros ->; apply Hnotin; unfold rest_keys; in_list.
Qed.

Lemma InitializeRest_returns st :
  rest_env_ok st -> (InitializeRest st).2 = Some complete.
Proof.
  intros (gp&glob&HG&HGl&Hrho0&Hv0&Hu0&Hq&Hcb&Htime&Hdt&He).
  change (wp InitializeRest returns_complete st).
  apply (InitializeRest_head st gp _ HG).
  set (p := pin st).
  set (gp5 := params_after_Adds parse_real parse_bool p gp).
  assert (H5u0 : is_real (gp5 !! "u0") = true)
    by (apply params_after_Adds_real; [in_list|assumption]).
  assert (H5v0 : is_real (gp5 !! "v0") = true)
    by (apply params_after_Adds_real; [in_list|assumption]).
  assert (H5rho0 : is_real (gp5 !! "rho0") = true)
    by (apply params_after_Adds_real; [in_list|assumption]).
  assert (H5q : is_real (gp5 !! "q") = true)
    by (apply params_after_Adds_real; [in_list|assumption]).
  assert (H5cb : is_bool (gp5 !! "context_boundaries") = true)
    by (apply params_after_Adds_bool; assumption).
  apply wp_bind, wp_has_package. cbn [packages set_packages].
  rewrite lookup_insert_ne by discriminate.
  destruct He as [He|(ep&He&Hfel&Hgame&Hke0)]; rewrite He.
  - rewrite bool_decide_eq_false_2 by (intros [? ?]; discriminate).
    apply wp_bind, wp_ret. apply wp_bind.
    destruct (tlim_override _ _ _ _ _); [apply wp_SetReal|apply wp_ret];
      (apply wp_bind;
       eapply wp_mono;
       [apply (SetRest_returns _ _ _ gp5 glob); cbn [packages set_packages set_pin];
        rewrite ?lookup_insert_eq, ?lookup_insert_ne by discriminate;
        try assumption; try reflexivity; left; exact He
       |intros st' oa ->; reflexivity]).
  - rewrite bool_decide_eq_true_2 by (eexists; reflexivity).
    apply wp_bind. apply wp_bind.
    apply (wp_Param_Real _ _ ep);
      [cbn [packages set_packages]; rewrite lookup_insert_ne by discriminate; exact He
      |exact Hfel|intros fel0 _].
    apply wp_bind.
    apply (wp_Param_Real _ _ ep);
      [cbn [packages set_packages]; rewrite lookup_insert_ne by discriminate; exact He
      |exact Hgame|intros game _].
    eapply wp_Add_if_absent; [cbn [packages set_packages]; apply lookup_insert_eq|].
    cbn [packages set_packages set_pin pin rc]. rewrite insert_insert_eq.
    match goal with
    | |- context [params_add_if_absent gp5 "ke0" ?v] =>
        set (gp6 := params_add_if_absent gp5 "ke0" v)
    end.
    assert (H6 : forall key, key <> "ke0" -> gp6 !! key = gp5 !! key)
      by (intros key Hne; apply params_add_if_absent_ne, Hne).
    assert (H6ke0 : is_real (gp6 !! "ke0") = true).
    { unfold gp6. rewrite params_add_if_absent_eq. unfold gp5.
      rewrite params_after_Adds_other
        by (unfold rest_keys; intros Hin;
            repeat (apply elem_of_cons in Hin as [Hin|Hin]; [discriminate|]);
            apply elem_of_nil in Hin; contradiction).
      destruct (gp !! "ke0") as [[]|]; try discriminate; reflexivity. }
    apply wp_bind.
    destruct (tlim_override _ _ _ _ _); [apply wp_SetReal|apply wp_ret];
      (apply wp_bind;
       eapply wp_mono;
       [apply (SetRest_returns _ _ _ gp6 glob); cbn [packages set_packages set_pin];
        rewrite ?lookup_insert_eq, ?lookup_insert_ne by discriminate;
        rewrite ?H6 by discriminate;
        try assumption; try reflexivity;
        right; exists ep; split; [exact He|split; assumption]
       |intros st' oa ->; reflexivity]).
Qed.

(** C9.  The time limit dyntimes * u0 / abs(q) is computed only under the
    guard q != 0; the heating exponent is 0 when the input file has no
    rest/q; when it is 0 the entry parthenon/time/tlim of the input file is
    as it was before the call; and InitializeRest returns
    TaskStatus::complete whenever the packages are such that no lookup
    throws, whatever the heating exponent, so also when it is 0. *)
Theorem C9_InitializeRest_guards_division st :
  (forall set_tlim q dyntimes u0 x,
     tlim_override abs set_tlim q dyntimes u0 = Some x -> rne q r0 = true) /\
  (pin st !! ("rest", "q") = None -> rest_q (pin st) = r0) /\
  (rne (rest_q (pin st)) r0 = false ->
   (forall set_tlim dyntimes u0,
      tlim_override abs set_tlim (rest_q (pin st)) dyntimes u0 = None) /\
   pin (InitializeRest st).1 !! ("parthenon/time", "tlim")
   = pin st !! ("parthenon/time", "tlim")) /\
  (rest_env_ok st -> (InitializeRest st).2 = Some complete).
Proof.
  split; [apply tlim_override_guard|].
  split; [intros Hq; unfold Rest.rest_q; rewrite Hq; reflexivity|].
  split; [|apply InitializeRest_returns].
  intros Hq. split; [|apply InitializeRest_keeps_tlim, Hq].
  intros set_tlim dyntimes u0.
  destruct (tlim_override abs set_tlim (rest_q (pin st)) dyntimes u0) as [x|] eqn:E;
    [|reflexivity].
  apply tlim_override_guard in E. congruence.
Qed.

End Rest_facts.

Lemma C8_InitializeRest_adds_only_absent_keys_witness :
  exists gp',
    Rest.packages (Runs.run_InitializeRest Runs.c8_st).1 !! "GRMHD" = Some gp' /\
    forall key, key ∈ Rest.rest_keys ->
      gp' !! key = Some (match Runs.c8_gp !! key with
                         | Some v => v
                         | None => Rest.rest_default (RA := binary64)
                                     Runs.run_parse_real Runs.run_parse_bool
                                     (Rest.pin Runs.c8_st) key
                         end).
Proof.
  apply (C8_InitializeRest_adds_only_absent_keys (RA := binary64) Runs.run_parse_real Runs.run_parse_bool
           Runs.run_show_real Runs.run_show_bool Runs.run_pow PrimFloat.abs interior false
           Runs.c8_st Runs.c8_gp).
  vm_compute. reflexivity.
Defined.

Lemma C9_InitializeRest_guards_division_witness :
  Rest.pin (Runs.run_InitializeRest Runs.c8_st).1 !! ("parthenon/time", "tlim")
  = Rest.pin Runs.c8_st !! ("parthenon/time", "tlim") /\
  (Runs.run_InitializeRest Runs.c8_st).2 = Some complete.
Proof.
  pose proof (C9_InitializeRest_guards_division (RA := binary64) Runs.run_parse_real Runs.run_parse_bool
                Runs.run_show_real Runs.run_show_bool Runs.run_pow PrimFloat.abs
                interior false Runs.c8_st) as (_&_&Htlim&Hret).
  split.
  - apply Htlim. vm_compute. reflexivity.
  - apply Hret. exists Runs.c8_gp, Runs.c8_globals.
    repeat split; try (vm_compute; reflexivity).
    left. vm_compute. reflexivity.
Defined.

(** * Further properties of the code *)

(** ** Loop nests as folds over their cells *)

Section Folds.
Context {St A : Type}.
Implicit Types (body : A -> St -> St) (st : St) (l : list A).

Lemma fold_left_bind {B : Type} (f : St -> B -> St) (g : A -> list B) l st :
  fold_left f (l ≫= g) st = fold_left (fun st a => fold_left f (g a) st) l st.
Proof.
  revert st. induction l as [|a l IH]; intros st; [reflexivity|].
  rewrite bind_cons, fold_left_app. cbn. apply IH.
Qed.

Lemma fold_keeps (P : St -> Prop) body l st :
  (forall n st, n ∈ l -> P st -> P (body n st)) ->
  P st -> P (fold_left (fun st n => body n st) l st).
Proof.
  revert st. induction l as [|a l IH]; intros st Hbody HP; [exact HP|].
  cbn. apply IH.
  - intros n st' Hn. apply Hbody. right. exact Hn.
  - apply Hbody; [left|exact HP].
Qed.

(** When no element occurs twice, iteration [n] turns [P n] into [Q n], and
    the other iterations leave both alone, every [Q] holds at the end. *)
Lemma fold_establish_once (I : St -> Prop) (P Q : A -> St -> Prop) body l st :
  NoDup l ->
  (forall n st, n ∈ l -> I st -> I (body n st)) ->
  (forall n st, n ∈ l -> I st -> P n st -> Q n (body n st)) ->
  (forall n m st, n ∈ l -> m <> n -> I st -> P m st -> P m (body n st)) ->
  (forall n m st, n ∈ l -> m <> n -> I st -> Q m st -> Q m (body n st)) ->
  I st -> (forall m, m ∈ l -> P m st) ->
  forall m, m ∈ l -> Q m (fold_left (fun st n => body n st) l st).
Proof.
  intros Hnd. revert st.
  induction Hnd as [|a l Ha Hnd IH]; intros st HI Hest HP HQ Hst HPst m Hm.
  - inversion Hm.
  - cbn. apply elem_of_cons in Hm as [->|Hm].
    + enough (I (fold_left (fun st n => body n st) l (body a st)) /\
              Q a (fold_left (fun st n => body n st) l (body a st))) as [_ H] by exact H.
      apply (fold_keeps (fun st => I st /\ Q a st)).
      * intros n st' Hn [? ?]. split.
        -- apply HI; [right; exact Hn|assumption].
        -- apply HQ; [right; exact Hn| |assumption..]. intros ->. contradiction.
      * split; [apply HI|apply Hest]; try assumption; try left. apply HPst. left.
    + apply IH; try assumption.
      * intros n st' Hn. apply HI. right. exact Hn.
      * intros n st' Hn. apply Hest. right. exact Hn.
      * intros n m' st' Hn. apply HP. right. exact Hn.
      * intros n m' st' Hn. apply HQ. right. exact Hn.
      * apply HI; [left|exact Hst].
      * intros m' Hm'. apply HP; [left| |exact Hst|apply HPst; right; exact Hm'].
        intros ->. contradiction.
Qed.

End Folds.

Lemma irange_empty (r : IndexRange) : e r < s r -> irange r = [].
Proof. intros H. unfold irange. apply seqZ_nil. lia. Qed.

Lemma for_range_ext {St : Type} (r : IndexRange) (body body' : Z -> St -> St) st :
  (forall n st, s r <= n <= e r -> body n st = body' n st) ->
  for_range r body st = for_range r body' st.
Proof.
  intros H. unfold for_range.
  assert (Hl : forall n, n ∈ irange r -> s r <= n <= e r) by (intros n; apply elem_of_irange).
  revert st Hl. generalize (irange r). intros l. induction l as [|a l IH]; intros st Hl.
  - reflexivity.
  - cbn. rewrite (H a st) by (apply Hl; left). apply IH. intros n Hn. apply Hl. right. exact Hn.
Qed.

Lemma elem_of_cells3 kb jb ib k j i :
  (k, j, i) ∈ cells3 kb jb ib <->
  s kb <= k <= e kb /\ s jb <= j <= e jb /\ s ib <= i <= e ib.
Proof.
  unfold cells3. rewrite list_elem_of_bind. split.
  - intros (k'&Hin&Hk). apply list_elem_of_bind in Hin as (j'&Hin&Hj).
    apply list_elem_of_bind in Hin as (i'&Hin&Hi).
    apply list_elem_of_singleton in Hin. injection Hin as -> -> ->.
    rewrite <- !elem_of_irange. tauto.
  - intros (Hk&Hj&Hi). exists k. split; [|apply elem_of_irange, Hk].
    apply list_elem_of_bind. exists j. split; [|apply elem_of_irange, Hj].
    apply list_elem_of_bind. exists i. split; [|apply elem_of_irange, Hi].
    apply list_elem_of_singleton. reflexivity.
Qed.

Lemma NoDup_cells3 kb jb ib : NoDup (cells3 kb jb ib).
Proof.
  unfold cells3. apply NoDup_bind; [| |apply NoDup_seqZ].
  - intros k1 k2 c _ _ H1 H2.
    apply list_elem_of_bind in H1 as (j1&H1&_). apply list_elem_of_bind in H1 as (i1&H1&_).
    apply list_elem_of_bind in H2 as (j2&H2&_). apply list_elem_of_bind in H2 as (i2&H2&_).
    apply list_elem_of_singleton in H1, H2. congruence.
  - intros k _. apply NoDup_bind; [| |apply NoDup_seqZ].
    + intros j1 j2 c _ _ H1 H2.
      apply list_elem_of_bind in H1 as (i1&H1&_). apply list_elem_of_bind in H2 as (i2&H2&_).
      apply list_elem_of_singleton in H1, H2. congruence.
    + intros j _. apply NoDup_bind; [| |apply NoDup_seqZ].
      * intros i1 i2 c _ _ H1 H2. apply list_elem_of_singleton in H1, H2. congruence.
      * intros i _. apply NoDup_singleton.
Qed.

Lemma elem_of_cells4 bb kb jb ib b k j i :
  (b, k, j, i) ∈ cells4 bb kb jb ib <->
  s bb <= b <= e bb /\ s kb <= k <= e kb /\ s jb <= j <= e jb /\ s ib <= i <= e ib.
Proof.
  unfold cells4. rewrite list_elem_of_bind. split.
  - intros (b'&Hin&Hb). apply list_elem_of_bind in Hin as ([[k' j'] i']&Hin&Hc).
    apply list_elem_of_singleton in Hin. cbn in Hin. injection Hin as -> -> -> ->.
    apply elem_of_cells3 in Hc. apply elem_of_irange in Hb. tauto.
  - intros (Hb&Hc). exists b. split; [|apply elem_of_irange, Hb].
    apply list_elem_of_bind. exists (k, j, i). split; [|apply elem_of_cells3, Hc].
    apply list_elem_of_singleton. reflexivity.
Qed.

Lemma NoDup_cells4 bb kb jb ib : NoDup (cells4 bb kb jb ib).
Proof.
  unfold cells4. apply NoDup_bind; [| |apply NoDup_seqZ].
  - intros b1 b2 c _ _ H1 H2.
    apply list_elem_of_bind in H1 as (c1&H1&_). apply list_elem_of_bind in H2 as (c2&H2&_).
    apply list_elem_of_singleton in H1, H2. congruence.
  - intros b _. apply NoDup_bind; [| |apply NoDup_cells3].
    + intros [[k1 j1] i1] [[k2 j2] i2] c _ _ H1 H2.
      apply list_elem_of_singleton in H1, H2. cbn in H1, H2. congruence.
    + intros c _. apply NoDup_singleton.
Qed.

Lemma fold_left_ext {St A : Type} (f g : St -> A -> St) (l : list A) st :
  (forall st a, f st a = g st a) -> fold_left f l st = fold_left g l st.
Proof.
  intros H. revert st. induction l as [|a l IH]; intros st; [reflexivity|].
  cbn. rewrite H. apply IH.
Qed.

Lemma par_for_3D_cells {St : Type} kb jb ib (body : Z -> Z -> Z -> St -> St) st :
  par_for_3D kb jb ib body st
  = fold_left (fun st c => body c.1.1 c.1.2 c.2 st) (cells3 kb jb ib) st.
Proof.
  unfold par_for_3D, for_range, cells3.
  rewrite fold_left_bind. apply fold_left_ext. intros st1 k.
  rewrite fold_left_bind. apply fold_left_ext. intros st2 j.
  rewrite fold_left_bind. apply fold_left_ext. intros st3 i.
  reflexivity.
Qed.

Lemma par_for_MESH_3D_cells {St : Type} bb kb jb ib
    (body : Z -> Z -> Z -> Z -> St -> St) st :
  par_for_MESH_3D bb kb jb ib body st
  = fold_left (fun st c => body c.1.1.1 c.1.1.2 c.1.2 c.2 st) (cells4 bb kb jb ib) st.
Proof.
  unfold par_for_MESH_3D, for_range at 1, cells4.
  rewrite fold_left_bind. apply fold_left_ext. intros st1 b.
  rewrite par_for_3D_cells, fold_left_bind. apply fold_left_ext. intros st2 c.
  reflexivity.
Qed.

(** The nest visits every cell once: when the kernel at a cell turns [P]
    into [Q] there and no kernel touches another cell's [P] or [Q], every
    cell of the ranges has [Q] at the end. *)
Lemma par_for_MESH_3D_once {St : Type} (I : St -> Prop)
    (P Q : Z * Z * Z * Z -> St -> Prop) bb kb jb ib
    (body : Z -> Z -> Z -> Z -> St -> St) st :
  (forall b k j i st, I st -> I (body b k j i st)) ->
  (forall b k j i st, I st -> P (b, k, j, i) st -> Q (b, k, j, i) (body b k j i st)) ->
  (forall b k j i c st, c <> (b, k, j, i) -> I st -> P c st -> P c (body b k j i st)) ->
  (forall b k j i c st, c <> (b, k, j, i) -> I st -> Q c st -> Q c (body b k j i st)) ->
  I st ->
  (forall c, c ∈ cells4 bb kb jb ib -> P c st) ->
  forall b k j i,
    s bb <= b <= e bb -> s kb <= k <= e kb -> s jb <= j <= e jb -> s ib <= i <= e ib ->
    Q (b, k, j, i) (par_for_MESH_3D bb kb jb ib body st).
Proof.
  intros HI Hest HP HQ Hst HPst b k j i Hb Hk Hj Hi.
  rewrite par_for_MESH_3D_cells.
  apply (fold_establish_once I P Q
           (fun c st => body c.1.1.1 c.1.1.2 c.1.2 c.2 st)); try assumption.
  - apply NoDup_cells4.
  - intros [[[b' k'] j'] i'] st' _. apply HI.
  - intros [[[b' k'] j'] i'] st' _. apply Hest.
  - intros [[[b' k'] j'] i'] c st' _. apply HP.
  - intros [[[b' k'] j'] i'] c st' _. apply HQ.
  - apply elem_of_cells4. tauto.
Qed.

Lemma par_for_3D_once {St : Type} (I : St -> Prop)
    (P Q : Z * Z * Z -> St -> Prop) kb jb ib
    (body : Z -> Z -> Z -> St -> St) st :
  (forall k j i st, I st -> I (body k j i st)) ->
  (forall k j i st, I st -> P (k, j, i) st -> Q (k, j, i) (body k j i st)) ->
  (forall k j i c st, c <> (k, j, i) -> I st -> P c st -> P c (body k j i st)) ->
  (forall k j i c st, c <> (k, j, i) -> I st -> Q c st -> Q c (body k j i st)) ->
  I st ->
  (forall c, c ∈ cells3 kb jb ib -> P c st) ->
  forall k j i,
    s kb <= k <= e kb -> s jb <= j <= e jb -> s ib <= i <= e ib ->
    Q (k, j, i) (par_for_3D kb jb ib body st).
Proof.
  intros HI Hest HP HQ Hst HPst k j i Hk Hj Hi.
  rewrite par_for_3D_cells.
  apply (fold_establish_once I P Q (fun c st => body c.1.1 c.1.2 c.2 st)); try assumption.
  - apply NoDup_cells3.
  - intros [[k' j'] i'] st' _. apply HI.
  - intros [[k' j'] i'] st' _. apply Hest.
  - intros [[k' j'] i'] c st' _. apply HP.
  - intros [[k' j'] i'] c st' _. apply HQ.
  - apply elem_of_cells3. tauto.
Qed.

Lemma for_range_once {St : Type} (I : St -> Prop) (P Q : Z -> St -> Prop)
    (r : IndexRange) (body : Z -> St -> St) st :
  (forall n st, I st -> I (body n st)) ->
  (forall n st, I st -> P n st -> Q n (body n st)) ->
  (forall n m st, m <> n -> I st -> P m st -> P m (body n st)) ->
  (forall n m st, m <> n -> I st -> Q m st -> Q m (body n st)) ->
  I st -> (forall m, s r <= m <= e r -> P m st) ->
  forall m, s r <= m <= e r -> Q m (for_range r body st).
Proof.
  intros HI Hest HP HQ Hst HPst m Hm. unfold for_range.
  apply (fold_establish_once I P Q body); try assumption.
  - apply NoDup_seqZ.
  - intros n st' _. apply HI.
  - intros n st' _. apply Hest.
  - intros n m' st' _. apply HP.
  - intros n m' st' _. apply HQ.
  - intros m' Hm'. apply HPst, elem_of_irange, Hm'.
  - apply elem_of_irange, Hm.
Qed.

(** ** AddSource, cell by cell *)

Section AddSource_cells.
Context {RA : RealArith} {D : Decs}.
Implicit Types (md : MeshData) (st : MeshData * MeshData).

Lemma pack_set_other md name b v k j i x name' b' v' k' j' i' :
  (name', b', v', k', j', i') <> (name, b, v, k, j, i) ->
  pack (pack_set md name b v k j i x) name' b' v' k' j' i' = pack md name' b' v' k' j' i'.
Proof.
  intros Hne. unfold pack, pack_set. cbn [blocks].
  destruct (Z.eqb_spec b' b) as [->|_]; [|reflexivity].
  destruct (String.eqb_spec name' name) as [->|Hn].
  - apply data_set_index_ne. congruence.
  - apply data_set_name_ne, Hn.
Qed.

Lemma same_mesh_refl md : same_mesh md md.
Proof. repeat split. Qed.

Lemma same_mesh_trans md1 md2 md3 : same_mesh md1 md2 -> same_mesh md2 md3 -> same_mesh md1 md3.
Proof.
  intros (H1&H2&H3&H4) (G1&G2&G3&G4). repeat split; try congruence;
    destruct (H4 b) as (?&?&?&?&?), (G4 b) as (?&?&?&?&?); congruence.
Qed.

Lemma same_mesh_pack_set md name b v k j i x : same_mesh md (pack_set md name b v k j i x).
Proof.
  repeat split; cbn [blocks pack_set]; destruct (Z.eqb_spec b0 b) as [->|_]; reflexivity.
Qed.

(** A [VLOOP] that updates the entries (v, k, j, i) of one field, each from
    its own old value. *)
Lemma VLOOP_write (g : Z -> Real -> Real) name b k j i md0 :
  let md1 := B_CD.VLOOP (fun v md => pack_set md name b v k j i (g v (pack md name b v k j i)))
               md0 in
  (forall v, 0 <= v < NVEC -> pack md1 name b v k j i = g v (pack md0 name b v k j i)) /\
  (forall name' b' v' k' j' i',
     ~ (name' = name /\ b' = b /\ k' = k /\ j' = j /\ i' = i /\ 0 <= v' < NVEC) ->
     pack md1 name' b' v' k' j' i' = pack md0 name' b' v' k' j' i') /\
  same_mesh md0 md1.
Proof.
  cbv zeta. unfold B_CD.VLOOP. split; [|split].
  - intros v Hv.
    apply (for_range_once (fun _ => True)
             (fun v md => pack md name b v k j i = pack md0 name b v k j i)
             (fun v md => pack md name b v k j i = g v (pack md0 name b v k j i)));
      try trivial.
    + intros n md _ Hn. rewrite pack_set_eq, Hn. reflexivity.
    + intros n m md Hne _ Hm. rewrite pack_set_other by congruence. exact Hm.
    + intros n m md Hne _ Hm. rewrite pack_set_other by congruence. exact Hm.
    + cbn. lia.
  - intros name' b' v' k' j' i' Hout.
    apply (for_range_invariant
             (fun md => pack md name' b' v' k' j' i' = pack md0 name' b' v' k' j' i'));
      [|reflexivity].
    intros n md Hn Hmd. cbn in Hn. rewrite pack_set_other; [exact Hmd|].
    intros Heq. injection Heq as -> -> -> -> -> ->. apply Hout. repeat split; lia.
  - apply (for_range_invariant (same_mesh md0)); [|apply same_mesh_refl].
    intros n md _ Hmd. eapply same_mesh_trans; [exact Hmd|apply same_mesh_pack_set].
Qed.

(** What the kernel does at its own cell and nowhere else. *)
Lemma AddSource_cell_spec lambda b k j i st :
  let st' := B_CD.AddSource_cell (ndim st.1) lambda b k j i st in
  let G := coords (blocks st.1 b) in
  let alpha_c := rdiv r1 (rsqrt (rneg (gcon G center j i 0 0))) in
  (forall v, 0 <= v < NVEC ->
     pack st'.1 "cons.B" b v k j i = AddSource_B_new st.1 b v k j i) /\
  (forall name' b' v' k' j' i',
     ~ (name' = "cons.B" /\ b' = b /\ k' = k /\ j' = j /\ i' = i /\ 0 <= v' < NVEC) ->
     pack st'.1 name' b' v' k' j' i' = pack st.1 name' b' v' k' j' i') /\
  same_mesh st.1 st'.1 /\
  pack st'.2 "cons.psi_cd" b 0 k j i
  = radd (pack st.2 "cons.psi_cd" b 0 k j i)
         (rsub (radd (rmul (pack st'.1 "cons.B" b V1 k j i) (AddSource_dalpha1 G j i))
                     (rmul (pack st'.1 "cons.B" b V2 k j i) (AddSource_dalpha2 G j i)))
               (rmul (rmul alpha_c lambda) (pack st.1 "cons.psi_cd" b 0 k j i))) /\
  (forall name' b' v' k' j' i',
     (name', b', v', k', j', i') <> ("cons.psi_cd", b, 0, k, j, i) ->
     pack st'.2 name' b' v' k' j' i' = pack st.2 name' b' v' k' j' i') /\
  same_mesh st.2 st'.2.
Proof.
  destruct (VLOOP_write (AddSource_B_step st.1 b k j i) "cons.B" b k j i st.1)
    as (HB&Hout&Hmesh).
  cbv zeta. unfold B_CD.AddSource_cell. cbv zeta. cbn [fst snd].
  change (B_CD.VLOOP _ st.1)
    with (B_CD.VLOOP (fun v md => pack_set md "cons.B" b v k j i
                                    (AddSource_B_step st.1 b k j i v (pack md "cons.B" b v k j i)))
            st.1).
  set (md1 := B_CD.VLOOP _ st.1) in *.
  refine (conj HB (conj Hout (conj Hmesh (conj _ (conj _ _))))).
  - rewrite pack_set_eq.
    rewrite (Hout "cons.psi_cd") by (intros (Hn&_); discriminate). reflexivity.
  - intros name' b' v' k' j' i' Hne. apply pack_set_other, Hne.
  - apply same_mesh_pack_set.
Qed.

Lemma AddSource_B_new_ext md md' b v k j i :
  same_mesh md md' ->
  pack md' "cons.B" b v k j i = pack md "cons.B" b v k j i ->
  AddSource_B_new md' b v k j i = AddSource_B_new md b v k j i.
Proof.
  intros (Hnd&_&_&Hb) HB. destruct (Hb b) as (_&Hc&_&_&Hf).
  unfold AddSource_B_new, AddSource_B_step, B_CD.AddSource_divB, pack_flux.
  rewrite HB, Hnd, Hc, Hf. reflexivity.
Qed.

(** X1.  AddSource always returns complete.  It changes no flux, no
    geometry and no parameter of either argument; in the state it changes
    nothing but the components 0 .. NVEC-1 of cons.B at the interior cells
    of the blocks 0 .. nblocks-1, and in the rate of change nothing but
    the component 0 of cons.psi_cd at those cells. *)
Theorem X1_AddSource_extent (md mdudt : MeshData) :
  (B_CD.AddSource md mdudt).2 = complete /\
  same_mesh md (B_CD.AddSource md mdudt).1.1 /\
  same_mesh mdudt (B_CD.AddSource md mdudt).1.2 /\
  (forall name b v k j i,
     ~ (name = "cons.B" /\ AddSource_interior md b k j i /\ 0 <= v < NVEC) ->
     pack (B_CD.AddSource md mdudt).1.1 name b v k j i = pack md name b v k j i) /\
  (forall name b v k j i,
     ~ (name = "cons.psi_cd" /\ AddSource_interior md b k j i /\ v = 0) ->
     pack (B_CD.AddSource md mdudt).1.2 name b v k j i = pack mdudt name b v k j i).
Proof.
  unfold B_CD.AddSource. destruct (ndim md <? 2).
  { cbn [fst snd]. repeat split. }
  cbn [fst snd]. split; [reflexivity|].
  set (Inv := fun st : MeshData * MeshData =>
    same_mesh md st.1 /\ same_mesh mdudt st.2 /\
    (forall name b v k j i,
       ~ (name = "cons.B" /\ AddSource_interior md b k j i /\ 0 <= v < NVEC) ->
       pack st.1 name b v k j i = pack md name b v k j i) /\
    (forall name b v k j i,
       ~ (name = "cons.psi_cd" /\ AddSource_interior md b k j i /\ v = 0) ->
       pack st.2 name b v k j i = pack mdudt name b v k j i)).
  enough (Inv (par_for_MESH_3D {| s := 0; e := nblocks md - 1 |}
                 (md_GetBoundsK md interior) (md_GetBoundsJ md interior)
                 (md_GetBoundsI md interior)
                 (B_CD.AddSource_cell (ndim md) (damping md)) (md, mdudt))) as H by exact H.
  apply par_for_MESH_3D_invariant.
  - intros b k j i st Hb Hk Hj Hi (Hm1&Hm2&H1&H2). cbn [s e] in Hb.
    assert (Hnd : ndim st.1 = ndim md) by apply Hm1.
    rewrite <- Hnd.
    destruct (AddSource_cell_spec (damping md) b k j i st) as (_&Hout1&Hmesh1&_&Hout2&Hmesh2).
    cbv zeta in Hout1, Hmesh1, Hout2, Hmesh2.
    split; [eapply same_mesh_trans; eassumption|].
    split; [eapply same_mesh_trans; eassumption|]. split.
    + intros name b' v' k' j' i' Hne. rewrite Hout1; [apply H1, Hne|].
      intros (->&->&->&->&->&Hv). apply Hne. repeat split; try assumption; lia.
    + intros name b' v' k' j' i' Hne. rewrite Hout2; [apply H2, Hne|].
      intros Heq. injection Heq as -> -> -> -> -> ->. apply Hne.
      repeat split; try assumption; lia.
  - repeat split.
Qed.

(** X2.  With at least 2 dimensions, at every interior cell AddSource
    leaves in each component v < NVEC of the state's cons.B the old value
    plus the psi-gradient terms and the divergence term, and adds to the
    rate of change of psi the value B1 * dalpha1 + B2 * dalpha2
    - alpha * damping * psi, where B1 and B2 are the components V1 and V2
    of the state's cons.B as the same kernel has just updated them, psi is
    the state's cons.psi_cd, alpha is 1 / sqrt(-gcon(0,0)) at the cell
    centre, and dalpha2 is divided by the axis-2 spacing taken at the
    first-axis index. *)
Theorem X2_AddSource_cell_values (md mdudt : MeshData) (b k j i : Z) :
  2 <= ndim md -> AddSource_interior md b k j i ->
  (forall v, 0 <= v < NVEC ->
     pack (B_CD.AddSource md mdudt).1.1 "cons.B" b v k j i = AddSource_B_new md b v k j i) /\
  pack (B_CD.AddSource md mdudt).1.2 "cons.psi_cd" b 0 k j i
  = radd (pack mdudt "cons.psi_cd" b 0 k j i)
      (rsub (radd (rmul (pack (B_CD.AddSource md mdudt).1.1 "cons.B" b V1 k j i)
                        (AddSource_dalpha1 (coords (blocks md b)) j i))
                  (rmul (pack (B_CD.AddSource md mdudt).1.1 "cons.B" b V2 k j i)
                        (AddSource_dalpha2 (coords (blocks md b)) j i)))
            (rmul (rmul (rdiv r1 (rsqrt (rneg (gcon (coords (blocks md b)) center j i 0 0))))
                        (damping md))
                  (pack md "cons.psi_cd" b 0 k j i))).
Proof.
  intros Hnd (Hb&Hk&Hj&Hi). unfold B_CD.AddSource.
  destruct (Z.ltb_spec (ndim md) 2); [lia|]. cbn [fst snd].
  set (Inv := fun st : MeshData * MeshData =>
    same_mesh md st.1 /\
    forall name b v k j i, name <> "cons.B" ->
      pack st.1 name b v k j i = pack md name b v k j i).
  set (P := fun (c : Z * Z * Z * Z) (st : MeshData * MeshData) =>
    (forall v, pack st.1 "cons.B" c.1.1.1 v c.1.1.2 c.1.2 c.2
               = pack md "cons.B" c.1.1.1 v c.1.1.2 c.1.2 c.2) /\
    pack st.2 "cons.psi_cd" c.1.1.1 0 c.1.1.2 c.1.2 c.2
    = pack mdudt "cons.psi_cd" c.1.1.1 0 c.1.1.2 c.1.2 c.2).
  set (Q := fun (c : Z * Z * Z * Z) (st : MeshData * MeshData) =>
    (forall v, 0 <= v < NVEC ->
       pack st.1 "cons.B" c.1.1.1 v c.1.1.2 c.1.2 c.2
       = AddSource_B_new md c.1.1.1 v c.1.1.2 c.1.2 c.2) /\
    pack st.2 "cons.psi_cd" c.1.1.1 0 c.1.1.2 c.1.2 c.2
    = radd (pack mdudt "cons.psi_cd" c.1.1.1 0 c.1.1.2 c.1.2 c.2)
        (rsub (radd (rmul (pack st.1 "cons.B" c.1.1.1 V1 c.1.1.2 c.1.2 c.2)
                          (AddSource_dalpha1 (coords (blocks md c.1.1.1)) c.1.2 c.2))
                    (rmul (pack st.1 "cons.B" c.1.1.1 V2 c.1.1.2 c.1.2 c.2)
                          (AddSource_dalpha2 (coords (blocks md c.1.1.1)) c.1.2 c.2)))
              (rmul (rmul (rdiv r1 (rsqrt (rneg (gcon (coords (blocks md c.1.1.1))
                                                   center c.1.2 c.2 0 0))))
                          (damping md))
                    (pack md "cons.psi_cd" c.1.1.1 0 c.1.1.2 c.1.2 c.2)))).
  apply (par_for_MESH_3D_once Inv P Q _ _ _ _ _ _) with (b := b) (k := k) (j := j) (i := i);
    try assumption.
  - intros b' k' j' i' st (Hm&Hd).
    assert (Hn : ndim st.1 = ndim md) by apply Hm. rewrite <- Hn.
    destruct (AddSource_cell_spec (damping md) b' k' j' i' st) as (_&Hout1&Hmesh1&_).
    cbv zeta in Hout1, Hmesh1. split; [eapply same_mesh_trans; eassumption|].
    intros name b0 v0 k0 j0 i0 Hne. rewrite Hout1; [apply Hd, Hne|]. intros (->&_). contradiction.
  - intros b' k' j' i' st (Hm&Hd) (HPB&HPpsi). cbn [fst snd] in HPB, HPpsi.
    assert (Hn : ndim st.1 = ndim md) by apply Hm. rewrite <- Hn.
    destruct (AddSource_cell_spec (damping md) b' k' j' i' st) as (HB&_&_&Hpsi&_).
    cbv zeta in HB, Hpsi. split; cbn [fst snd].
    + intros v Hv. rewrite (HB v Hv). apply AddSource_B_new_ext; [exact Hm|apply HPB].
    + rewrite Hpsi, HPpsi, (Hd "cons.psi_cd") by discriminate.
      destruct Hm as (_&_&_&Hblk). destruct (Hblk b') as (_&->&_). reflexivity.
  - intros b' k' j' i' [[[cb ck] cj] ci] st Hne (Hm&Hd) (HPB&HPpsi).
    assert (Hn : ndim st.1 = ndim md) by apply Hm. rewrite <- Hn.
    destruct (AddSource_cell_spec (damping md) b' k' j' i' st) as (_&Hout1&_&_&Hout2&_).
    cbv zeta in Hout1, Hout2. cbn [fst snd] in *. split.
    + intros v. rewrite Hout1; [apply HPB|]. intros (_&E1&E2&E3&E4&_). cbn [fst snd] in *. congruence.
    + rewrite Hout2; [exact HPpsi|]. intros Heq. cbn [fst snd] in *. congruence.
  - intros b' k' j' i' [[[cb ck] cj] ci] st Hne (Hm&Hd) (HQB&HQpsi).
    assert (Hn : ndim st.1 = ndim md) by apply Hm. rewrite <- Hn.
    destruct (AddSource_cell_spec (damping md) b' k' j' i' st) as (_&Hout1&_&_&Hout2&_).
    cbv zeta in Hout1, Hout2. cbn [fst snd] in *.
    assert (Hcell : forall v, pack (B_CD.AddSource_cell (ndim st.1) (damping md) b' k' j' i' st).1
                                "cons.B" cb v ck cj ci = pack st.1 "cons.B" cb v ck cj ci).
    { intros v. apply Hout1. intros (_&E1&E2&E3&E4&_). cbn [fst snd] in *. congruence. }
    split.
    + intros v Hv. rewrite Hcell. apply HQB, Hv.
    + rewrite Hout2, !Hcell; [exact HQpsi|].
      intros Heq. cbn [fst snd] in *. congruence.
  - split; [apply same_mesh_refl|reflexivity].
  - intros c _. split; reflexivity.
Qed.

End AddSource_cells.

Lemma X2_AddSource_cell_values_witness :
  pack (@B_CD.AddSource binary64 kharma_decs Runs.c6b_md Runs.c6b_mdudt).1.1
       "cons.B" 0 0 0 0 0
  = @AddSource_B_new binary64 kharma_decs Runs.c6b_md 0 0 0 0 0.
Proof.
  refine (proj1 (@X2_AddSource_cell_values binary64 kharma_decs Runs.c6b_md Runs.c6b_mdudt
                   0 0 0 0 _ _) 0 _).
  - cbn. lia.
  - unfold AddSource_interior. cbn. lia.
  - cbn. lia.
Defined.

(** ** MaxDivB: what it reads, degenerate meshes, NaN *)

Lemma par_for_MESH_3D_ext {St : Type} bb kb jb ib
    (body body' : Z -> Z -> Z -> Z -> St -> St) st :
  (forall b k j i st, body b k j i st = body' b k j i st) ->
  par_for_MESH_3D bb kb jb ib body st = par_for_MESH_3D bb kb jb ib body' st.
Proof.
  intros H. unfold par_for_MESH_3D, par_for_3D.
  apply for_range_ext. intros b st1 _.
  apply for_range_ext. intros k st2 _.
  apply for_range_ext. intros j st3 _.
  apply for_range_ext. intros i st4 _. apply H.
Qed.

Section MaxDivB_more.
Context {RA : RealArith} {D : Decs}.
Implicit Types (md : MeshData).

Lemma MaxDivB_same_mesh md md' : same_mesh md md' -> B_CD.MaxDivB md' = B_CD.MaxDivB md.
Proof.
  intros (Hnd&Hnb&_&Hb). unfold B_CD.MaxDivB, md_GetBoundsI, md_GetBoundsJ, md_GetBoundsK.
  destruct (Hb 0) as (_&_&->&_). rewrite Hnd, Hnb.
  destruct (ndim md <? 2); [reflexivity|].
  apply par_for_MESH_3D_ext. intros b k j i acc.
  unfold B_CD.MaxDivB_divb_local, pack_flux.
  destruct (Hb b) as (_&->&_&_&->). reflexivity.
Qed.

(** X3.  MaxDivB reads only the geometry and the fluxes: the value it
    reports for the state is the same before and after AddSource has
    added its sources. *)
Theorem X3_MaxDivB_after_AddSource (md mdudt : MeshData) :
  B_CD.MaxDivB (B_CD.AddSource md mdudt).1.1 = B_CD.MaxDivB md.
Proof. apply MaxDivB_same_mesh. apply X1_AddSource_extent. Qed.

(** X4.  With at least 2 dimensions and at least one block, when the
    interior is a single cell wide along axis 1 or along axis 2 (or, with
    more than 2 dimensions, along axis 3), the reduction visits no cell
    and MaxDivB returns the seed of the reduction, not 0. *)
Theorem X4_MaxDivB_no_cell (md : MeshData) :
  2 <= ndim md -> 1 <= nblocks md ->
  e (md_GetBoundsI md interior) <= s (md_GetBoundsI md interior) \/
  e (md_GetBoundsJ md interior) <= s (md_GetBoundsJ md interior) \/
  (2 < ndim md /\ e (md_GetBoundsK md interior) <= s (md_GetBoundsK md interior)) ->
  B_CD.MaxDivB md = rmax_identity.
Proof.
  intros Hnd _ Hempty. unfold B_CD.MaxDivB. destruct (Z.ltb_spec (ndim md) 2); [lia|].
  apply (par_for_MESH_3D_invariant (fun acc => acc = rmax_identity)); [|reflexivity].
  intros b k j i acc Hb Hk Hj Hi _. exfalso. cbn [s e] in Hb, Hj, Hi.
  destruct Hempty as [?|[?|[? ?]]]; try lia.
  destruct (Z.gtb_spec (ndim md) 2); [|lia]. cbn [s e] in Hk. lia.
Qed.

End MaxDivB_more.

Lemma X4_MaxDivB_no_cell_witness :
  @B_CD.MaxDivB binary64 kharma_decs Runs.c2_md = PrimFloat.opp DBL_MAX.
Proof.
  apply (@X4_MaxDivB_no_cell binary64 kharma_decs Runs.c2_md).
  - cbn. lia.
  - cbn. lia.
  - left. cbn. lia.
Defined.

(** In binary64 a number that exceeds another is not a NaN. *)
Lemma SFltb_right_not_nan (a b : spec_float) : SFltb a b = true -> SFeqb b b = true.
Proof.
  unfold SFltb, SFeqb. intros H.
  destruct b as [[]|[]| |sb mb eb]; try reflexivity.
  - destruct a as [?|?| |? ? ?]; discriminate.
  - cbn. destruct sb; rewrite Z.compare_refl, Pos.compare_cont_refl; reflexivity.
Qed.

Lemma ltb_right_not_nan (a b : float) : PrimFloat.ltb a b = true -> PrimFloat.eqb b b = true.
Proof.
  intros H. rewrite FloatAxioms.ltb_spec in H. rewrite FloatAxioms.eqb_spec.
  apply (SFltb_right_not_nan _ _ H).
Qed.

(** X5.  In binary64 MaxDivB never returns a NaN: a cell whose divergence
    estimate is a NaN (a zero spacing under a zero flux difference, an
    overflow) never replaces the running maximum, so the diagnostic does
    not show it. *)
Theorem X5_MaxDivB_never_NaN (D : Decs) (md : @MeshData binary64) :
  PrimFloat.eqb (B_CD.MaxDivB md) (B_CD.MaxDivB md) = true.
Proof.
  unfold B_CD.MaxDivB. destruct (ndim md <? 2); [reflexivity|].
  apply (par_for_MESH_3D_invariant (fun acc : float => PrimFloat.eqb acc acc = true));
    [|reflexivity].
  intros b k j i acc _ _ _ _ Hacc. unfold B_CD.max_step.
  destruct (@rgt binary64 (B_CD.MaxDivB_divb_local (ndim md) md b k j i) acc) eqn:Hgt;
    [|exact Hacc].
  apply (ltb_right_not_nan acc). exact Hgt.
Qed.

(** ** UtoP outside its domain, and twice *)

Section UtoP_more.
Context {RA : RealArith} {D : Decs}.
Implicit Types (rc : MeshBlockData).

(** The entries that [UtoP] writes. *)
Lemma UtoP_cell_untouched k' j' i' rc name v k j i :
  ~ ((k, j, i) = (k', j', i') /\
     ((name = "prims.B" /\ 0 <= v < NVEC) \/ (name = "prims.psi_cd" /\ v = 0))) ->
  data (B_CD.UtoP_cell k' j' i' rc) name v k j i = data rc name v k j i.
Proof.
  intros Hout. unfold B_CD.UtoP_cell, B_CD.VLOOP.
  assert (Hloop : forall st0 : MeshBlockData,
            data (for_range {| s := 0; e := NVEC - 1 |}
                    (fun v rc0 => data_set rc0 "prims.B" v k' j' i'
                                    (rdiv (data rc0 "cons.B" v k' j' i')
                                          (gdet (coords rc) center j' i'))) st0)
                 name v k j i = data st0 name v k j i).
  { intros st0.
    apply (for_range_invariant (fun st => data st name v k j i = data st0 name v k j i));
      [|reflexivity].
    intros n st Hn Hst. cbn [s e] in Hn.
    destruct (String.eqb_spec name "prims.B") as [->|Hname].
    - rewrite data_set_index_ne; [exact Hst|].
      intros Heq. injection Heq as -> -> -> ->. apply Hout. split; [reflexivity|].
      left. split; [reflexivity|lia].
    - rewrite data_set_name_ne by exact Hname. exact Hst. }
  destruct (String.eqb_spec name "prims.psi_cd") as [->|Hname].
  - rewrite data_set_index_ne; [apply Hloop|].
    intros Heq. injection Heq as -> -> -> ->. apply Hout. split; [reflexivity|].
    right. split; reflexivity.
  - rewrite data_set_name_ne by exact Hname. apply Hloop.
Qed.

Lemma UtoP_untouched rc domain coarse name v k j i :
  ~ (in_domain (UtoP_bounds rc coarse) domain k j i /\
     ((name = "prims.B" /\ 0 <= v < NVEC) \/ (name = "prims.psi_cd" /\ v = 0))) ->
  data (B_CD.UtoP rc domain coarse) name v k j i = data rc name v k j i.
Proof.
  intros Hout. unfold B_CD.UtoP.
  apply (par_for_3D_invariant (fun st => data st name v k j i = data rc name v k j i));
    [|reflexivity].
  intros k' j' i' st Hk Hj Hi Hst. rewrite UtoP_cell_untouched; [exact Hst|].
  intros (Heq&Hw). injection Heq as -> -> ->. apply Hout. split; [|exact Hw].
  unfold in_domain, UtoP_bounds. destruct coarse; repeat split; lia.
Qed.

(** X6.  UtoP writes nothing outside the requested domain: every entry
    of prims.B and of prims.psi_cd at a cell outside it, and every
    component of prims.B from NVEC on, is as it was.  In particular a
    domain with an empty range leaves the block as it was. *)
Theorem X6_UtoP_outside_domain (rc : MeshBlockData) domain coarse name v k j i :
  ~ in_domain (UtoP_bounds rc coarse) domain k j i \/
  (name = "prims.B" /\ ~ 0 <= v < NVEC) \/ (name = "prims.psi_cd" /\ v <> 0) ->
  data (B_CD.UtoP rc domain coarse) name v k j i = data rc name v k j i.
Proof.
  intros Hout. apply UtoP_untouched. intros (Hin&Hw).
  destruct Hout as [Hout|[[-> Hout]|[-> Hout]]].
  - contradiction.
  - destruct Hw as [[_ ?]|[? _]]; [contradiction|discriminate].
  - destruct Hw as [[? _]|[_ ?]]; [discriminate|contradiction].
Qed.

(** X7.  UtoP is idempotent: it reads only conserved fields and geometry,
    which it does not write, so applying it a second time to the same
    domain changes no entry of any field. *)
Theorem X7_UtoP_idempotent (rc : MeshBlockData) domain coarse name v k j i :
  data (B_CD.UtoP (B_CD.UtoP rc domain coarse) domain coarse) name v k j i
  = data (B_CD.UtoP rc domain coarse) name v k j i.
Proof.
  set (rc' := B_CD.UtoP rc domain coarse).
  destruct (UtoP_keeps_frame rc domain coarse) as (_&Hc&Hcb&Hccb&_&Hd). fold rc' in Hc, Hcb, Hccb, Hd.
  assert (Hbounds : UtoP_bounds rc' coarse = UtoP_bounds rc coarse).
  { unfold UtoP_bounds. destruct coarse; assumption. }
  assert (Hdec : Decision (in_domain (UtoP_bounds rc coarse) domain k j i /\
                   ((name = "prims.B" /\ 0 <= v < NVEC) \/ (name = "prims.psi_cd" /\ v = 0))))
    by (unfold in_domain; apply _).
  destruct Hdec as [(Hin&Hw)|Hout].
  - assert (Hin' : in_domain (UtoP_bounds rc' coarse) domain k j i) by (rewrite Hbounds; exact Hin).
    destruct (UtoP_recovers rc domain coarse k j i Hin) as [HB Hpsi]. fold rc' in HB, Hpsi.
    destruct (UtoP_recovers rc' domain coarse k j i Hin') as [HB' Hpsi'].
    destruct Hw as [[-> Hv]|[-> ->]].
    + rewrite (HB' v Hv), (HB v Hv), Hc, Hd by discriminate. reflexivity.
    + rewrite Hpsi', Hpsi, Hc, Hd by discriminate. reflexivity.
  - apply UtoP_untouched. rewrite Hbounds. exact Hout.
Qed.

End UtoP_more.

Lemma X6_UtoP_outside_domain_witness :
  data (@B_CD.UtoP binary64 kharma_decs Runs.c3_rc interior false) "prims.B" 0 5 5 5
  = data Runs.c3_rc "prims.B" 0 5 5 5.
Proof.
  apply (@X6_UtoP_outside_domain binary64 kharma_decs Runs.c3_rc interior false).
  left. unfold in_domain. cbn. lia.
Defined.

(** ** FillOutput *)

Section FillOutput_facts.
Context {RA : RealArith} {D : Decs}.
Implicit Types (rc : MeshBlockData).

(** The kernel of [FillOutput] at a cell stores the estimate that
    [MaxDivB] computes there on the mesh data that hold the block. *)
Lemma FillOutput_value rc k j i :
  2 <= mb_ndim rc -> FillOutput_included rc k j i ->
  forall lambda,
    data (B_CD.FillOutput rc) "divB" 0 k j i
    = B_CD.MaxDivB_divb_local (mb_ndim rc) (mesh_of_block rc lambda) 0 k j i.
Proof.
  intros Hnd (Hk&Hj&Hi) lambda. unfold B_CD.FillOutput.
  destruct (Z.ltb_spec (mb_ndim rc) 2); [lia|].
  apply (par_for_3D_establish (fun _ => True)
           (fun k j i st => data st "divB" 0 k j i
              = B_CD.MaxDivB_divb_local (mb_ndim rc) (mesh_of_block rc lambda) 0 k j i));
    try trivial.
  - intros k' j' i' st _. rewrite data_set_eq. reflexivity.
  - intros k1 j1 i1 k' j' i' st _ Hst.
    destruct (decide ((k', j', i') = (k1, j1, i1))) as [Heq|Hne].
    + injection Heq as -> -> ->. rewrite data_set_eq. reflexivity.
    + rewrite data_set_index_ne by congruence. exact Hst.
  - destruct (mb_ndim rc >? 2); exact Hk.
Qed.

Lemma FillOutput_untouched rc name v k j i :
  ~ (name = "divB" /\ v = 0 /\ 2 <= mb_ndim rc /\ FillOutput_included rc k j i) ->
  data (B_CD.FillOutput rc) name v k j i = data rc name v k j i.
Proof.
  intros Hout. unfold B_CD.FillOutput.
  destruct (Z.ltb_spec (mb_ndim rc) 2) as [|Hnd]; [reflexivity|].
  apply (par_for_3D_invariant (fun st => data st name v k j i = data rc name v k j i));
    [|reflexivity].
  intros k' j' i' st Hk Hj Hi Hst. cbn [s e] in Hj, Hi.
  destruct (String.eqb_spec name "divB") as [->|Hname].
  - rewrite data_set_index_ne; [exact Hst|].
    intros Heq. injection Heq as -> -> -> ->. apply Hout.
    repeat split; try assumption; try lia; destruct (mb_ndim rc >? 2); apply Hk.
  - rewrite data_set_name_ne by exact Hname. exact Hst.
Qed.

Lemma FillOutput_keeps rc :
  mb_ndim (B_CD.FillOutput rc) = mb_ndim rc /\ coords (B_CD.FillOutput rc) = coords rc /\
  cellbounds (B_CD.FillOutput rc) = cellbounds rc /\
  c_cellbounds (B_CD.FillOutput rc) = c_cellbounds rc /\
  flux (B_CD.FillOutput rc) = flux rc.
Proof.
  unfold B_CD.FillOutput. destruct (mb_ndim rc <? 2); [repeat split|].
  apply (par_for_3D_invariant
           (fun st => mb_ndim st = mb_ndim rc /\ coords st = coords rc /\
                      cellbounds st = cellbounds rc /\ c_cellbounds st = c_cellbounds rc /\
                      flux st = flux rc)); [|repeat split].
  intros k j i st _ _ _ H. exact H.
Qed.

(** X8.  FillOutput changes nothing but the output field divB: with
    fewer than 2 dimensions it returns the block as it is; otherwise it
    keeps the geometry, the bounds, the fluxes and every other field, and
    writes the component 0 of divB at the interior cells without the last
    layer along axes 1 and 2 (and along axis 3 when ndim > 2), where it
    stores the flux-difference estimate that MaxDivB computes for that
    cell. *)
Theorem X8_FillOutput_writes_divB (rc : MeshBlockData) :
  (mb_ndim rc < 2 -> B_CD.FillOutput rc = rc) /\
  (mb_ndim (B_CD.FillOutput rc) = mb_ndim rc /\ coords (B_CD.FillOutput rc) = coords rc /\
   cellbounds (B_CD.FillOutput rc) = cellbounds rc /\
   c_cellbounds (B_CD.FillOutput rc) = c_cellbounds rc /\
   flux (B_CD.FillOutput rc) = flux rc) /\
  (forall name v k j i,
     ~ (name = "divB" /\ v = 0 /\ 2 <= mb_ndim rc /\ FillOutput_included rc k j i) ->
     data (B_CD.FillOutput rc) name v k j i = data rc name v k j i) /\
  (forall k j i lambda,
     2 <= mb_ndim rc -> FillOutput_included rc k j i ->
     data (B_CD.FillOutput rc) "divB" 0 k j i
     = B_CD.MaxDivB_divb_local (mb_ndim rc) (mesh_of_block rc lambda) 0 k j i).
Proof.
  split; [|split; [apply FillOutput_keeps|split]].
  - intros Hnd. unfold B_CD.FillOutput. destruct (Z.ltb_spec (mb_ndim rc) 2); [reflexivity|lia].
  - intros name v k j i. apply FillOutput_untouched.
  - intros k j i lambda Hnd Hin. apply FillOutput_value; assumption.
Qed.

(** X9.  The output field and the diagnostic agree: on the mesh data that
    hold one block, no entry of divB that FillOutput has written exceeds
    the value that MaxDivB returns. *)
Theorem X9_FillOutput_below_MaxDivB {RO : RealOrder RA} (rc : MeshBlockData) lambda k j i :
  2 <= mb_ndim rc -> FillOutput_included rc k j i ->
  rgt (data (B_CD.FillOutput rc) "divB" 0 k j i) (B_CD.MaxDivB (mesh_of_block rc lambda)) = false.
Proof.
  intros Hnd Hin. rewrite (FillOutput_value rc k j i Hnd Hin lambda).
  apply (MaxDivB_upper_bound (mesh_of_block rc lambda) 0 k j i); [exact Hnd|].
  destruct Hin as (Hk&Hj&Hi).
  split; [cbn; lia|]. split; [exact Hk|]. split; [exact Hj|exact Hi].
Qed.

End FillOutput_facts.

Lemma X1_AddSource_extent_witness :
  pack (@B_CD.AddSource binary64 kharma_decs Runs.c2_md Runs.c2_mdudt).1.1
       "cons.psi_cd" 0 0 0 0 0
  = pack Runs.c2_md "cons.psi_cd" 0 0 0 0 0.
Proof.
  destruct (@X1_AddSource_extent binary64 kharma_decs Runs.c2_md Runs.c2_mdudt)
    as (_&_&_&H&_).
  apply H. intros (Hn&_). discriminate.
Defined.

Lemma X8_FillOutput_writes_divB_witness :
  data (@B_CD.FillOutput binary64 kharma_decs (blocks Runs.c10_md 0)) "divB" 0 0 0 1
  = @B_CD.MaxDivB_divb_local binary64 kharma_decs 2
      (mesh_of_block (blocks Runs.c10_md 0) 0%float) 0 0 0 1.
Proof.
  destruct (@X8_FillOutput_writes_divB binary64 kharma_decs (blocks Runs.c10_md 0))
    as (_&_&_&H).
  apply (H 0 0 1 0%float).
  - cbn. lia.
  - unfold FillOutput_included. cbn. lia.
Defined.

Lemma X9_FillOutput_below_MaxDivB_witness :
  rgt (data (@B_CD.FillOutput binary64 kharma_decs (blocks Runs.c10_md 0)) "divB" 0 0 0 0)
      (@B_CD.MaxDivB binary64 kharma_decs (mesh_of_block (blocks Runs.c10_md 0) 0%float))
  = false.
Proof.
  apply (@X9_FillOutput_below_MaxDivB binary64 kharma_decs _ (blocks Runs.c10_md 0)).
  - cbn. lia.
  - unfold FillOutput_included. cbn. lia.
Defined.

(** ** The driver: dependencies, containers, packages *)



Lemma real_containers_fold (f : Z -> string) (l : list Z) (pmb : HARM.MeshBlock) (name : string) :
  name ∈ HARM.real_containers
           (fold_left (fun pmb i => HARM.real_containers_Add pmb (f i)) l pmb)
  <-> name ∈ HARM.real_containers pmb \/ exists i, i ∈ l /\ name = f i.
Proof.
  revert pmb. induction l as [|a l IH]; intros pmb; cbn.
  - split; [intros H; left; exact H|intros [H|(i&Hi&_)]; [exact H|inversion Hi]].
  - rewrite IH. unfold HARM.real_containers_Add at 1. cbn.
    rewrite elem_of_union, elem_of_singleton. split.
    + intros [[->|H]|(i&Hi&->)].
      * right. exists a. split; [left|reflexivity].
      * left. exact H.
      * right. exists i. split; [right; exact Hi|reflexivity].
    + intros [H|(i&Hi&->)].
      * left. right. exact H.
      * apply elem_of_cons in Hi as [->|Hi].
        -- left. left. reflexivity.
        -- right. exists i. split; [exact Hi|reflexivity].
Qed.

(** X11.  MakeTaskList touches the block's containers on stage 1 only.
    On stage 1 it adds the container dUdt and one container per
    intermediate stage (stage_name[i] for 1 <= i < nstages) and keeps every
    container that was there; on any other stage the collection is as it
    was. *)
Theorem X11_MakeTaskList_containers (drv : HARM.HARMDriver) (pmb : HARM.MeshBlock)
    (stage : Z) :
  (stage <> 1 -> (HARM.MakeTaskList drv pmb stage).1 = pmb) /\
  (stage = 1 ->
   forall name,
     name ∈ HARM.real_containers (HARM.MakeTaskList drv pmb stage).1 <->
     name ∈ HARM.real_containers pmb \/ name = "dUdt" \/
     exists i, 1 <= i < HARM.nstages drv /\ name = HARM.stage_name drv i).
Proof.
  unfold HARM.MakeTaskList. split.
  - intros Hne. destruct (Z.eqb_spec stage 1); [contradiction|].
    destruct (stage =? HARM.nstages drv); [destruct (HARM.adaptive drv)|]; reflexivity.
  - intros -> name. cbn [Z.eqb Pos.eqb].
    assert (Hfst : forall (A B : Type) (x : A) (c : bool) (y z : B),
               (x, if c then y else z).1 = x) by (intros; reflexivity).
    match goal with
    | |- name ∈ HARM.real_containers ?t.1 <-> _ =>
        replace t.1 with
          (for_range {| s := 1; e := HARM.nstages drv - 1 |}
             (fun i pmb => HARM.real_containers_Add pmb (HARM.stage_name drv i))
             (HARM.real_containers_Add pmb "dUdt"))
    end.
    + unfold for_range. rewrite real_containers_fold.
      unfold HARM.real_containers_Add at 1. cbn [HARM.real_containers].
      rewrite elem_of_union, elem_of_singleton. split.
      * intros [[->|H]|(i&Hi&->)]; [right; left; reflexivity|left; exact H|].
        right. right. exists i. apply elem_of_irange in Hi. cbn in Hi. split; [lia|reflexivity].
      * intros [H|[->|(i&Hi&->)]]; [left; right; exact H|left; left; reflexivity|].
        right. exists i. split; [|reflexivity]. apply elem_of_irange. cbn. lia.
    + cbn. destruct (1 =? HARM.nstages drv); [destruct (HARM.adaptive drv)|]; reflexivity.
Qed.

Lemma X11_MakeTaskList_containers_witness :
  (HARM.MakeTaskList
     {| HARM.nstages := 2; HARM.stage_name := fun _ => "base"; HARM.adaptive := false |}
     {| HARM.real_containers := ∅ |} 2).1
  = {| HARM.real_containers := ∅ |}.
Proof.
  apply (proj1 (X11_MakeTaskList_containers
                  {| HARM.nstages := 2; HARM.stage_name := fun _ => "base";
                     HARM.adaptive := false |}
                  {| HARM.real_containers := ∅ |} 2)).
  lia.
Defined.

Section ProcessPackages_facts.
Variable parse_bool : string -> bool.
Variable show_bool : bool -> string.
Variable Package : Type.
Variable GRMHD_Initialize :
  gmap (string * string) string -> gmap (string * string) string * Package.

Local Abbreviation ProcessPackages :=
  (HARM.ProcessPackages parse_bool show_bool Package GRMHD_Initialize).

Lemma GetOrAddBoolean_lookup (pin : gmap (string * string) string) block name def key :
  (HARM.GetOrAddBoolean parse_bool show_bool pin block name def).1 !! key
  = match pin !! key with
    | Some v => Some v
    | None => if decide (key = (block, name)) then Some (show_bool def) else None
    end.
Proof.
  unfold HARM.GetOrAddBoolean. destruct (pin !! (block, name)) as [v|] eqn:E; cbn [fst].
  - destruct (pin !! key) eqn:E'; [reflexivity|]. case_decide; [subst; congruence|reflexivity].
  - destruct (decide (key = (block, name))) as [->|Hne].
    + rewrite lookup_insert_eq, E. reflexivity.
    + rewrite lookup_insert_ne by congruence. destruct (pin !! key); reflexivity.
Qed.

Lemma GetOrAddBoolean_value (pin : gmap (string * string) string) block name def :
  (HARM.GetOrAddBoolean parse_bool show_bool pin block name def).2
  = match pin !! (block, name) with Some v => parse_bool v | None => def end.
Proof. unfold HARM.GetOrAddBoolean. destruct (pin !! (block, name)); reflexivity. Qed.

(** X12.  ProcessPackages loads the package GRMHD unless the input file
    sets Physics/GRMHD to false (with no such entry it is loaded), and it
    loads no other package: the switches Physics/howes_electrons and
    Physics/scalars are read and change nothing.  When GRMHD is switched
    off the input file is left with its old entries and, for each of the
    three switches it lacked, the default. *)
Theorem X12_ProcessPackages_only_GRMHD (pin : gmap (string * string) string) :
  let do_hydro := match pin !! ("Physics", "GRMHD") with
                  | Some v => parse_bool v
                  | None => true
                  end in
  (forall name, name <> "GRMHD" -> (ProcessPackages pin).2 !! name = None) /\
  (is_Some ((ProcessPackages pin).2 !! "GRMHD") <-> do_hydro = true) /\
  (do_hydro = false ->
   forall key,
     (ProcessPackages pin).1 !! key
     = match pin !! key with
       | Some v => Some v
       | None =>
           if decide (key = ("Physics", "GRMHD")) then Some (show_bool true)
           else if decide (key = ("Physics", "howes_electrons")) then Some (show_bool false)
           else if decide (key = ("Physics", "scalars")) then Some (show_bool false)
           else None
       end).
Proof.
  cbv zeta. unfold HARM.ProcessPackages.
  pose proof (GetOrAddBoolean_value pin "Physics" "GRMHD" true) as Hh.
  pose proof (GetOrAddBoolean_lookup pin "Physics" "GRMHD" true) as H1.
  destruct (HARM.GetOrAddBoolean parse_bool show_bool pin "Physics" "GRMHD" true)
    as [p1 do_hydro]. cbn [fst snd] in Hh, H1.
  pose proof (GetOrAddBoolean_lookup p1 "Physics" "howes_electrons" false) as H2.
  destruct (HARM.GetOrAddBoolean parse_bool show_bool p1 "Physics" "howes_electrons" false)
    as [p2 do_electrons]. cbn [fst] in H2.
  pose proof (GetOrAddBoolean_lookup p2 "Physics" "scalars" false) as H3.
  destruct (HARM.GetOrAddBoolean parse_bool show_bool p2 "Physics" "scalars" false)
    as [p3 do_scalars]. cbn [fst] in H3.
  rewrite <- Hh. destruct do_hydro.
  - destruct (GRMHD_Initialize p3) as [p4 pkg]. cbn [fst snd]. split; [|split].
    + intros name Hne. rewrite lookup_insert_ne by congruence. apply lookup_empty.
    + rewrite lookup_insert_eq. split; [reflexivity|intros _; eexists; reflexivity].
    + discriminate.
  - cbn [fst snd]. split; [|split].
    + intros name _. apply lookup_empty.
    + rewrite lookup_empty. split; [intros [? ?]; discriminate|discriminate].
    + intros _ key. rewrite H3, H2, H1.
      destruct (pin !! key); [reflexivity|].
      repeat case_decide; try reflexivity; congruence.
Qed.

End ProcessPackages_facts.

Lemma X12_ProcessPackages_only_GRMHD_witness :
  (HARM.ProcessPackages (String.eqb "true") (fun b : bool => if b then "true" else "false")
     unit (fun p => (p, ())) {[ ("Physics", "GRMHD") := "false" ]}).1
    !! ("Physics", "scalars")
  = Some "false".
Proof.
  etrans.
  - apply (proj2 (proj2 (X12_ProcessPackages_only_GRMHD (String.eqb "true")
                           (fun b : bool => if b then "true" else "false")
                           unit (fun p => (p, ())) {[ ("Physics", "GRMHD") := "false" ]}))).
    vm_compute. reflexivity.
  - vm_compute. reflexivity.
Defined.

(** ** SetRest *)

Section SetRest_fields_facts.
Context {RA : RealArith}.
Implicit Types (rc : MeshBlockData) (gp : gmap string Rest.ParamValue).

Lemma data_set_other rc name v k j i x name' v' k' j' i' :
  (name', v', k', j', i') <> (name, v, k, j, i) ->
  data (data_set rc name v k j i x) name' v' k' j' i' = data rc name' v' k' j' i'.
Proof.
  intros Hne. destruct (String.eqb_spec name' name) as [->|Hn].
  - apply data_set_index_ne. congruence.
  - apply data_set_name_ne, Hn.
Qed.

Lemma SetRest_fluid_cells rho0 u0 v0 kb jb ib rc k j i :
  s kb <= k <= e kb -> s jb <= j <= e jb -> s ib <= i <= e ib ->
  let rc' := Rest.SetRest_fluid rho0 u0 v0 kb jb ib rc in
  data rc' "prims.rho" 0 k j i = rho0 /\ data rc' "prims.u" 0 k j i = u0 /\
  data rc' "prims.uvec" 0 k j i = v0 /\ data rc' "prims.uvec" 1 k j i = r0 /\
  data rc' "prims.uvec" 2 k j i = r0.
Proof.
  intros Hk Hj Hi. cbv zeta. unfold Rest.SetRest_fluid.
  assert (Hown : forall k j i st,
            let st' := data_set (data_set (data_set (data_set
                         (data_set st "prims.rho" 0 k j i rho0) "prims.u" 0 k j i u0)
                         "prims.uvec" 0 k j i v0) "prims.uvec" 1 k j i r0)
                         "prims.uvec" 2 k j i r0 in
            data st' "prims.rho" 0 k j i = rho0 /\ data st' "prims.u" 0 k j i = u0 /\
            data st' "prims.uvec" 0 k j i = v0 /\ data st' "prims.uvec" 1 k j i = r0 /\
            data st' "prims.uvec" 2 k j i = r0).
  { intros k0 j0 i0 st. cbv zeta.
    repeat split;
      repeat first [apply data_set_eq
                   |rewrite data_set_name_ne by discriminate
                   |rewrite data_set_index_ne by discriminate]. }
  apply (par_for_3D_establish (fun _ => True)
           (fun k j i st =>
              data st "prims.rho" 0 k j i = rho0 /\ data st "prims.u" 0 k j i = u0 /\
              data st "prims.uvec" 0 k j i = v0 /\ data st "prims.uvec" 1 k j i = r0 /\
              data st "prims.uvec" 2 k j i = r0)); try trivial.
  intros k0 j0 i0 k' j' i' st _ Hst.
  destruct (decide ((k', j', i') = (k0, j0, i0))) as [Heq|Hne].
  - injection Heq as ? ? ?. subst. apply Hown.
  - rewrite !data_set_index_ne by congruence. exact Hst.
Qed.

Lemma SetRest_electrons_cells ke0 kb jb ib rc k j i :
  s kb <= k <= e kb -> s jb <= j <= e jb -> s ib <= i <= e ib ->
  let rc' := Rest.SetRest_electrons ke0 kb jb ib rc in
  data rc' "prims.Ktot" 0 k j i = ke0 /\ data rc' "prims.Kel_Constant" 0 k j i = ke0.
Proof.
  intros Hk Hj Hi. cbv zeta. unfold Rest.SetRest_electrons.
  apply (par_for_3D_establish (fun _ => True)
           (fun k j i st =>
              data st "prims.Ktot" 0 k j i = ke0 /\ data st "prims.Kel_Constant" 0 k j i = ke0));
    try trivial.
  - intros k0 j0 i0 st _. split; [rewrite data_set_name_ne by discriminate|]; apply data_set_eq.
  - intros k0 j0 i0 k' j' i' st _ Hst.
    destruct (decide ((k', j', i') = (k0, j0, i0))) as [Heq|Hne].
    + injection Heq as ? ? ?. subst.
      split; [rewrite data_set_name_ne by discriminate|]; apply data_set_eq.
    + rewrite !data_set_index_ne by congruence. exact Hst.
Qed.

Lemma SetRest_electrons_other ke0 kb jb ib rc name v k j i :
  name <> "prims.Ktot" -> name <> "prims.Kel_Constant" ->
  data (Rest.SetRest_electrons ke0 kb jb ib rc) name v k j i = data rc name v k j i.
Proof.
  intros H1 H2. unfold Rest.SetRest_electrons.
  apply (par_for_3D_invariant (fun st => data st name v k j i = data rc name v k j i));
    [|reflexivity].
  intros k' j' i' st _ _ _ Hst. rewrite !data_set_name_ne by assumption. exact Hst.
Qed.

(** The entries that the two loops leave alone. *)
Lemma SetRest_fields_untouched gp (electrons : bool) domain rc name v k j i :
  ~ (in_domain (cellbounds rc) domain k j i /\
     ((name = "prims.rho" /\ v = 0) \/ (name = "prims.u" /\ v = 0) \/
      (name = "prims.uvec" /\ 0 <= v <= 2) \/
      (electrons = true /\ (name = "prims.Ktot" \/ name = "prims.Kel_Constant") /\ v = 0))) ->
  data (Rest.SetRest_fields gp electrons domain rc) name v k j i = data rc name v k j i.
Proof.
  intros Hout. unfold Rest.SetRest_fields. cbv zeta.
  assert (Hfluid : forall rho0 u0 v0,
            data (Rest.SetRest_fluid rho0 u0 v0 (GetBoundsK (cellbounds rc) domain)
                    (GetBoundsJ (cellbounds rc) domain) (GetBoundsI (cellbounds rc) domain) rc)
                 name v k j i = data rc name v k j i
            \/ (name = "prims.Ktot" \/ name = "prims.Kel_Constant")).
  { intros rho0 u0 v0.
    destruct (decide (name = "prims.Ktot" \/ name = "prims.Kel_Constant")) as [?|Hn];
      [right; assumption|left].
    unfold Rest.SetRest_fluid.
    apply (par_for_3D_invariant (fun st => data st name v k j i = data rc name v k j i));
      [|reflexivity].
    intros k' j' i' st Hk Hj Hi Hst.
    assert (Hcell : (k, j, i) = (k', j', i') -> in_domain (cellbounds rc) domain k j i)
      by (intros Heq; injection Heq as -> -> ->; repeat split; lia).
    repeat (match goal with
            | |- data (data_set _ ?n ?w _ _ _ _) _ _ _ _ _ = _ =>
                destruct (decide ((name, v, k, j, i) = (n, w, k', j', i'))) as [Heq|Hne];
                [exfalso; inversion Heq; subst; apply Hout;
                 split; [apply Hcell; reflexivity|];
                 first [left; split; reflexivity
                       |right; left; split; reflexivity
                       |right; right; left; split; [reflexivity|lia]]
                |rewrite (data_set_other _ _ _ _ _ _ _ _ _ _ _ _ Hne); clear Hne]
            end).
    exact Hst. }
  destruct electrons.
  - destruct (decide (name = "prims.Ktot" \/ name = "prims.Kel_Constant")) as [Hn|Hn].
    + (* a field of the electrons: only the second loop may write it *)
      transitivity (data (Rest.SetRest_fluid (Rest.param_real (gp !! "rho0"))
                            (Rest.param_real (gp !! "u0")) (Rest.param_real (gp !! "v0"))
                            (GetBoundsK (cellbounds rc) domain)
                            (GetBoundsJ (cellbounds rc) domain)
                            (GetBoundsI (cellbounds rc) domain) rc) name v k j i).
      * unfold Rest.SetRest_electrons.
        apply (par_for_3D_invariant
                 (fun st => data st name v k j i = data (Rest.SetRest_fluid _ _ _ _ _ _ rc) name v k j i));
          [|reflexivity].
        intros k' j' i' st Hk Hj Hi Hst.
        assert (Hne : (v, k, j, i) <> (0, k', j', i')).
        { intros Heq. injection Heq as -> -> -> ->. apply Hout.
          split; [repeat split; lia|]. right. right. right. tauto. }
        rewrite !data_set_index_ne by exact Hne. exact Hst.
      * unfold Rest.SetRest_fluid.
        apply (par_for_3D_invariant (fun st => data st name v k j i = data rc name v k j i));
          [|reflexivity].
        intros k' j' i' st _ _ _ Hst.
        rewrite !data_set_name_ne by (destruct Hn as [-> | ->]; discriminate). exact Hst.
    + rewrite SetRest_electrons_other by tauto.
      destruct (Hfluid (Rest.param_real (gp !! "rho0")) (Rest.param_real (gp !! "u0"))
                  (Rest.param_real (gp !! "v0"))) as [H|H]; [exact H|contradiction].
  - destruct (decide (name = "prims.Ktot" \/ name = "prims.Kel_Constant")) as [Hn|Hn].
    + unfold Rest.SetRest_fluid.
      apply (par_for_3D_invariant (fun st => data st name v k j i = data rc name v k j i));
        [|reflexivity].
      intros k' j' i' st _ _ _ Hst.
      rewrite !data_set_name_ne by (destruct Hn as [-> | ->]; discriminate). exact Hst.
    + destruct (Hfluid (Rest.param_real (gp !! "rho0")) (Rest.param_real (gp !! "u0"))
                  (Rest.param_real (gp !! "v0"))) as [H|H]; [exact H|contradiction].
Qed.

Lemma SetRest_fields_values gp (electrons : bool) domain rc k j i :
  in_domain (cellbounds rc) domain k j i ->
  let rc' := Rest.SetRest_fields gp electrons domain rc in
  data rc' "prims.rho" 0 k j i = Rest.param_real (gp !! "rho0") /\
  data rc' "prims.u" 0 k j i = Rest.param_real (gp !! "u0") /\
  data rc' "prims.uvec" 0 k j i = Rest.param_real (gp !! "v0") /\
  data rc' "prims.uvec" 1 k j i = r0 /\ data rc' "prims.uvec" 2 k j i = r0 /\
  (electrons = true ->
   data rc' "prims.Ktot" 0 k j i = Rest.param_real (gp !! "ke0") /\
   data rc' "prims.Kel_Constant" 0 k j i = Rest.param_real (gp !! "ke0")).
Proof.
  intros (Hk&Hj&Hi). cbv zeta. unfold Rest.SetRest_fields. cbv zeta.
  pose proof (SetRest_fluid_cells (Rest.param_real (gp !! "rho0"))
                (Rest.param_real (gp !! "u0")) (Rest.param_real (gp !! "v0"))
                _ _ _ rc k j i Hk Hj Hi) as Hf. cbv zeta in Hf.
  destruct electrons.
  - rewrite !SetRest_electrons_other by discriminate.
    destruct Hf as (?&?&?&?&?).
    refine (conj _ (conj _ (conj _ (conj _ (conj _ _))))); try assumption.
    intros _. split; apply SetRest_electrons_cells; assumption.
  - destruct Hf as (?&?&?&?&?).
    refine (conj _ (conj _ (conj _ (conj _ (conj _ _))))); try assumption.
    discriminate.
Qed.

Lemma SetRest_fields_keeps gp (electrons : bool) domain rc :
  let rc' := Rest.SetRest_fields gp electrons domain rc in
  mb_ndim rc' = mb_ndim rc /\ coords rc' = coords rc /\
  cellbounds rc' = cellbounds rc /\ c_cellbounds rc' = c_cellbounds rc /\
  flux rc' = flux rc.
Proof.
  cbv zeta. unfold Rest.SetRest_fields. cbv zeta.
  set (P := fun st : MeshBlockData =>
              mb_ndim st = mb_ndim rc /\ coords st = coords rc /\
              cellbounds st = cellbounds rc /\ c_cellbounds st = c_cellbounds rc /\
              flux st = flux rc).
  assert (Hfluid : forall rho0 u0 v0 kb jb ib, P (Rest.SetRest_fluid rho0 u0 v0 kb jb ib rc)).
  { intros. unfold Rest.SetRest_fluid.
    apply (par_for_3D_invariant P); [|repeat split].
    intros k j i st _ _ _ H. exact H. }
  destruct electrons; [|apply Hfluid].
  unfold Rest.SetRest_electrons.
  apply (par_for_3D_invariant P); [|apply Hfluid].
  intros k j i st _ _ _ H. exact H.
Qed.

End SetRest_fields_facts.

(** ** SetRest and InitializeRest as a whole *)

Section Rest_runs.
Context {RA : RealArith}.
Variable parse_real : string -> Real.
Variable parse_bool : string -> bool.
Variable show_real : Real -> string.
Variable show_bool : bool -> string.
Variable pow : Real -> Real -> Real.
Variable abs : Real -> Real.
Variable default_domain : IndexDomain.
Variable default_coarse : bool.
Import Rest.

Local Abbreviation InitializeRest :=
  (Rest.InitializeRest parse_real parse_bool show_real show_bool pow abs
     default_domain default_coarse).
Local Abbreviation pin_real := (Rest.pin_real parse_real).
Local Abbreviation pin_bool := (Rest.pin_bool parse_bool).
Local Abbreviation rest_q := (Rest.rest_q parse_real).
Local Abbreviation rest_ke0 := (Rest.rest_ke0 parse_real pow).
Local Abbreviation rest_tlim := (Rest.rest_tlim parse_real parse_bool abs).
Local Abbreviation rest_final_pin :=
  (Rest.rest_final_pin parse_real parse_bool show_real show_bool abs).
Local Abbreviation rest_final_params := (Rest.rest_final_params parse_real parse_bool pow).
Local Abbreviation params_after_Adds := (Rest.params_after_Adds parse_real parse_bool).
Local Abbreviation pin_after_GetOrAdds := (Rest.pin_after_GetOrAdds show_real show_bool).

Implicit Types (st : State) (p : gmap (string * string) string)
  (gp glob ep : gmap string ParamValue).

Lemma is_real_param_real (o : option ParamValue) r :
  o = Some (PReal r) -> param_real o = r.
Proof. intros ->. reflexivity. Qed.

(** The first seven lookups of SetRest and its first loop. *)
Lemma SetRest_head domain coarse st gp glob Q :
  packages st !! "GRMHD" = Some gp ->
  packages st !! "Globals" = Some glob ->
  is_real (gp !! "u0") = true -> is_real (gp !! "v0") = true ->
  is_real (gp !! "rho0") = true -> is_real (gp !! "q") = true ->
  is_bool (gp !! "context_boundaries") = true ->
  is_real (glob !! "time") = true -> is_real (glob !! "dt_last") = true ->
  (forall u0 v0 rho0,
     gp !! "u0" = Some (PReal u0) -> gp !! "v0" = Some (PReal v0) ->
     gp !! "rho0" = Some (PReal rho0) ->
     let kb := GetBoundsK (cellbounds (rc st)) domain in
     let jb := GetBoundsJ (cellbounds (rc st)) domain in
     let ib := GetBoundsI (cellbounds (rc st)) domain in
     wp (bind (has_package "Electrons") (fun electrons =>
         bind (if electrons then
                 bind (Param_Real "Electrons" "gamma_e") (fun game =>
                 bind (Param_Real "GRMHD" "ke0") (fun ke0 =>
                 modify_rc (SetRest_electrons ke0 kb jb ib)))
               else ret ()) (fun _ => ret complete))) Q
        (set_rc st (SetRest_fluid rho0 u0 v0 kb jb ib (rc st)))) ->
  wp (SetRest domain coarse) Q st.
Proof.
  intros HG HGl Hu0 Hv0 Hrho0 Hq Hcb Htime Hdt Hk. unfold SetRest.
  apply wp_bind. apply (wp_Param_Real _ _ gp); [assumption..|intros u0 Eu0].
  apply wp_bind. apply (wp_Param_Real _ _ gp); [assumption..|intros v0 Ev0].
  apply wp_bind. apply (wp_Param_Real _ _ gp); [assumption..|intros rho0 Erho0].
  apply wp_bind. apply (wp_Param_Real _ _ gp); [assumption..|intros q _].
  apply wp_bind. apply (wp_Param_bool _ _ gp); [assumption..|intros cb _].
  apply wp_bind. apply (wp_Param_Real _ _ glob); [assumption..|intros tt _].
  apply wp_bind. apply (wp_Param_Real _ _ glob); [assumption..|intros dt _].
  apply wp_bind. unfold wp at 1, get_rc. cbn [fst snd].
  apply wp_bind. unfold wp at 1, modify_rc. cbn [fst snd].
  apply (Hk u0 v0 rho0); assumption.
Qed.

Lemma reads_ok_inv st :
  SetRest_reads_ok st = true ->
  exists gp glob,
    packages st !! "GRMHD" = Some gp /\ packages st !! "Globals" = Some glob /\
    is_real (gp !! "u0") = true /\ is_real (gp !! "v0") = true /\
    is_real (gp !! "rho0") = true /\ is_real (gp !! "q") = true /\
    is_bool (gp !! "context_boundaries") = true /\
    is_real (glob !! "time") = true /\ is_real (glob !! "dt_last") = true.
Proof.
  unfold SetRest_reads_ok.
  destruct (packages st !! "GRMHD") as [gp|]; [|discriminate].
  destruct (packages st !! "Globals") as [glob|]; [|discriminate].
  intros H. exists gp, glob.
  repeat (apply andb_prop in H as [H ?]). repeat split; assumption.
Qed.

(** SetRest when no lookup throws. *)
Lemma SetRest_run domain coarse st gp :
  packages st !! "GRMHD" = Some gp ->
  SetRest_reads_ok st = true -> SetRest_electrons_ok st = true ->
  SetRest domain coarse st
  = (set_rc st (SetRest_fields gp (bool_decide (is_Some (packages st !! "Electrons")))
                  domain (rc st)), Some complete).
Proof.
  intros HG Hok He.
  destruct (reads_ok_inv st Hok) as (gp'&glob&HG'&HGl&Hu0&Hv0&Hrho0&Hq&Hcb&Htime&Hdt).
  assert (gp' = gp) as -> by congruence. clear HG'.
  enough (wp (SetRest domain coarse)
            (fun st' oa => (st', oa)
               = (set_rc st (SetRest_fields gp
                               (bool_decide (is_Some (packages st !! "Electrons")))
                               domain (rc st)), Some complete)) st)
    as H by (unfold wp in H; destruct (SetRest domain coarse st); exact H).
  apply (SetRest_head domain coarse st gp glob); try assumption.
  intros u0 v0 rho0 Eu0 Ev0 Erho0 kb jb ib.
  apply wp_bind, wp_has_package. cbn [packages set_rc].
  unfold SetRest_electrons_ok in He. rewrite HG in He.
  unfold SetRest_fields. cbv zeta.
  rewrite (is_real_param_real _ _ Eu0), (is_real_param_real _ _ Ev0),
    (is_real_param_real _ _ Erho0).
  destruct (packages st !! "Electrons") as [ep|] eqn:HE.
  - apply andb_prop in He as [Hgame Hke0].
    rewrite bool_decide_eq_true_2 by (eexists; reflexivity).
    apply wp_bind. apply wp_bind.
    apply (wp_Param_Real _ _ ep); [assumption..|intros game _].
    apply wp_bind. apply (wp_Param_Real _ _ gp); [assumption..|intros ke0 Eke0].
    unfold wp at 1, modify_rc. cbn [fst snd].
    rewrite (is_real_param_real _ _ Eke0). reflexivity.
  - rewrite bool_decide_eq_false_2 by (intros [? ?]; discriminate).
    apply wp_bind, wp_ret. reflexivity.
Qed.

(** SetRest when a lookup throws: before the first loop, or between the
    two loops. *)
Lemma SetRest_throws_early domain coarse st :
  SetRest_reads_ok st = false -> SetRest domain coarse st = (st, None).
Proof.
  unfold SetRest_reads_ok. intros H.
  unfold SetRest, Param_Real, Param_bool, AllParams, bind, ret, throw. cbv beta iota.
  destruct (packages st !! "GRMHD") as [gp|] eqn:HG; [|reflexivity].
  destruct (gp !! "u0") as [[]|]; try reflexivity. cbv beta iota. rewrite ?HG.
  destruct (gp !! "v0") as [[]|]; try reflexivity. cbv beta iota. rewrite ?HG.
  destruct (gp !! "rho0") as [[]|]; try reflexivity. cbv beta iota. rewrite ?HG.
  destruct (gp !! "q") as [[]|]; try reflexivity. cbv beta iota. rewrite ?HG.
  destruct (gp !! "context_boundaries") as [[]|]; try reflexivity. cbv beta iota.
  destruct (packages st !! "Globals") as [glob|] eqn:HGl; [|reflexivity].
  destruct (glob !! "time") as [[]|]; try reflexivity. cbv beta iota. rewrite ?HGl.
  destruct (glob !! "dt_last") as [[]|]; try reflexivity.
  discriminate H.
Qed.

Lemma SetRest_throws_late domain coarse st gp :
  packages st !! "GRMHD" = Some gp ->
  SetRest_reads_ok st = true -> SetRest_electrons_ok st = false ->
  SetRest domain coarse st = (set_rc st (SetRest_fields gp false domain (rc st)), None).
Proof.
  intros HG Hok He.
  destruct (reads_ok_inv st Hok) as (gp'&glob&HG'&HGl&Hu0&Hv0&Hrho0&Hq&Hcb&Htime&Hdt).
  assert (gp' = gp) as -> by congruence. clear HG'.
  enough (wp (SetRest domain coarse)
            (fun st' oa => (st', oa)
               = (set_rc st (SetRest_fields gp false domain (rc st)), None)) st)
    as H by (unfold wp in H; destruct (SetRest domain coarse st); exact H).
  apply (SetRest_head domain coarse st gp glob); try assumption.
  intros u0 v0 rho0 Eu0 Ev0 Erho0 kb jb ib.
  apply wp_bind, wp_has_package. cbn [packages set_rc].
  unfold SetRest_electrons_ok in He. rewrite HG in He.
  unfold SetRest_fields. cbv zeta.
  rewrite (is_real_param_real _ _ Eu0), (is_real_param_real _ _ Ev0),
    (is_real_param_real _ _ Erho0).
  destruct (packages st !! "Electrons") as [ep|] eqn:HE; [|discriminate].
  rewrite bool_decide_eq_true_2 by (eexists; reflexivity).
  apply wp_bind. apply wp_bind.
  unfold wp at 1, Param_Real, bind, AllParams. cbn [packages set_rc fst snd]. rewrite HE.
  cbv beta iota.
  destruct (ep !! "gamma_e") as [[game| |]|]; try reflexivity.
  cbn [is_real andb] in He.
  unfold wp, Param_Real, bind, AllParams, ret. cbn [packages set_rc fst snd]. rewrite HG.
  cbv beta iota.
  destruct (gp !! "ke0") as [[ke0| |]|]; try reflexivity. discriminate He.
Qed.

(** X13.  SetRest, when every parameter that it reads is there with its
    type, returns TaskStatus::complete and leaves the input file and the
    packages as they were; in the block it keeps the geometry, the bounds
    and the fluxes; every cell of the requested domain holds the density
    rho0, the internal energy u0 and the velocity (v0, 0, 0) of the table
    of GRMHD and, when there is a package Electrons, the value ke0 of that
    table in prims.Ktot and prims.Kel_Constant; every other entry of every
    field is left as it was.  The argument coarse plays no part. *)
Theorem X13_SetRest_sets_domain domain coarse st gp :
  packages st !! "GRMHD" = Some gp ->
  SetRest_reads_ok st = true -> SetRest_electrons_ok st = true ->
  let st' := (SetRest domain coarse st).1 in
  (SetRest domain coarse st).2 = Some complete /\
  pin st' = pin st /\ packages st' = packages st /\
  (mb_ndim (rc st') = mb_ndim (rc st) /\ coords (rc st') = coords (rc st) /\
   cellbounds (rc st') = cellbounds (rc st) /\ c_cellbounds (rc st') = c_cellbounds (rc st) /\
   flux (rc st') = flux (rc st)) /\
  (forall k j i, in_domain (cellbounds (rc st)) domain k j i ->
     data (rc st') "prims.rho" 0 k j i = param_real (gp !! "rho0") /\
     data (rc st') "prims.u" 0 k j i = param_real (gp !! "u0") /\
     data (rc st') "prims.uvec" 0 k j i = param_real (gp !! "v0") /\
     data (rc st') "prims.uvec" 1 k j i = r0 /\
     data (rc st') "prims.uvec" 2 k j i = r0 /\
     (is_Some (packages st !! "Electrons") ->
      data (rc st') "prims.Ktot" 0 k j i = param_real (gp !! "ke0") /\
      data (rc st') "prims.Kel_Constant" 0 k j i = param_real (gp !! "ke0"))) /\
  (forall name v k j i,
     ~ (in_domain (cellbounds (rc st)) domain k j i /\
        ((name = "prims.rho" /\ v = 0) \/ (name = "prims.u" /\ v = 0) \/
         (name = "prims.uvec" /\ 0 <= v <= 2) \/
         (is_Some (packages st !! "Electrons") /\
          (name = "prims.Ktot" \/ name = "prims.Kel_Constant") /\ v = 0))) ->
     data (rc st') name v k j i = data (rc st) name v k j i).
Proof.
  intros HG Hok He. cbv zeta. rewrite (SetRest_run domain coarse st gp HG Hok He).
  cbn [fst snd pin packages rc set_rc].
  refine (conj eq_refl (conj eq_refl (conj eq_refl (conj _ (conj _ _))))).
  - apply SetRest_fields_keeps.
  - intros k j i Hin.
    destruct (SetRest_fields_values gp (bool_decide (is_Some (packages st !! "Electrons")))
                domain (rc st) k j i Hin) as (H1&H2&H3&H4&H5&H6).
    refine (conj H1 (conj H2 (conj H3 (conj H4 (conj H5 _))))).
    intros HE. apply H6, bool_decide_eq_true_2, HE.
  - intros name v k j i Hout. apply SetRest_fields_untouched.
    intros (Hin&Hcase). apply Hout. split; [exact Hin|].
    destruct Hcase as [H|[H|[H|(H&H')]]];
      [left; exact H|right; left; exact H|right; right; left; exact H|].
    right. right. right. split; [|exact H'].
    apply bool_decide_eq_true_1 in H. exact H.
Qed.

(** X14.  SetRest when a lookup throws.  It reads the heating exponent q,
    the flag context_boundaries, and the time and the last time step of
    Globals although it uses none of them: when one of the seven
    parameters that it reads first is missing or has another type, it
    throws and changes nothing.  When these are there but, with a package
    Electrons, gamma_e or ke0 is not, it throws after the first loop: the
    density, the internal energy and the velocity of the domain have been
    overwritten already. *)
Theorem X14_SetRest_throws domain coarse st :
  (SetRest_reads_ok st = false -> SetRest domain coarse st = (st, None)) /\
  (forall gp, packages st !! "GRMHD" = Some gp ->
     SetRest_reads_ok st = true -> SetRest_electrons_ok st = false ->
     SetRest domain coarse st = (set_rc st (SetRest_fields gp false domain (rc st)), None)).
Proof.
  split; [apply SetRest_throws_early|].
  intros gp. apply SetRest_throws_late.
Qed.

Lemma reads_ok_intro st gp glob :
  packages st !! "GRMHD" = Some gp -> packages st !! "Globals" = Some glob ->
  is_real (gp !! "u0") = true -> is_real (gp !! "v0") = true ->
  is_real (gp !! "rho0") = true -> is_real (gp !! "q") = true ->
  is_bool (gp !! "context_boundaries") = true ->
  is_real (glob !! "time") = true -> is_real (glob !! "dt_last") = true ->
  SetRest_reads_ok st = true.
Proof.
  intros HG HGl H1 H2 H3 H4 H5 H6 H7. unfold SetRest_reads_ok.
  rewrite HG, HGl, H1, H2, H3, H4, H5, H6, H7. reflexivity.
Qed.

Lemma rest_keys_not_ke0 : "ke0" ∉ rest_keys.
Proof.
  unfold rest_keys. intros Hin.
  repeat (apply elem_of_cons in Hin as [Hin|Hin]; [discriminate|]).
  apply elem_of_nil in Hin. contradiction.
Qed.

Lemma rest_final_params_lookup p pk gp key :
  key ∈ rest_keys ->
  rest_final_params p pk gp !! key
  = Some (match gp !! key with
          | Some v => v
          | None => rest_default parse_real parse_bool p key
          end).
Proof.
  intros Hin. unfold Rest.rest_final_params.
  destruct (pk !! "Electrons") as [ep|].
  - rewrite params_add_if_absent_ne
      by (intros ->; apply rest_keys_not_ke0, Hin).
    apply params_after_Adds_lookup, Hin.
  - apply params_after_Adds_lookup, Hin.
Qed.

Lemma rest_final_params_ke0 p pk gp :
  rest_final_params p pk gp !! "ke0"
  = match pk !! "Electrons" with
    | Some ep => Some (match gp !! "ke0" with
                       | Some v => v
                       | None => PReal (rest_ke0 p ep)
                       end)
    | None => gp !! "ke0"
    end.
Proof.
  unfold Rest.rest_final_params. destruct (pk !! "Electrons") as [ep|].
  - rewrite params_add_if_absent_eq.
    rewrite params_after_Adds_other by apply rest_keys_not_ke0. reflexivity.
  - apply params_after_Adds_other, rest_keys_not_ke0.
Qed.

Lemma rest_final_params_other p pk gp key :
  key ∉ "ke0" :: rest_keys -> rest_final_params p pk gp !! key = gp !! key.
Proof.
  intros Hnotin. unfold Rest.rest_final_params.
  assert (Hk : key <> "ke0") by (intros ->; apply Hnotin; left).
  assert (Hr : key ∉ rest_keys) by (intros Hin; apply Hnotin; right; exact Hin).
  destruct (pk !! "Electrons") as [ep|].
  - rewrite params_add_if_absent_ne by exact Hk. apply params_after_Adds_other, Hr.
  - apply params_after_Adds_other, Hr.
Qed.

(** InitializeRest when no lookup throws. *)
Lemma InitializeRest_run st gp :
  packages st !! "GRMHD" = Some gp -> rest_env_ok st ->
  InitializeRest st
  = ({| pin := rest_final_pin (pin st);
        packages := <["GRMHD" := rest_final_params (pin st) (packages st) gp]> (packages st);
        rc := SetRest_fields (rest_final_params (pin st) (packages st) gp)
                (bool_decide (is_Some (packages st !! "Electrons")))
                default_domain (rc st) |},
     Some complete).
Proof.
  intros HG (gp'&glob&HG'&HGl&Hrho0&Hv0&Hu0&Hq&Hcb&Htime&Hdt&He).
  assert (gp' = gp) as -> by congruence. clear HG'.
  match goal with
  | |- _ = ?res =>
      enough (wp InitializeRest (fun st' oa => (st', oa) = res) st)
        as H by (unfold wp in H; destruct (InitializeRest st); exact H)
  end.
  apply (InitializeRest_head _ _ _ _ _ _ _ _ st gp _ HG).
  set (gp5 := params_after_Adds (pin st) gp).
  assert (H5u0 : is_real (gp5 !! "u0") = true)
    by (apply params_after_Adds_real; [in_list|assumption]).
  assert (H5v0 : is_real (gp5 !! "v0") = true)
    by (apply params_after_Adds_real; [in_list|assumption]).
  assert (H5rho0 : is_real (gp5 !! "rho0") = true)
    by (apply params_after_Adds_real; [in_list|assumption]).
  assert (H5q : is_real (gp5 !! "q") = true)
    by (apply params_after_Adds_real; [in_list|assumption]).
  assert (H5cb : is_bool (gp5 !! "context_boundaries") = true)
    by (apply params_after_Adds_bool; assumption).
  apply wp_bind, wp_has_package. cbn [packages set_packages].
  rewrite lookup_insert_ne by discriminate.
  unfold Rest.rest_final_pin, Rest.rest_tlim, Rest.rest_final_params.
  destruct He as [He|(ep&He&Hfel&Hgame&Hke0)]; rewrite He.
  - rewrite bool_decide_eq_false_2 by (intros [? ?]; discriminate).
    apply wp_bind, wp_ret. apply wp_bind.
    destruct (tlim_override _ _ _ _ _); [apply wp_SetReal|apply wp_ret];
      (unfold wp, bind;
       rewrite (SetRest_run default_domain default_coarse _ gp5);
       [cbn [fst snd set_rc set_pin set_packages pin packages rc];
        rewrite lookup_insert_ne by discriminate; rewrite He;
        rewrite bool_decide_eq_false_2 by (intros [? ?]; discriminate); reflexivity
       |cbn [packages set_packages set_pin]; apply lookup_insert_eq
       |apply (reads_ok_intro _ gp5 glob); cbn [packages set_packages set_pin];
        rewrite ?lookup_insert_eq, ?lookup_insert_ne by discriminate;
        try assumption; reflexivity
       |unfold SetRest_electrons_ok; cbn [packages set_packages set_pin];
        rewrite lookup_insert_ne by discriminate; rewrite He; reflexivity]).
  - rewrite bool_decide_eq_true_2 by (eexists; reflexivity).
    apply wp_bind. apply wp_bind.
    apply (wp_Param_Real _ _ ep);
      [cbn [packages set_packages]; rewrite lookup_insert_ne by discriminate; exact He
      |exact Hfel|intros fel0 Efel].
    apply wp_bind.
    apply (wp_Param_Real _ _ ep);
      [cbn [packages set_packages]; rewrite lookup_insert_ne by discriminate; exact He
      |exact Hgame|intros game Egame].
    eapply wp_Add_if_absent; [cbn [packages set_packages]; apply lookup_insert_eq|].
    cbn [packages set_packages set_pin pin rc]. rewrite insert_insert_eq.
    unfold Rest.rest_ke0.
    rewrite (is_real_param_real _ _ Efel), (is_real_param_real _ _ Egame).
    match goal with
    | |- context [params_add_if_absent gp5 "ke0" ?v] =>
        set (gp6 := params_add_if_absent gp5 "ke0" v)
    end.
    assert (H6 : forall key, key <> "ke0" -> gp6 !! key = gp5 !! key)
      by (intros key Hne; apply params_add_if_absent_ne, Hne).
    assert (H6ke0 : is_real (gp6 !! "ke0") = true).
    { unfold gp6. rewrite params_add_if_absent_eq. unfold gp5.
      rewrite params_after_Adds_other by apply rest_keys_not_ke0.
      destruct (gp !! "ke0") as [[]|]; try discriminate; reflexivity. }
    apply wp_bind.
    destruct (tlim_override _ _ _ _ _); [apply wp_SetReal|apply wp_ret];
      (unfold wp, bind;
       rewrite (SetRest_run default_domain default_coarse _ gp6);
       [cbn [fst snd set_rc set_pin set_packages pin packages rc];
        rewrite lookup_insert_ne by discriminate; rewrite He;
        rewrite bool_decide_eq_true_2 by (eexists; reflexivity); reflexivity
       |cbn [packages set_packages set_pin]; apply lookup_insert_eq
       |apply (reads_ok_intro _ gp6 glob); cbn [packages set_packages set_pin];
        rewrite ?lookup_insert_eq, ?lookup_insert_ne by discriminate;
        rewrite ?H6 by discriminate;
        try assumption; reflexivity
       |unfold SetRest_electrons_ok; cbn [packages set_packages set_pin];
        rewrite lookup_insert_ne by discriminate; rewrite He;
        rewrite lookup_insert_eq, Hgame, H6ke0; reflexivity]).
Qed.

(** X15.  The time limit.  When no lookup throws, InitializeRest
    leaves under parthenon/time/tlim of the input file the text of
    dyntimes * u0 / abs(q) exactly when set_tlim holds, q != 0 and not
    (q < 0 and dyntimes > 1), and the entry that was there otherwise; u0
    is the value of the input file (or its default 1), also when the table
    of GRMHD holds another u0. *)
Theorem X15_InitializeRest_time_limit st :
  rest_env_ok st ->
  let set_tlim := pin_bool (pin st) "rest" "set_tlim" false in
  let q := rest_q (pin st) in
  let dyntimes := pin_real (pin st) "rest" "dyntimes" rhalf in
  let u0 := pin_real (pin st) "rest" "u0" r1 in
  pin (InitializeRest st).1 !! ("parthenon/time", "tlim")
  = if set_tlim && rne q r0 && negb (rlt q r0 && rgt dyntimes r1)
    then Some (show_real (rdiv (rmul dyntimes u0) (abs q)))
    else pin st !! ("parthenon/time", "tlim").
Proof.
  intros Hok. cbv zeta.
  pose proof Hok as (gp&_&HG&_).
  rewrite (InitializeRest_run st gp HG Hok). cbn [fst pin].
  unfold Rest.rest_final_pin, Rest.rest_tlim, tlim_override.
  destruct (pin_bool (pin st) "rest" "set_tlim" false
            && rne (rest_q (pin st)) r0
            && negb (rlt (rest_q (pin st)) r0
                     && rgt (pin_real (pin st) "rest" "dyntimes" rhalf) r1)).
  - apply lookup_insert_eq.
  - apply pin_after_GetOrAdds_lookup. discriminate.
Qed.

(** X16.  The fields after InitializeRest, when no lookup throws: every
    cell of the default domain of SetRest holds the density, the internal
    energy and the first velocity component that the table of GRMHD held
    before the call, and the value of the input file (or the default 1)
    only where the table had none; the other two velocity components are
    0.  With a package Electrons, prims.Ktot and prims.Kel_Constant hold
    the ke0 of the table or, where it had none,
    (gamma_e - 1) * fel_0 * u0 * pow(rho0, -gamma_e) with the u0 and rho0
    of the input file. *)
Theorem X16_InitializeRest_fields st gp k j i :
  packages st !! "GRMHD" = Some gp -> rest_env_ok st ->
  in_domain (cellbounds (rc st)) default_domain k j i ->
  let rc' := rc (InitializeRest st).1 in
  data rc' "prims.rho" 0 k j i
  = match gp !! "rho0" with
    | Some v => param_real (Some v)
    | None => pin_real (pin st) "rest" "rho0" r1
    end /\
  data rc' "prims.u" 0 k j i
  = match gp !! "u0" with
    | Some v => param_real (Some v)
    | None => pin_real (pin st) "rest" "u0" r1
    end /\
  data rc' "prims.uvec" 0 k j i
  = match gp !! "v0" with
    | Some v => param_real (Some v)
    | None => pin_real (pin st) "rest" "v0" r1
    end /\
  data rc' "prims.uvec" 1 k j i = r0 /\
  data rc' "prims.uvec" 2 k j i = r0 /\
  (forall ep, packages st !! "Electrons" = Some ep ->
     let ke0 := match gp !! "ke0" with
                | Some v => param_real (Some v)
                | None => rest_ke0 (pin st) ep
                end in
     data rc' "prims.Ktot" 0 k j i = ke0 /\
     data rc' "prims.Kel_Constant" 0 k j i = ke0).
Proof.
  intros HG Hok Hin. cbv zeta.
  rewrite (InitializeRest_run st gp HG Hok). cbn [fst rc].
  destruct (SetRest_fields_values (rest_final_params (pin st) (packages st) gp)
              (bool_decide (is_Some (packages st !! "Electrons")))
              default_domain (rc st) k j i Hin) as (H1&H2&H3&H4&H5&H6).
  rewrite rest_final_params_lookup in H1 by (unfold rest_keys; in_list).
  rewrite rest_final_params_lookup in H2 by (unfold rest_keys; in_list).
  rewrite rest_final_params_lookup in H3 by (unfold rest_keys; in_list).
  refine (conj _ (conj _ (conj _ (conj H4 (conj H5 _))))).
  - rewrite H1. destruct (gp !! "rho0"); reflexivity.
  - rewrite H2. destruct (gp !! "u0"); reflexivity.
  - rewrite H3. destruct (gp !! "v0"); reflexivity.
  - intros ep HE.
    assert (He : bool_decide (is_Some (packages st !! "Electrons")) = true)
      by (apply bool_decide_eq_true_2; rewrite HE; eexists; reflexivity).
    specialize (H6 He). rewrite rest_final_params_ke0 in H6. rewrite HE in H6 |- *.
    destruct H6 as [H6 H7]. rewrite H6, H7.
    destruct (gp !! "ke0"); split; reflexivity.
Qed.

Lemma pin_add_lookup_eq p block name v :
  pin_add p block name v !! (block, name)
  = Some (match p !! (block, name) with Some x => x | None => v end).
Proof.
  unfold pin_add. destruct (p !! (block, name)) eqn:E; [exact E|apply lookup_insert_eq].
Qed.

Lemma pin_after_GetOrAdds_full p key :
  pin_after_GetOrAdds p !! key
  = match p !! key with
    | Some v => Some v
    | None => rest_file_default show_real show_bool key
    end.
Proof.
  unfold Rest.pin_after_GetOrAdds, rest_file_default.
  repeat (case_decide;
          [subst key;
           repeat (rewrite pin_add_lookup_ne by congruence);
           rewrite pin_add_lookup_eq;
           repeat (rewrite pin_add_lookup_ne by congruence);
           destruct (p !! _); reflexivity|]).
  rewrite !pin_add_lookup_ne by congruence.
  destruct (p !! key); reflexivity.
Qed.

(** X17.  The input file after InitializeRest, whether it returns or
    throws: apart from parthenon/time/tlim, every entry that was there is
    kept; the six parameters read with a default (set_tlim, u0, rho0, v0,
    context_boundaries and dyntimes of the block rest) are written back
    with that default where they were missing; and nothing else is added,
    so the heating exponent rest/q, which is read without a default, is
    never written. *)
Theorem X17_InitializeRest_input_file st key :
  key <> ("parthenon/time", "tlim") ->
  pin (InitializeRest st).1 !! key
  = match pin st !! key with
    | Some v => Some v
    | None => rest_file_default show_real show_bool key
    end.
Proof.
  intros Hkey. rewrite <- pin_after_GetOrAdds_full.
  destruct (packages st !! "GRMHD") as [gp|] eqn:HG.
  - set (K := fun st' : State => pin st' !! key = pin_after_GetOrAdds (pin st) !! key).
    change (wp InitializeRest (fun st' _ => K st') st).
    apply (InitializeRest_head _ _ _ _ _ _ _ _ st gp _ HG).
    apply keeps_rest_tail.
    + intros st' r H. exact H.
    + intros st' gp' v _ H. exact H.
    + intros st' x _ H. unfold K. cbn [pin set_pin].
      rewrite lookup_insert_ne by congruence. exact H.
    + reflexivity.
  - rewrite (InitializeRest_no_GRMHD _ _ _ _ _ _ _ _ st HG). reflexivity.
Qed.

(** X18.  The packages after InitializeRest, when no lookup throws: in
    the table of GRMHD every key other than rho0, v0, u0, q,
    context_boundaries and ke0 is as before; ke0 is as before when there
    is no package Electrons, and otherwise holds what it held or, when it
    was missing, (gamma_e - 1) * fel_0 * u0 * pow(rho0, -gamma_e) computed
    from the u0 and rho0 of the input file (not from those of the table).  *)
Theorem X18_InitializeRest_ke0 st gp :
  packages st !! "GRMHD" = Some gp -> rest_env_ok st ->
  exists gp',
    packages (InitializeRest st).1 !! "GRMHD" = Some gp' /\
    (forall key, key ∉ "ke0" :: rest_keys -> gp' !! key = gp !! key) /\
    gp' !! "ke0"
    = match packages st !! "Electrons" with
      | Some ep => Some (match gp !! "ke0" with
                         | Some v => v
                         | None => PReal (rest_ke0 (pin st) ep)
                         end)
      | None => gp !! "ke0"
      end.
Proof.
  intros HG Hok. rewrite (InitializeRest_run st gp HG Hok). cbn [fst packages].
  exists (rest_final_params (pin st) (packages st) gp).
  split; [apply lookup_insert_eq|]. split.
  - intros key. apply rest_final_params_other.
  - apply rest_final_params_ke0.
Qed.

(** X19.  What InitializeRest never touches, whether it returns or
    throws: every package other than GRMHD keeps its table.  And without
    a package GRMHD it throws before it has changed any package or any
    field: only the defaults of the input file have been written. *)
Theorem X19_InitializeRest_other_packages st :
  (forall pkg, pkg <> "GRMHD" ->
     packages (InitializeRest st).1 !! pkg = packages st !! pkg) /\
  (packages st !! "GRMHD" = None ->
   (InitializeRest st).2 = None /\
   packages (InitializeRest st).1 = packages st /\
   rc (InitializeRest st).1 = rc st /\
   pin (InitializeRest st).1 = pin_after_GetOrAdds (pin st)).
Proof.
  split.
  - intros pkg Hpkg. destruct (packages st !! "GRMHD") as [gp|] eqn:HG.
    + set (K := fun st' : State => packages st' !! pkg = packages st !! pkg).
      change (wp InitializeRest (fun st' _ => K st') st).
      apply (InitializeRest_head _ _ _ _ _ _ _ _ st gp _ HG).
      apply keeps_rest_tail.
      * intros st' r H. exact H.
      * intros st' gp' v _ H. unfold K. cbn [packages set_packages].
        rewrite lookup_insert_ne by congruence. exact H.
      * intros st' x _ H. exact H.
      * unfold K. cbn [packages set_packages set_pin].
        apply lookup_insert_ne. congruence.
    + rewrite (InitializeRest_no_GRMHD _ _ _ _ _ _ _ _ st HG). reflexivity.
  - intros HG. rewrite (InitializeRest_no_GRMHD _ _ _ _ _ _ _ _ st HG).
    repeat split.
Qed.

End Rest_runs.

Ltac init_st_env_ok :=
  exists Runs.c8_gp, Runs.c8_globals;
  repeat split; try (vm_compute; reflexivity);
  right; exists Runs.rest_ep; repeat split; vm_compute; reflexivity.

Lemma X13_SetRest_sets_domain_witness :
  (Rest.SetRest interior false Runs.rest_st).2 = Some complete /\
  data (Rest.rc (Rest.SetRest interior false Runs.rest_st).1) "prims.rho" 0 0 1 1 = 2%float /\
  data (Rest.rc (Rest.SetRest interior false Runs.rest_st).1) "prims.Ktot" 0 0 1 1 = 7%float.
Proof.
  assert (H1 : Rest.packages Runs.rest_st !! "GRMHD" = Some Runs.rest_gp)
    by (vm_compute; reflexivity).
  assert (H2 : Rest.SetRest_reads_ok Runs.rest_st = true) by (vm_compute; reflexivity).
  assert (H3 : Rest.SetRest_electrons_ok Runs.rest_st = true) by (vm_compute; reflexivity).
  destruct (X13_SetRest_sets_domain (RA := binary64) interior false Runs.rest_st Runs.rest_gp
              H1 H2 H3) as (Hret&_&_&_&Hval&_).
  split; [exact Hret|].
  destruct (Hval 0 1 1) as (Hrho&_&_&_&_&HK); [unfold in_domain; cbn; lia|].
  split.
  - etrans; [exact Hrho|vm_compute; reflexivity].
  - destruct HK as [HK _]; [vm_compute; eexists; reflexivity|].
    etrans; [exact HK|vm_compute; reflexivity].
Defined.

Lemma X14_SetRest_throws_witness :
  Rest.SetRest interior false Runs.rest_st_no_q = (Runs.rest_st_no_q, None) /\
  Rest.SetRest interior false Runs.rest_st_no_ke0
  = (Rest.set_rc Runs.rest_st_no_ke0
       (Rest.SetRest_fields (delete "ke0" Runs.rest_gp) false interior Runs.rest_rc), None).
Proof.
  split.
  - apply (proj1 (X14_SetRest_throws (RA := binary64) interior false Runs.rest_st_no_q)).
    vm_compute. reflexivity.
  - apply (proj2 (X14_SetRest_throws (RA := binary64) interior false Runs.rest_st_no_ke0)
             (delete "ke0" Runs.rest_gp)); vm_compute; reflexivity.
Defined.

Lemma X15_InitializeRest_time_limit_witness :
  Rest.pin (Runs.run_InitializeRest Runs.init_st).1 !! ("parthenon/time", "tlim")
  = Some "real".
Proof.
  etrans.
  - apply (X15_InitializeRest_time_limit (RA := binary64) Runs.run_parse_real
             Runs.run_parse_bool Runs.run_show_real Runs.run_show_bool Runs.run_pow
             PrimFloat.abs interior false Runs.init_st).
    init_st_env_ok.
  - vm_compute. reflexivity.
Defined.

Lemma X16_InitializeRest_fields_witness :
  data (Rest.rc (Runs.run_InitializeRest Runs.init_st).1) "prims.rho" 0 0 1 1 = 2%float /\
  data (Rest.rc (Runs.run_InitializeRest Runs.init_st).1) "prims.u" 0 0 1 1 = 1%float /\
  data (Rest.rc (Runs.run_InitializeRest Runs.init_st).1) "prims.Ktot" 0 0 1 1 = 4%float.
Proof.
  assert (H1 : Rest.packages Runs.init_st !! "GRMHD" = Some Runs.c8_gp)
    by (vm_compute; reflexivity).
  assert (H2 : Rest.rest_env_ok Runs.init_st) by init_st_env_ok.
  assert (H3 : in_domain (cellbounds (Rest.rc Runs.init_st)) interior 0 1 1)
    by (unfold in_domain; cbn; lia).
  destruct (X16_InitializeRest_fields (RA := binary64) Runs.run_parse_real
              Runs.run_parse_bool Runs.run_show_real Runs.run_show_bool Runs.run_pow
              PrimFloat.abs interior false Runs.init_st Runs.c8_gp 0 1 1 H1 H2 H3)
    as (Hrho&Hu&_&_&_&HK).
  split; [etrans; [exact Hrho|vm_compute; reflexivity]|].
  split; [etrans; [exact Hu|vm_compute; reflexivity]|].
  destruct (HK Runs.rest_ep) as [HK1 _]; [vm_compute; reflexivity|].
  etrans; [exact HK1|vm_compute; reflexivity].
Defined.

Lemma X17_InitializeRest_input_file_witness :
  Rest.pin (Runs.run_InitializeRest Runs.c8_st).1 !! ("rest", "dyntimes") = Some "real" /\
  Rest.pin (Runs.run_InitializeRest Runs.c8_st).1 !! ("rest", "q") = None.
Proof.
  split.
  - etrans.
    + apply (X17_InitializeRest_input_file (RA := binary64) Runs.run_parse_real
               Runs.run_parse_bool Runs.run_show_real Runs.run_show_bool Runs.run_pow
               PrimFloat.abs interior false Runs.c8_st). discriminate.
    + vm_compute. reflexivity.
  - etrans.
    + apply (X17_InitializeRest_input_file (RA := binary64) Runs.run_parse_real
               Runs.run_parse_bool Runs.run_show_real Runs.run_show_bool Runs.run_pow
               PrimFloat.abs interior false Runs.c8_st). discriminate.
    + vm_compute. reflexivity.
Defined.

Lemma X18_InitializeRest_ke0_witness :
  exists gp',
    Rest.packages (Runs.run_InitializeRest Runs.init_st).1 !! "GRMHD" = Some gp' /\
    gp' !! "ke0" = Some (Rest.PReal 4%float).
Proof.
  assert (H1 : Rest.packages Runs.init_st !! "GRMHD" = Some Runs.c8_gp)
    by (vm_compute; reflexivity).
  assert (H2 : Rest.rest_env_ok Runs.init_st) by init_st_env_ok.
  destruct (X18_InitializeRest_ke0 (RA := binary64) Runs.run_parse_real
              Runs.run_parse_bool Runs.run_show_real Runs.run_show_bool Runs.run_pow
              PrimFloat.abs interior false Runs.init_st Runs.c8_gp H1 H2)
    as (gp'&Hg&_&Hke0).
  exists gp'. split; [exact Hg|].
  etrans; [exact Hke0|vm_compute; reflexivity].
Defined.

Lemma X19_InitializeRest_other_packages_witness :
  Rest.packages (Runs.run_InitializeRest Runs.init_st).1 !! "Electrons" = Some Runs.rest_ep.
Proof.
  etrans.
  - apply (proj1 (X19_InitializeRest_other_packages (RA := binary64) Runs.run_parse_real
                    Runs.run_parse_bool Runs.run_show_real Runs.run_show_bool Runs.run_pow
                    PrimFloat.abs interior false Runs.init_st)). discriminate.
  - vm_compute. reflexivity.
Defined.
